(** * sort-keys-fix: ordering of object keys, with the swap fixer

  A shallow embedding of [lib/rules/sort-keys-fix.js].  Names are strings of
  8-bit code units, the traversal state is the rule's linked stack of frames,
  and a thrown [TypeError] is the [None] of an option monad. *)

From Stdlib Require Import String Ascii List ZArith NArith Bool Arith Lia.
From Stdlib Require Import Sorted.
Import ListNotations.

Open Scope string_scope.
Open Scope list_scope.
Open Scope Z_scope.

(** ** JavaScript strings *)

Module JsString.

(** [String.prototype.toLowerCase] on one code unit below 256: the Latin
    capitals A-Z and the Latin-1 capitals U+00C0..U+00DE (the sign U+00D7
    apart) move up by 32. *)
Definition toLowerCase_unit (c : ascii) : ascii :=
  let n := N_of_ascii c in
  if (((65 <=? n) && (n <=? 90))
      || ((192 <=? n) && (n <=? 222) && negb (n =? 215)))%N
  then ascii_of_N (n + 32) else c.

Fixpoint toLowerCase (s : string) : string :=
  match s with
  | EmptyString => EmptyString
  | String c s' => String (toLowerCase_unit c) (toLowerCase s')
  end.

(** [a <= b] on two strings: code units compared from the left. *)
Definition le (a b : string) : bool := String.leb a b.

(** [s.slice(i, j)] for indices that are not negative. *)
Definition slice (s : string) (i j : nat) : string :=
  substring i (j - i) s.

(** [x || y] where [x] is a string or [undefined]: the empty string is
    falsy. *)
Definition or_null (x : option string) : option string :=
  match x with
  | Some s => if String.eqb s "" then None else Some s
  | None => None
  end.

End JsString.

(** ** The syntax tree handed to the rule *)

Module ESTree.

Record Position := { line : Z; column : Z }.

Record SourceLocation := { start : Position; end_ : Position }.

Inductive NodeType :=
| TObjectExpression
| TObjectPattern
| TProperty
| TSpreadElement
| TExperimentalSpreadProperty
| TIdentifier
| TLiteral
| TOther.

Definition NodeType_eqb (a b : NodeType) : bool :=
  match a, b with
  | TObjectExpression, TObjectExpression
  | TObjectPattern, TObjectPattern
  | TProperty, TProperty
  | TSpreadElement, TSpreadElement
  | TExperimentalSpreadProperty, TExperimentalSpreadProperty
  | TIdentifier, TIdentifier
  | TLiteral, TLiteral
  | TOther, TOther => true
  | _, _ => false
  end.

(** What every node carries: [range] and [loc]. *)
Record Meta := { range : nat * nat; loc : SourceLocation }.

(** The tree.  [Literal] holds [String(value)]; [Other] stands for every
    node kind the rule has no listener for. *)
#[local] Unset Elimination Schemes.
Inductive node :=
| ObjectExpression (m : Meta) (properties : list node)
| ObjectPattern (m : Meta) (properties : list node)
| Property (m : Meta) (computed : bool) (key value : node)
| SpreadElement (m : Meta) (argument : node)
| ExperimentalSpreadProperty (m : Meta) (argument : node)
| Identifier (m : Meta) (name : string)
| Literal (m : Meta) (value : string)
| Other (m : Meta) (children : list node).
#[local] Set Elimination Schemes.

Section Induction.

Variable P : node -> Prop.
Hypothesis P_ObjectExpression :
  forall m ps, Forall P ps -> P (ObjectExpression m ps).
Hypothesis P_ObjectPattern :
  forall m ps, Forall P ps -> P (ObjectPattern m ps).
Hypothesis P_Property :
  forall m computed k v, P k -> P v -> P (Property m computed k v).
Hypothesis P_SpreadElement : forall m a, P a -> P (SpreadElement m a).
Hypothesis P_ExperimentalSpreadProperty :
  forall m a, P a -> P (ExperimentalSpreadProperty m a).
Hypothesis P_Identifier : forall m n, P (Identifier m n).
Hypothesis P_Literal : forall m v, P (Literal m v).
Hypothesis P_Other : forall m cs, Forall P cs -> P (Other m cs).

(** Induction over the tree, with the hypothesis on every child of a list. *)
Fixpoint node_ind (n : node) : P n :=
  let all :=
    fix all (l : list node) : Forall P l :=
      match l with
      | [] => Forall_nil P
      | x :: l' => Forall_cons x (node_ind x) (all l')
      end in
  match n with
  | ObjectExpression m ps => P_ObjectExpression m ps (all ps)
  | ObjectPattern m ps => P_ObjectPattern m ps (all ps)
  | Property m computed k v =>
      P_Property m computed k v (node_ind k) (node_ind v)
  | SpreadElement m a => P_SpreadElement m a (node_ind a)
  | ExperimentalSpreadProperty m a =>
      P_ExperimentalSpreadProperty m a (node_ind a)
  | Identifier m n => P_Identifier m n
  | Literal m v => P_Literal m v
  | Other m cs => P_Other m cs (all cs)
  end.

End Induction.

Definition type (n : node) : NodeType :=
  match n with
  | ObjectExpression _ _ => TObjectExpression
  | ObjectPattern _ _ => TObjectPattern
  | Property _ _ _ _ => TProperty
  | SpreadElement _ _ => TSpreadElement
  | ExperimentalSpreadProperty _ _ => TExperimentalSpreadProperty
  | Identifier _ _ => TIdentifier
  | Literal _ _ => TLiteral
  | Other _ _ => TOther
  end.

Definition meta (n : node) : Meta :=
  match n with
  | ObjectExpression m _ | ObjectPattern m _ | Property m _ _ _
  | SpreadElement m _ | ExperimentalSpreadProperty m _
  | Identifier m _ | Literal m _ | Other m _ => m
  end.

(** [node.key] as a listener reads it: its type, [key.name] (present on an
    Identifier only), the literal's value and [key.loc]. *)
Record KeyNode := {
  key_type : NodeType;
  key_name : option string;
  key_value : option string;
  key_loc : SourceLocation
}.

(** A [Property] node as a listener reads it. *)
Record PropertyNode := {
  parent_type : NodeType;
  prop_range : nat * nat;
  prop_loc : SourceLocation;
  prop_computed : bool;
  key : KeyNode
}.

Definition key_of (k : node) : KeyNode :=
  {| key_type := type k;
     key_name := match k with Identifier _ n => Some n | _ => None end;
     key_value := match k with Literal _ v => Some v | _ => None end;
     key_loc := loc (meta k) |}.

Definition property_of (parent : NodeType) (m : Meta) (computed : bool)
    (k : node) : PropertyNode :=
  {| parent_type := parent;
     prop_range := range m;
     prop_loc := loc m;
     prop_computed := computed;
     key := key_of k |}.

(** The tree follows the grammar: a [Property] sits directly in an object
    literal or an object pattern. *)
Fixpoint well_formed (parent : NodeType) (n : node) : bool :=
  match n with
  | ObjectExpression _ ps => forallb (well_formed TObjectExpression) ps
  | ObjectPattern _ ps => forallb (well_formed TObjectPattern) ps
  | Property _ _ k v =>
      (NodeType_eqb parent TObjectExpression
       || NodeType_eqb parent TObjectPattern)
      && well_formed TProperty k && well_formed TProperty v
  | SpreadElement _ a => well_formed TSpreadElement a
  | ExperimentalSpreadProperty _ a =>
      well_formed TExperimentalSpreadProperty a
  | Identifier _ _ | Literal _ _ => true
  | Other _ cs => forallb (well_formed TOther) cs
  end.

End ESTree.

(** ** What the rule requires

  [require("../util/ast-utils")] and [require("natural-compare")]: both are
  used through one function each. *)

Class Requirements := {
  getStaticPropertyName : ESTree.PropertyNode -> option string;
  naturalCompare : string -> string -> Z
}.

(** ** Helpers of the rule *)

Section Helpers.

Context {R : Requirements}.

Definition getPropertyName (node : ESTree.PropertyNode) : option string :=
  let staticName := getStaticPropertyName node in
  match staticName with
  | Some s => Some s
  | None => JsString.or_null (ESTree.key_name (ESTree.key node))
  end.

Definition asc (a b : string) : bool := JsString.le a b.

Definition ascI (a b : string) : bool :=
  JsString.le (JsString.toLowerCase a) (JsString.toLowerCase b).

Definition ascN (a b : string) : bool := naturalCompare a b <=? 0.

Definition ascIN (a b : string) : bool :=
  naturalCompare (JsString.toLowerCase a) (JsString.toLowerCase b) <=? 0.

Definition desc (a b : string) : bool := asc b a.

Definition descI (a b : string) : bool := ascI b a.

Definition descN (a b : string) : bool := ascN b a.

Definition descIN (a b : string) : bool := ascIN b a.

(** The object [isValidOrders], keyed by name. *)
Definition isValidOrders : list (string * (string -> string -> bool)) :=
  [ ("asc", asc); ("ascI", ascI); ("ascN", ascN); ("ascIN", ascIN);
    ("desc", desc); ("descI", descI); ("descN", descN);
    ("descIN", descIN) ].

Fixpoint lookup {A : Type} (k : string) (tbl : list (string * A))
    : option A :=
  match tbl with
  | [] => None
  | (k', v) :: rest => if String.eqb k k' then Some v else lookup k rest
  end.

End Helpers.

(** ** The host's source-code object *)

Module SourceCode.

Inductive TokenType :=
| Punctuator | Keyword | Name | Numeric | Str | Template | RegularExpression
| Line | Block | Shebang.

Record Token := {
  tok_type : TokenType;
  tok_range : nat * nat;
  tok_loc : ESTree.SourceLocation
}.

(** The text and the tokens and comments of the file, in source order. *)
Record t := { text : string; tokensAndComments : list Token }.

Definition isCommentToken (tok : Token) : bool :=
  match tok_type tok with
  | Line | Block | Shebang => true
  | _ => false
  end.

(** [sourceCode.getText(nodeOrToken)], by its range. *)
Definition getText (sc : t) (r : nat * nat) : string :=
  JsString.slice (text sc) (fst r) (snd r).

(** [sourceCode.getTokensBetween(left, right, { includeComments: true })]:
    the tokens and comments that start at or after the end of [left] and end
    at or before the start of [right]. *)
Definition getTokensBetween (sc : t) (left right : nat * nat) : list Token :=
  filter (fun tok =>
            (snd left <=? fst (tok_range tok))%nat
            && (snd (tok_range tok) <=? fst right)%nat)
         (tokensAndComments sc).

Fixpoint takeWhile {A : Type} (p : A -> bool) (l : list A) : list A :=
  match l with
  | [] => []
  | x :: l' => if p x then x :: takeWhile p l' else []
  end.

(** [sourceCode.getCommentsBefore(nodeOrToken)]: walking back from the start
    of the node, the comments met before the first token that is not one,
    returned in source order. *)
Definition getCommentsBefore (sc : t) (r : nat * nat) : list Token :=
  rev (takeWhile isCommentToken
         (rev (filter (fun tok => (snd (tok_range tok) <=? fst r)%nat)
                      (tokensAndComments sc)))).

End SourceCode.

(** ** The host's fixer, and how it merges and applies the fixes of a report *)

Module Fixer.

Record Fix := { fix_range : nat * nat; fix_text : string }.

Definition insertTextBefore (r : nat * nat) (text : string) : Fix :=
  {| fix_range := (fst r, fst r); fix_text := text |}.

Definition remove (r : nat * nat) : Fix :=
  {| fix_range := r; fix_text := "" |}.

Definition replaceText (r : nat * nat) (text : string) : Fix :=
  {| fix_range := r; fix_text := text |}.

(** [a.range[0] - b.range[0] || a.range[1] - b.range[1]] is not positive. *)
Definition fix_le (a b : Fix) : bool :=
  let '(a0, a1) := fix_range a in
  let '(b0, b1) := fix_range b in
  if (a0 =? b0)%nat then (a1 <=? b1)%nat else (a0 <? b0)%nat.

Fixpoint insert_sorted (f : Fix) (l : list Fix) : list Fix :=
  match l with
  | [] => [f]
  | g :: l' => if fix_le g f then g :: insert_sorted f l' else f :: g :: l'
  end.

(** [fixes.sort(compareFixesByRange)]: a stable sort. *)
Definition sort_fixes (l : list Fix) : list Fix :=
  fold_left (fun acc f => insert_sorted f acc) l [].

(** The loop of [mergeFixes]: [lastPos] is [None] for minus infinity; an
    overlap fails the host's assertion. *)
Fixpoint merge_loop (originalText : string) (start : nat)
    (lastPos : option nat) (text : string) (fixes : list Fix)
    : option string :=
  match fixes with
  | [] => Some text
  | f :: rest =>
      let '(f0, f1) := fix_range f in
      let from := match lastPos with
                  | Some p => Nat.max start p
                  | None => start
                  end in
      if match lastPos with Some p => (p <=? f0)%nat | None => true end
      then merge_loop originalText start (Some f1)
             (text ++ JsString.slice originalText from f0 ++ fix_text f)%string
             rest
      else None
  end.

(** [mergeFixes(fixes, sourceCode)]: no fix for an empty list (the inner
    [None]), the fix itself when alone, else one fix over the whole span. *)
Definition mergeFixes (originalText : string) (fixes : list Fix)
    : option (option Fix) :=
  match fixes with
  | [] => Some None
  | [f] => Some (Some f)
  | _ =>
      let sorted := sort_fixes fixes in
      let start := match sorted with
                   | f :: _ => fst (fix_range f)
                   | [] => 0%nat
                   end in
      let end_ := snd (fix_range (last sorted {| fix_range := (0, 0)%nat;
                                                 fix_text := "" |})) in
      match merge_loop originalText start None "" sorted with
      | Some text => Some (Some {| fix_range := (start, end_);
                                   fix_text := text |})
      | None => None
      end
  end.

(** Applying one fix to the text. *)
Definition applyFix (text : string) (f : Fix) : string :=
  (JsString.slice text 0 (fst (fix_range f))
   ++ fix_text f
   ++ JsString.slice text (snd (fix_range f)) (String.length text))%string.

(** The Edit of one report applied to the source text. *)
Definition applyEdit (text : string) (fixes : list Fix) : option string :=
  match mergeFixes text fixes with
  | Some (Some f) => Some (applyFix text f)
  | Some None => Some text
  | None => None
  end.

End Fixer.

(** ** The host's message interpolation *)

Module Message.

Inductive scan := InText | Open1 | InKey (k : string) | Close1 (k : string).

Definition flush (st : scan) : string :=
  match st with
  | InText => ""
  | Open1 => "{"
  | InKey k => "{{" ++ k
  | Close1 k => "{{" ++ k ++ "}"
  end.

Fixpoint find (k : string) (data : list (string * string)) : option string :=
  match data with
  | [] => None
  | (k', v) :: rest => if String.eqb k k' then Some v else find k rest
  end.

Definition one (c : ascii) : string := String c "".

(** Replaces each [{{key}}] by [data[key]], and leaves a placeholder whose
    key is not in [data] as it is. *)
Fixpoint go (data : list (string * string)) (st : scan) (s : string)
    : string :=
  match s with
  | EmptyString => flush st
  | String c s' =>
      let open := Ascii.eqb c "{" in
      let close := Ascii.eqb c "}" in
      match st with
      | InText =>
          if open then go data Open1 s' else one c ++ go data InText s'
      | Open1 =>
          if open then go data (InKey "") s'
          else "{" ++ one c ++ go data InText s'
      | InKey k =>
          if close then go data (Close1 k) s'
          else if open then "{{" ++ k ++ go data Open1 s'
          else go data (InKey (k ++ one c)) s'
      | Close1 k =>
          if close then
            match (if String.eqb k "" then None else find k data) with
            | Some v => v ++ go data InText s'
            | None => "{{" ++ k ++ "}}" ++ go data InText s'
            end
          else if open then "{{" ++ k ++ "}" ++ go data Open1 s'
          else "{{" ++ k ++ "}" ++ one c ++ go data InText s'
      end
  end%string.

Definition interpolate (text : string) (data : list (string * string))
    : string :=
  go data InText text.

End Message.

(** ** The rule *)

Module Rule.

Import ESTree.

(** [context.options[1]]: each key may be absent. *)
Record Options := {
  caseSensitive : option bool;
  natural : option bool;
  allowLineSeparatedGroups : option bool
}.

(** [context.options]: both positions may be absent. *)
Record ContextOptions := {
  options0 : option string;
  options1 : option Options
}.

(** [context]: the options and the source-code object. *)
Record Context := {
  options : ContextOptions;
  sourceCode : SourceCode.t
}.

(** A flag that may not have been assigned yet. *)
Inductive JsFlag := Undefined | Flag (b : bool).

Definition truthy (f : JsFlag) : bool :=
  match f with
  | Undefined => false
  | Flag b => b
  end.

(** One frame of [stack]; the field [upper] is the rest of the list. *)
Record Frame := {
  prevName : option string;
  prevNode : option PropertyNode;
  prevBlankLine : JsFlag
}.

(** What [context.report] receives: the node, [loc], the message and its
    data, and the two nodes the [fix] closure has captured. *)
Record Report := {
  r_node : PropertyNode;
  r_loc : SourceLocation;
  r_message : string;
  r_data : list (string * string);
  r_prevNode : option PropertyNode
}.

(** [stack] ([[]] is [null]) and the reports made so far. *)
Record State := { stack : list Frame; reports : list Report }.

Definition is_null {A : Type} (x : option A) : bool :=
  match x with
  | None => true
  | Some _ => false
  end.

(** [x || y] on node references: a node is truthy. *)
Definition or_node (x y : option PropertyNode) : option PropertyNode :=
  match x with
  | Some n => Some n
  | None => y
  end.

Definition line_gap (later earlier : Position) : bool :=
  line later - line earlier >? 1.

(** The [tokens.forEach] of the listener: [previousToken] is [tokens[index -
    1]], absent at index 0. *)
Fixpoint forEach_tokens (previousToken : option SourceCode.Token)
    (tokens : list SourceCode.Token) (isBlankLineBetweenNodes : JsFlag)
    : JsFlag :=
  match tokens with
  | [] => isBlankLineBetweenNodes
  | token :: rest =>
      forEach_tokens (Some token) rest
        (match previousToken with
         | Some previous =>
             if line_gap (start (SourceCode.tok_loc token))
                         (end_ (SourceCode.tok_loc previous))
             then Flag true else isBlankLineBetweenNodes
         | None => isBlankLineBetweenNodes
         end)
  end.

Definition newline : string := String (ascii_of_nat 10) "".

Definition message_template : string :=
  "Expected object keys to be in {{natual}}{{insensitive}}{{order}}ending order. '{{thisName}}' should be before '{{prevName}}'.".

Section Create.

Context {R : Requirements}.
Variable context : Context.

(** Parse options. *)
Definition order : string :=
  match JsString.or_null (options0 (options context)) with
  | Some o => o
  | None => "asc"
  end.

Definition insensitive : bool :=
  match options1 (options context) with
  | Some o => match caseSensitive o with Some false => true | _ => false end
  | None => false
  end.

Definition natual : bool :=
  match options1 (options context) with
  | Some o => match natural o with Some b => b | None => false end
  | None => false
  end.

(** The constant [allowLineSeparatedGroups]. *)
Definition allowLineSeparatedGroups_on : bool :=
  match options1 (options context) with
  | Some o =>
      match allowLineSeparatedGroups o with Some b => b | None => false end
  | None => false
  end.

Definition isValidOrder : option (string -> string -> bool) :=
  lookup (order ++ (if insensitive then "I" else "")
                ++ (if natual then "N" else ""))%string
         isValidOrders.

Definition SpreadElement (parent : NodeType) (st : State) : option State :=
  if NodeType_eqb parent TObjectExpression then
    match stack st with
    | [] => None
    | top :: upper =>
        Some {| stack := {| prevName := None;
                            prevNode := prevNode top;
                            prevBlankLine := prevBlankLine top |} :: upper;
                reports := reports st |}
    end
  else Some st.

Definition ObjectExpression (st : State) : option State :=
  Some {| stack := {| prevName := None;
                      prevNode := None;
                      prevBlankLine := Undefined |} :: stack st;
          reports := reports st |}.

Definition ObjectExpression_exit (st : State) : option State :=
  match stack st with
  | [] => None
  | _ :: upper => Some {| stack := upper; reports := reports st |}
  end.

(** The part of [Property] between reading the frame and writing it back:
    the value of [isBlankLineBetweenNodes] once the three checks have run.
    Reading [tokens[tokens.length - 1]] or [tokens[0]] of an empty array and
    then its [loc] throws. *)
Definition blankLineBetweenNodes (top : Frame) (node : PropertyNode)
    : option JsFlag :=
  let isBlankLineBetweenNodes := prevBlankLine top in
  match prevNode top with
  | None => Some isBlankLineBetweenNodes
  | Some prev =>
      let tokens :=
        SourceCode.getTokensBetween (sourceCode context)
          (prop_range prev) (prop_range node) in
      let isBlankLineBetweenNodes :=
        forEach_tokens None tokens isBlankLineBetweenNodes in
      match
        (if negb (truthy isBlankLineBetweenNodes) then
           match last (map Some tokens) None with
           | None => None
           | Some lastToken =>
               Some (if line_gap (start (prop_loc node))
                                 (end_ (SourceCode.tok_loc lastToken))
                     then Flag true else isBlankLineBetweenNodes)
           end
         else Some isBlankLineBetweenNodes)
      with
      | None => None
      | Some isBlankLineBetweenNodes =>
          if negb (truthy isBlankLineBetweenNodes) then
            match tokens with
            | [] => None
            | firstToken :: _ =>
                Some (if line_gap (start (SourceCode.tok_loc firstToken))
                                  (end_ (prop_loc prev))
                      then Flag true else isBlankLineBetweenNodes)
            end
          else Some isBlankLineBetweenNodes
      end
  end.

(** The descriptor handed to [context.report]. *)
Definition report (node : PropertyNode) (prevNode : option PropertyNode)
    (thisName prevName : string) : Report :=
  {| r_node := node;
     r_loc := key_loc (key node);
     r_message := message_template;
     r_data := [ ("thisName", thisName); ("prevName", prevName);
                 ("order", order);
                 ("insensitive", if insensitive then "insensitive " else "");
                 ("natual", if natual then "natural " else "") ];
     r_prevNode := prevNode |}.

Definition Property (node : PropertyNode) (st : State) : option State :=
  if NodeType_eqb (parent_type node) TObjectPattern then Some st
  else
    match stack st with
    | [] => None
    | top :: upper =>
        let prevName_ := prevName top in
        let prevNode_ := prevNode top in
        let thisName := getPropertyName node in
        match blankLineBetweenNodes top node with
        | None => None
        | Some isBlankLineBetweenNodes =>
            let top :=
              {| prevName := prevName top;
                 prevNode := Some node;
                 prevBlankLine := prevBlankLine top |} in
            let top :=
              if negb (is_null thisName) then
                {| prevName := thisName;
                   prevNode := or_node (Some node) prevNode_;
                   prevBlankLine := prevBlankLine top |}
              else top in
            match prevName_, thisName with
            | Some prevName_s, Some thisName_s =>
                if allowLineSeparatedGroups_on
                   && truthy isBlankLineBetweenNodes
                then
                  Some {| stack :=
                            {| prevName := prevName top;
                               prevNode := prevNode top;
                               prevBlankLine := Flag (is_null thisName) |}
                            :: upper;
                          reports := reports st |}
                else
                  match isValidOrder with
                  | None => None
                  | Some valid =>
                      if negb (valid prevName_s thisName_s) then
                        Some {| stack := top :: upper;
                                reports :=
                                  reports st
                                  ++ [report node prevNode_
                                        thisName_s prevName_s] |}
                      else Some {| stack := top :: upper;
                                   reports := reports st |}
                  end
            | _, _ => Some {| stack := top :: upper; reports := reports st |}
            end
        end
    end.

(** [moveProperty(fromNode, toNode)]: appends to [fixes]. *)
Definition moveProperty (fromNode toNode : PropertyNode)
    (fixes : list Fixer.Fix) : list Fixer.Fix :=
  let sourceCode := sourceCode context in
  let prevText := SourceCode.getText sourceCode (prop_range fromNode) in
  let thisComments :=
    SourceCode.getCommentsBefore sourceCode (prop_range fromNode) in
  let fixes :=
    fold_left
      (fun fixes thisComment =>
         fixes
         ++ [ Fixer.insertTextBefore (prop_range toNode)
                (SourceCode.getText sourceCode
                   (SourceCode.tok_range thisComment) ++ newline)%string;
              Fixer.remove (SourceCode.tok_range thisComment) ])
      thisComments fixes in
  fixes ++ [Fixer.replaceText (prop_range toNode) prevText].

(** The [fix] closure of a report, with the two nodes it has captured; a
    [prevNode] that is [null] throws. *)
Definition fix_ (node : PropertyNode) (prevNode : option PropertyNode)
    : option (list Fixer.Fix) :=
  match prevNode with
  | None => None
  | Some prevNode =>
      Some (moveProperty prevNode node (moveProperty node prevNode []))
  end.

(** The listeners [create] returns, by the name each is registered under. *)
Inductive Event :=
| On_ExperimentalSpreadProperty (parent : NodeType)
| On_ObjectExpression
| On_ObjectExpression_exit
| On_SpreadElement (parent : NodeType)
| On_Property (node : PropertyNode).

Definition create (e : Event) : State -> option State :=
  match e with
  | On_ExperimentalSpreadProperty parent => SpreadElement parent
  | On_ObjectExpression => ObjectExpression
  | On_ObjectExpression_exit => ObjectExpression_exit
  | On_SpreadElement parent => SpreadElement parent
  | On_Property node => Property node
  end.

(** The host calls the listeners in the order of its queue and stops at the
    first one that throws. *)
Fixpoint run (queue : list Event) (st : State) : option State :=
  match queue with
  | [] => Some st
  | e :: rest =>
      match create e st with
      | Some st' => run rest st'
      | None => None
      end
  end.

(** The states a traversal can be in: from [stack = null] and no report, by
    any sequence of listener calls that do not throw. *)
Inductive reachable : State -> Prop :=
| reachable_initial : reachable {| stack := []; reports := [] |}
| reachable_step e st st' :
    reachable st -> create e st = Some st' -> reachable st'.

End Create.

(** Two tokens or comments next to each other in the list, the second
    starting more than one line after the end of the first. *)
Definition adjacent_gap (tokens : list SourceCode.Token) : Prop :=
  exists i t u,
    nth_error tokens i = Some t /\ nth_error tokens (S i) = Some u
    /\ line (start (SourceCode.tok_loc u))
       - line (end_ (SourceCode.tok_loc t)) > 1.

(** A qualifying blank line between two entries, in the words of the
    specification: two adjacent tokens or comments between them more than one
    line break apart, or the current entry that far after the last of them, or
    the first of them that far after the previous entry. *)
Definition qualifying_blank_line (prev node : PropertyNode)
    (tokens : list SourceCode.Token) : Prop :=
  adjacent_gap tokens
  \/ (exists t,
         last (map Some tokens) None = Some t
         /\ line (start (prop_loc node))
            - line (end_ (SourceCode.tok_loc t)) > 1)
  \/ (exists t,
         hd_error tokens = Some t
         /\ line (start (SourceCode.tok_loc t))
            - line (end_ (prop_loc prev)) > 1).

(** A node whose listener writes to the current frame. *)
Definition frame_entry (parent : NodeType) (n : node) : bool :=
  match n with
  | ESTree.Property _ _ _ _ => negb (NodeType_eqb parent TObjectPattern)
  | ESTree.SpreadElement _ _ | ESTree.ExperimentalSpreadProperty _ _ =>
      NodeType_eqb parent TObjectExpression
  | _ => false
  end.

(** Two stacks that differ at most in their current frame. *)
Definition same_upper (s s' : list Frame) : Prop :=
  s' = s \/ exists top top' upper, s = top :: upper /\ s' = top' :: upper.

(** What holds of every frame of a traversal: the carried flag is not true,
    and a previous name comes with a previous node that has this name or
    none. *)
Definition frame_ok {R : Requirements} (fr : Frame) : Prop :=
  truthy (prevBlankLine fr) = false
  /\ forall p, prevName fr = Some p ->
       exists n, prevNode fr = Some n
                 /\ (getPropertyName n = None \/ getPropertyName n = Some p).

(** The names of the entries of an object literal, in source order. *)
Definition entry_names {R : Requirements} (n : node) : list (option string) :=
  match n with
  | ESTree.ObjectExpression _ ps =>
      flat_map (fun p =>
                  match p with
                  | ESTree.Property m computed k _ =>
                      [getPropertyName
                         (property_of TObjectExpression m computed k)]
                  | _ => []
                  end) ps
  | _ => []
  end.

(** No option given: ascending, case-sensitive, not natural, no groups. *)
Definition default_context (sc : SourceCode.t) : Context :=
  {| options := {| options0 := None; options1 := None |};
     sourceCode := sc |}.

(** The host's queue for a tree: depth first, a node before its children,
    the exit of an object literal after its properties. *)
Fixpoint events (parent : NodeType) (n : node) : list Event :=
  match n with
  | ESTree.ObjectExpression _ ps =>
      On_ObjectExpression
      :: flat_map (events TObjectExpression) ps ++ [On_ObjectExpression_exit]
  | ESTree.ObjectPattern _ ps => flat_map (events TObjectPattern) ps
  | ESTree.Property m computed k v =>
      On_Property (property_of parent m computed k)
      :: events TProperty k ++ events TProperty v
  | ESTree.SpreadElement _ a =>
      On_SpreadElement parent :: events TSpreadElement a
  | ESTree.ExperimentalSpreadProperty _ a =>
      On_ExperimentalSpreadProperty parent
      :: events TExperimentalSpreadProperty a
  | ESTree.Identifier _ _ | ESTree.Literal _ _ => []
  | ESTree.Other _ cs => flat_map (events TOther) cs
  end.

(** [stack = null] and no report yet. *)
Definition initial : State := {| stack := []; reports := [] |}.

(** The listeners called for a well-formed subtree leave the stack as it
    was, up to the current frame when the subtree is an entry of the literal
    being visited. *)
Definition keeps_upper {R : Requirements} (context : Context) (n : node)
    : Prop :=
  forall parent st st',
    well_formed parent n = true ->
    run context (events parent n) st = Some st' ->
    same_upper (stack st) (stack st')
    /\ (frame_entry parent n = false -> stack st' = stack st).

(** One pass of the rule over a program: the reports, or [None] when a
    listener throws. *)
Definition lint {R : Requirements} (context : Context) (program : node)
    : option (list Report) :=
  match run context (events TOther program) initial with
  | Some st => Some (reports st)
  | None => None
  end.

(** The message of a report as the host formats it. *)
Definition formatted (r : Report) : string :=
  Message.interpolate (r_message r) (r_data r).

(** The Edit of a report applied to the text of the file. *)
Definition applied {R : Requirements} (context : Context) (r : Report)
    : option string :=
  match fix_ context (r_node r) (r_prevNode r) with
  | Some fixes => Fixer.applyEdit (SourceCode.text (sourceCode context)) fixes
  | None => None
  end.

End Rule.

(** ** The two required modules, from what the specification says of them *)

Module Spec.

(** Modelled from the spec: [astUtils.getStaticPropertyName], of
    [lib/util/ast-utils.js], which is not among the sources.  "A statically
    known name (plain identifier, string/numeric literal ...)": the name of a
    key written as a plain identifier, the value of a literal key; no name
    for any other key. *)
Definition getStaticPropertyName (node : ESTree.PropertyNode)
    : option string :=
  let k := ESTree.key node in
  match ESTree.key_type k with
  | ESTree.TIdentifier =>
      if ESTree.prop_computed node then None else ESTree.key_name k
  | ESTree.TLiteral => ESTree.key_value k
  | _ => None
  end.

Inductive chunk := Num (n : N) | Chr (c : ascii).

Definition is_digit (c : ascii) : bool :=
  let n := N_of_ascii c in ((48 <=? n) && (n <=? 57))%N.

Definition flush (acc : option N) : list chunk :=
  match acc with
  | Some n => [Num n]
  | None => []
  end.

(** A string cut into its numeric runs and its other characters. *)
Fixpoint chunks (acc : option N) (s : string) : list chunk :=
  match s with
  | EmptyString => flush acc
  | String c s' =>
      if is_digit c then
        chunks (Some (10 * match acc with Some n => n | None => 0 end
                      + (N_of_ascii c - 48))%N) s'
      else flush acc ++ Chr c :: chunks None s'
  end.

Definition sign (c : comparison) : Z :=
  match c with
  | Lt => -1
  | Eq => 0
  | Gt => 1
  end.

Fixpoint compare_chunks (a b : list chunk) : comparison :=
  match a, b with
  | [], [] => Eq
  | [], _ :: _ => Lt
  | _ :: _, [] => Gt
  | x :: a', y :: b' =>
      let c := match x, y with
               | Num n, Num m => N.compare n m
               | Chr c, Chr d => N.compare (N_of_ascii c) (N_of_ascii d)
               | Num _, Chr d => if (N_of_ascii d <? 48)%N then Gt else Lt
               | Chr c, Num _ => if (N_of_ascii c <? 48)%N then Lt else Gt
               end in
      match c with
      | Eq => compare_chunks a' b'
      | _ => c
      end
  end.

(** Modelled from the spec: [naturalCompare], of the package
    [natural-compare], which is not among the sources.  "String ordering that
    treats embedded numeric runs by numeric value rather than
    character-by-character": negative, zero or positive as [a] comes before,
    with or after [b]. *)
Definition naturalCompare (a b : string) : Z :=
  sign (compare_chunks (chunks None a) (chunks None b)).

End Spec.

#[global] Instance spec_requirements : Requirements :=
  {| getStaticPropertyName := Spec.getStaticPropertyName;
     naturalCompare := Spec.naturalCompare |}.

(** ** Programs used below, as the host's parser hands them over *)

Module Examples.

Import ESTree.

(** Line (from 1) and column (from 0) of an offset of the text. *)
Fixpoint locate (s : string) (offset : nat) (l c : Z) : Position :=
  match offset, s with
  | S k, String ch s' =>
      if Ascii.eqb ch (ascii_of_nat 10) then locate s' k (l + 1) 0
      else locate s' k l (c + 1)
  | _, _ => {| line := l; column := c |}
  end.

Definition at_ (text : string) (a b : nat) : Meta :=
  {| range := (a, b);
     loc := {| start := locate text a 1 0; end_ := locate text b 1 0 |} |}.

Definition tk (text : string) (ty : SourceCode.TokenType) (a b : nat)
    : SourceCode.Token :=
  {| SourceCode.tok_type := ty;
     SourceCode.tok_range := (a, b);
     SourceCode.tok_loc := loc (at_ text a b) |}.

Definition punctuators (text : string) (l : list (nat * nat))
    : list SourceCode.Token :=
  map (fun r => tk text SourceCode.Punctuator (fst r) (snd r)) l.

Definition file (text : string) (tokens : list SourceCode.Token)
    : SourceCode.t :=
  {| SourceCode.text := text; SourceCode.tokensAndComments := tokens |}.

(** A program whose only statement is the expression [e]. *)
Definition program (text : string) (e : node) : node :=
  Other (at_ text 0 (String.length text))
        [Other (at_ text 0 (String.length text)) [e]].

Definition defaults : Rule.ContextOptions :=
  {| Rule.options0 := Some "asc"; Rule.options1 := None |}.

Definition grouped : Rule.ContextOptions :=
  {| Rule.options0 := None;
     Rule.options1 :=
       Some {| Rule.caseSensitive := None;
               Rule.natural := None;
               Rule.allowLineSeparatedGroups := Some true |} |}.

Definition ctx (o : Rule.ContextOptions) (sc : SourceCode.t) : Rule.Context :=
  {| Rule.options := o; Rule.sourceCode := sc |}.

(** [{b: 1, a: 2}] *)
Definition text_ba : string := "{b: 1, a: 2}".

Definition file_ba : SourceCode.t :=
  file text_ba
    [ tk text_ba SourceCode.Punctuator 0 1; tk text_ba SourceCode.Name 1 2;
      tk text_ba SourceCode.Punctuator 2 3; tk text_ba SourceCode.Numeric 4 5;
      tk text_ba SourceCode.Punctuator 5 6; tk text_ba SourceCode.Name 7 8;
      tk text_ba SourceCode.Punctuator 8 9;
      tk text_ba SourceCode.Numeric 10 11;
      tk text_ba SourceCode.Punctuator 11 12 ].

Definition key_b_ba : node := Identifier (at_ text_ba 1 2) "b".

Definition key_a_ba : node := Identifier (at_ text_ba 7 8) "a".

Definition value_b_ba : node := Literal (at_ text_ba 4 5) "1".

Definition tree_ba : node :=
  program text_ba
    (ObjectExpression (at_ text_ba 0 12)
       [ Property (at_ text_ba 1 5) false key_b_ba value_b_ba;
         Property (at_ text_ba 7 11) false
           key_a_ba (Literal (at_ text_ba 10 11) "2") ]).

(** The two entries as the [Property] listener receives them. *)
Definition prop_b_ba : PropertyNode :=
  property_of TObjectExpression (at_ text_ba 1 5) false key_b_ba.

Definition prop_a_ba : PropertyNode :=
  property_of TObjectExpression (at_ text_ba 7 11) false key_a_ba.

(** The state on entering the literal, and the state once [b: 1] has been
    visited. *)
Definition state_in_literal : Rule.State :=
  {| Rule.stack := [ {| Rule.prevName := None;
                        Rule.prevNode := None;
                        Rule.prevBlankLine := Rule.Undefined |} ];
     Rule.reports := [] |}.

Definition state_after_b_ba : Rule.State :=
  {| Rule.stack := [ {| Rule.prevName := Some "b";
                        Rule.prevNode := Some prop_b_ba;
                        Rule.prevBlankLine := Rule.Undefined |} ];
     Rule.reports := [] |}.

(** [{ b: 1, a: 2 }] *)
Definition text_ba_flat : string := "{ b: 1, a: 2 }".

Definition file_ba_flat : SourceCode.t :=
  file text_ba_flat
    [ tk text_ba_flat SourceCode.Punctuator 0 1;
      tk text_ba_flat SourceCode.Name 2 3;
      tk text_ba_flat SourceCode.Punctuator 3 4;
      tk text_ba_flat SourceCode.Numeric 5 6;
      tk text_ba_flat SourceCode.Punctuator 6 7;
      tk text_ba_flat SourceCode.Name 8 9;
      tk text_ba_flat SourceCode.Punctuator 9 10;
      tk text_ba_flat SourceCode.Numeric 11 12;
      tk text_ba_flat SourceCode.Punctuator 13 14 ].

Definition tree_ba_flat : node :=
  program text_ba_flat
    (ObjectExpression (at_ text_ba_flat 0 14)
       [ Property (at_ text_ba_flat 2 6) false
           (Identifier (at_ text_ba_flat 2 3) "b")
           (Literal (at_ text_ba_flat 5 6) "1");
         Property (at_ text_ba_flat 8 12) false
           (Identifier (at_ text_ba_flat 8 9) "a")
           (Literal (at_ text_ba_flat 11 12) "2") ]).

(** The same entries with one blank line between them: [{ b: 1,], an empty
    line, [ a: 2 }]. *)
Definition text_ba_blank : string :=
  "{ b: 1," ++ Rule.newline ++ Rule.newline ++ " a: 2 }".

Definition file_ba_blank : SourceCode.t :=
  file text_ba_blank
    [ tk text_ba_blank SourceCode.Punctuator 0 1;
      tk text_ba_blank SourceCode.Name 2 3;
      tk text_ba_blank SourceCode.Punctuator 3 4;
      tk text_ba_blank SourceCode.Numeric 5 6;
      tk text_ba_blank SourceCode.Punctuator 6 7;
      tk text_ba_blank SourceCode.Name 10 11;
      tk text_ba_blank SourceCode.Punctuator 11 12;
      tk text_ba_blank SourceCode.Numeric 13 14;
      tk text_ba_blank SourceCode.Punctuator 15 16 ].

Definition key_b_blank : node := Identifier (at_ text_ba_blank 2 3) "b".

Definition key_a_blank : node := Identifier (at_ text_ba_blank 10 11) "a".

Definition value_b_blank : node := Literal (at_ text_ba_blank 5 6) "1".

Definition tree_ba_blank : node :=
  program text_ba_blank
    (ObjectExpression (at_ text_ba_blank 0 16)
       [ Property (at_ text_ba_blank 2 6) false key_b_blank value_b_blank;
         Property (at_ text_ba_blank 10 14) false
           key_a_blank (Literal (at_ text_ba_blank 13 14) "2") ]).

Definition prop_b_blank : PropertyNode :=
  property_of TObjectExpression (at_ text_ba_blank 2 6) false key_b_blank.

Definition prop_a_blank : PropertyNode :=
  property_of TObjectExpression (at_ text_ba_blank 10 14) false key_a_blank.

Definition state_after_b_blank : Rule.State :=
  {| Rule.stack := [ {| Rule.prevName := Some "b";
                        Rule.prevNode := Some prop_b_blank;
                        Rule.prevBlankLine := Rule.Undefined |} ];
     Rule.reports := [] |}.

(** [{...x, b: 1, a: 2}] *)
Definition text_spread_first : string := "{...x, b: 1, a: 2}".

Definition file_spread_first : SourceCode.t :=
  file text_spread_first
    [ tk text_spread_first SourceCode.Punctuator 0 1;
      tk text_spread_first SourceCode.Punctuator 1 4;
      tk text_spread_first SourceCode.Name 4 5;
      tk text_spread_first SourceCode.Punctuator 5 6;
      tk text_spread_first SourceCode.Name 7 8;
      tk text_spread_first SourceCode.Punctuator 8 9;
      tk text_spread_first SourceCode.Numeric 10 11;
      tk text_spread_first SourceCode.Punctuator 11 12;
      tk text_spread_first SourceCode.Name 13 14;
      tk text_spread_first SourceCode.Punctuator 14 15;
      tk text_spread_first SourceCode.Numeric 16 17;
      tk text_spread_first SourceCode.Punctuator 17 18 ].

Definition tree_spread_first : node :=
  program text_spread_first
    (ObjectExpression (at_ text_spread_first 0 18)
       [ SpreadElement (at_ text_spread_first 1 5)
           (Identifier (at_ text_spread_first 4 5) "x");
         Property (at_ text_spread_first 7 11) false
           (Identifier (at_ text_spread_first 7 8) "b")
           (Literal (at_ text_spread_first 10 11) "1");
         Property (at_ text_spread_first 13 17) false
           (Identifier (at_ text_spread_first 13 14) "a")
           (Literal (at_ text_spread_first 16 17) "2") ]).

(** [{b: 1, ...x, a: 2}] *)
Definition text_spread_between : string := "{b: 1, ...x, a: 2}".

Definition file_spread_between : SourceCode.t :=
  file text_spread_between
    [ tk text_spread_between SourceCode.Punctuator 0 1;
      tk text_spread_between SourceCode.Name 1 2;
      tk text_spread_between SourceCode.Punctuator 2 3;
      tk text_spread_between SourceCode.Numeric 4 5;
      tk text_spread_between SourceCode.Punctuator 5 6;
      tk text_spread_between SourceCode.Punctuator 7 10;
      tk text_spread_between SourceCode.Name 10 11;
      tk text_spread_between SourceCode.Punctuator 11 12;
      tk text_spread_between SourceCode.Name 13 14;
      tk text_spread_between SourceCode.Punctuator 14 15;
      tk text_spread_between SourceCode.Numeric 16 17;
      tk text_spread_between SourceCode.Punctuator 17 18 ].

Definition tree_spread_between : node :=
  program text_spread_between
    (ObjectExpression (at_ text_spread_between 0 18)
       [ Property (at_ text_spread_between 1 5) false
           (Identifier (at_ text_spread_between 1 2) "b")
           (Literal (at_ text_spread_between 4 5) "1");
         SpreadElement (at_ text_spread_between 7 11)
           (Identifier (at_ text_spread_between 10 11) "x");
         Property (at_ text_spread_between 13 17) false
           (Identifier (at_ text_spread_between 13 14) "a")
           (Literal (at_ text_spread_between 16 17) "2") ]).

(** [const {b, a} = obj;] *)
Definition text_destructuring : string := "const {b, a} = obj;".

Definition file_destructuring : SourceCode.t :=
  file text_destructuring
    [ tk text_destructuring SourceCode.Keyword 0 5;
      tk text_destructuring SourceCode.Punctuator 6 7;
      tk text_destructuring SourceCode.Name 7 8;
      tk text_destructuring SourceCode.Punctuator 8 9;
      tk text_destructuring SourceCode.Name 10 11;
      tk text_destructuring SourceCode.Punctuator 11 12;
      tk text_destructuring SourceCode.Punctuator 13 14;
      tk text_destructuring SourceCode.Name 15 18;
      tk text_destructuring SourceCode.Punctuator 18 19 ].

Definition tree_destructuring : node :=
  program text_destructuring
    (Other (at_ text_destructuring 6 18)
       [ ObjectPattern (at_ text_destructuring 6 12)
           [ Property (at_ text_destructuring 7 8) false
               (Identifier (at_ text_destructuring 7 8) "b")
               (Identifier (at_ text_destructuring 7 8) "b");
             Property (at_ text_destructuring 10 11) false
               (Identifier (at_ text_destructuring 10 11) "a")
               (Identifier (at_ text_destructuring 10 11) "a") ];
         Identifier (at_ text_destructuring 15 18) "obj" ]).

(** [{b: 1, [x()]: 2, a: 3}] *)
Definition text_computed : string := "{b: 1, [x()]: 2, a: 3}".

Definition file_computed : SourceCode.t :=
  file text_computed
    ([ tk text_computed SourceCode.Punctuator 0 1;
       tk text_computed SourceCode.Name 1 2;
       tk text_computed SourceCode.Punctuator 2 3;
       tk text_computed SourceCode.Numeric 4 5;
       tk text_computed SourceCode.Punctuator 5 6;
       tk text_computed SourceCode.Punctuator 7 8;
       tk text_computed SourceCode.Name 8 9 ]
     ++ punctuators text_computed
          [ (9, 10); (10, 11); (11, 12); (12, 13) ]%nat
     ++ [ tk text_computed SourceCode.Numeric 14 15;
          tk text_computed SourceCode.Punctuator 15 16;
          tk text_computed SourceCode.Name 17 18;
          tk text_computed SourceCode.Punctuator 18 19;
          tk text_computed SourceCode.Numeric 20 21;
          tk text_computed SourceCode.Punctuator 21 22 ]).

(** The entry [[x()]: 2], whose key is a call. *)
Definition entry_computed : node :=
  Property (at_ text_computed 7 15) true
    (Other (at_ text_computed 8 11) [Identifier (at_ text_computed 8 9) "x"])
    (Literal (at_ text_computed 14 15) "2").

Definition entry_a_computed : node :=
  Property (at_ text_computed 17 21) false
    (Identifier (at_ text_computed 17 18) "a")
    (Literal (at_ text_computed 20 21) "3").

Definition literal_computed : node :=
  ObjectExpression (at_ text_computed 0 22)
    [ Property (at_ text_computed 1 5) false
        (Identifier (at_ text_computed 1 2) "b")
        (Literal (at_ text_computed 4 5) "1");
      entry_computed;
      entry_a_computed ].

Definition tree_computed : node := program text_computed literal_computed.

(** A [Property] node of an object literal as its listener receives it. *)
Definition as_entry (n : node) : option PropertyNode :=
  match n with
  | Property m computed k _ =>
      Some (property_of TObjectExpression m computed k)
  | _ => None
  end.

(** [{b: 1, c: 2, a: 3}] *)
Definition text_bca : string := "{b: 1, c: 2, a: 3}".

Definition tokens_three (text : string) : list SourceCode.Token :=
  [ tk text SourceCode.Punctuator 0 1; tk text SourceCode.Name 1 2;
    tk text SourceCode.Punctuator 2 3; tk text SourceCode.Numeric 4 5;
    tk text SourceCode.Punctuator 5 6; tk text SourceCode.Name 7 8;
    tk text SourceCode.Punctuator 8 9; tk text SourceCode.Numeric 10 11;
    tk text SourceCode.Punctuator 11 12; tk text SourceCode.Name 13 14;
    tk text SourceCode.Punctuator 14 15; tk text SourceCode.Numeric 16 17;
    tk text SourceCode.Punctuator 17 18 ].

Definition file_bca : SourceCode.t := file text_bca (tokens_three text_bca).

Definition literal_three (text : string) (k1 v1 k2 v2 k3 v3 : string)
    : node :=
  ObjectExpression (at_ text 0 18)
    [ Property (at_ text 1 5) false
        (Identifier (at_ text 1 2) k1) (Literal (at_ text 4 5) v1);
      Property (at_ text 7 11) false
        (Identifier (at_ text 7 8) k2) (Literal (at_ text 10 11) v2);
      Property (at_ text 13 17) false
        (Identifier (at_ text 13 14) k3) (Literal (at_ text 16 17) v3) ].

Definition tree_bca : node :=
  program text_bca (literal_three text_bca "b" "1" "c" "2" "a" "3").

(** [{b: 1, a: 3, c: 2}], the text after the Edit of the pass over the
    program above. *)
Definition text_bac : string := "{b: 1, a: 3, c: 2}".

Definition file_bac : SourceCode.t := file text_bac (tokens_three text_bac).

Definition literal_bac : node :=
  literal_three text_bac "b" "1" "a" "3" "c" "2".

Definition tree_bac : node := program text_bac literal_bac.

End Examples.

(** ** One pass, seen from outside *)

Module Pass.

Import ESTree Rule.

(** The calls of the [Property] listener in a queue. *)
Fixpoint count_properties (queue : list Event) : nat :=
  match queue with
  | [] => 0%nat
  | On_Property _ :: rest => S (count_properties rest)
  | _ :: rest => count_properties rest
  end.

(** A subtree without any listener call when visited below an entry. *)
Definition quiet (n : node) : bool :=
  match events TProperty n with
  | [] => true
  | _ :: _ => false
  end.

(** An entry with a key and a value that are quiet. *)
Definition simple_entry (n : node) : bool :=
  match n with
  | ESTree.Property _ _ k v => quiet k && quiet v
  | _ => false
  end.

(** The entries of a literal as the [Property] listener receives them. *)
Definition listened (entries : list node) : list PropertyNode :=
  flat_map (fun n =>
              match n with
              | ESTree.Property m computed k _ =>
                  [property_of TObjectExpression m computed k]
              | _ => []
              end) entries.

Definition tokens_between (context : Context) (x y : PropertyNode)
    : list SourceCode.Token :=
  SourceCode.getTokensBetween (sourceCode context)
    (prop_range x) (prop_range y).

(** Two entries with at least one token or comment between them. *)
Definition separated (context : Context) (x y : PropertyNode) : Prop :=
  tokens_between context x y <> [].

(** Two named entries the rule lets pass one after the other: the comparator
    accepts their names, or line-separated groups are allowed and there is a
    qualifying blank line between them. *)
Definition in_order {R : Requirements} (context : Context)
    (valid : string -> string -> bool) (x y : PropertyNode) : Prop :=
  exists a b,
    getPropertyName x = Some a /\ getPropertyName y = Some b
    /\ (valid a b = true
        \/ (allowLineSeparatedGroups_on context = true
            /\ qualifying_blank_line x y (tokens_between context x y))).

(** A state put on top of other frames and after other reports. *)
Definition lift (base : list Frame) (before : list Report) (st : State)
    : State :=
  {| stack := stack st ++ base; reports := before ++ reports st |}.

(** A report as a traversal makes them: for a named node, with a previous
    node that has the previous name or none, and two names the comparator
    rejects. *)
Definition sound {R : Requirements} (context : Context) (r : Report)
    : Prop :=
  exists prev t p valid,
    r = report context (r_node r) (Some prev) t p
    /\ getPropertyName (r_node r) = Some t
    /\ (getPropertyName prev = Some p \/ getPropertyName prev = None)
    /\ isValidOrder context = Some valid
    /\ valid p t = false
    /\ NodeType_eqb (parent_type (r_node r)) TObjectPattern = false.

End Pass.

(** The entries of two of the programs above, as lists. *)

Module PassExamples.

Import ESTree.

Definition entries_blank : list node :=
  [ Property (Examples.at_ Examples.text_ba_blank 2 6) false
      Examples.key_b_blank Examples.value_b_blank;
    Property (Examples.at_ Examples.text_ba_blank 10 14) false
      Examples.key_a_blank
      (Literal (Examples.at_ Examples.text_ba_blank 13 14) "2") ].

Definition entries_bca : list node :=
  [ Property (Examples.at_ Examples.text_bca 1 5) false
      (Identifier (Examples.at_ Examples.text_bca 1 2) "b")
      (Literal (Examples.at_ Examples.text_bca 4 5) "1");
    Property (Examples.at_ Examples.text_bca 7 11) false
      (Identifier (Examples.at_ Examples.text_bca 7 8) "c")
      (Literal (Examples.at_ Examples.text_bca 10 11) "2");
    Property (Examples.at_ Examples.text_bca 13 17) false
      (Identifier (Examples.at_ Examples.text_bca 13 14) "a")
      (Literal (Examples.at_ Examples.text_bca 16 17) "3") ].

Definition listened_bca : list PropertyNode :=
  [ property_of TObjectExpression (Examples.at_ Examples.text_bca 1 5) false
      (Identifier (Examples.at_ Examples.text_bca 1 2) "b");
    property_of TObjectExpression (Examples.at_ Examples.text_bca 7 11) false
      (Identifier (Examples.at_ Examples.text_bca 7 8) "c");
    property_of TObjectExpression (Examples.at_ Examples.text_bca 13 17)
      false (Identifier (Examples.at_ Examples.text_bca 13 14) "a") ].

(** [{b: 1, /* x */ a: 2}] *)
Definition text_commented : string := "{b: 1, /* x */ a: 2}".

Definition comment_x : SourceCode.Token :=
  Examples.tk text_commented SourceCode.Block 7 14.

Definition file_commented : SourceCode.t :=
  Examples.file text_commented
    [ Examples.tk text_commented SourceCode.Punctuator 0 1;
      Examples.tk text_commented SourceCode.Name 1 2;
      Examples.tk text_commented SourceCode.Punctuator 2 3;
      Examples.tk text_commented SourceCode.Numeric 4 5;
      Examples.tk text_commented SourceCode.Punctuator 5 6;
      comment_x;
      Examples.tk text_commented SourceCode.Name 15 16;
      Examples.tk text_commented SourceCode.Punctuator 16 17;
      Examples.tk text_commented SourceCode.Numeric 18 19;
      Examples.tk text_commented SourceCode.Punctuator 19 20 ].

Definition prop_b_commented : PropertyNode :=
  property_of TObjectExpression (Examples.at_ text_commented 1 5) false
    (Identifier (Examples.at_ text_commented 1 2) "b").

Definition prop_a_commented : PropertyNode :=
  property_of TObjectExpression (Examples.at_ text_commented 15 19) false
    (Identifier (Examples.at_ text_commented 15 16) "a").

End PassExamples.

(** ** The text around two entries and their comments *)

Module Layout.

(** A stretch of text with comments in it: each pair is the text before a
    comment and the comment, [tail] is the text after the last comment. *)
Fixpoint weave (l : list (string * string)) (tail : string) : string :=
  match l with
  | [] => tail
  | (u, c) :: l' => (u ++ c ++ weave l' tail)%string
  end.

(** The stretch once its comments are taken out. *)
Fixpoint without (l : list (string * string)) (tail : string) : string :=
  match l with
  | [] => tail
  | (u, _) :: l' => (u ++ without l' tail)%string
  end.

(** The comments of the stretch, each followed by a line break. *)
Fixpoint carried (l : list (string * string)) : string :=
  match l with
  | [] => ""
  | (_, c) :: l' => (c ++ Rule.newline ++ carried l')%string
  end.

(** The range and the text of each comment of a stretch that starts at
    offset [off]. *)
Fixpoint marks (off : nat) (l : list (string * string))
    : list ((nat * nat) * string) :=
  match l with
  | [] => []
  | (u, c) :: l' =>
      (((off + String.length u)%nat,
        (off + String.length u + String.length c)%nat), c)
      :: marks (off + String.length u + String.length c) l'
  end.

(** No comment is empty. *)
Definition real (l : list (string * string)) : Prop :=
  Forall (fun uc => (0 < String.length (snd uc))%nat) l.

(** The text from [pos] on with each fix put in place of its range, for
    fixes in the order of the text. *)
Fixpoint splice (text : string) (pos : nat) (fixes : list Fixer.Fix)
    : string :=
  match fixes with
  | [] => JsString.slice text pos (String.length text)
  | f :: rest =>
      (JsString.slice text pos (fst (Fixer.fix_range f))
       ++ Fixer.fix_text f
       ++ splice text (snd (Fixer.fix_range f)) rest)%string
  end.

(** Fixes in the order of the text from [pos] on, none over another. *)
Fixpoint chain (pos : nat) (fixes : list Fixer.Fix) : Prop :=
  match fixes with
  | [] => True
  | f :: rest =>
      (pos <= fst (Fixer.fix_range f))%nat
      /\ (fst (Fixer.fix_range f) <= snd (Fixer.fix_range f))%nat
      /\ chain (snd (Fixer.fix_range f)) rest
  end.

(** Where the last of the fixes ends, or [pos] when there is none. *)
Definition endpos (pos : nat) (fixes : list Fixer.Fix) : nat :=
  match fixes with
  | [] => pos
  | _ :: _ =>
      snd (Fixer.fix_range
             (last fixes {| Fixer.fix_range := (0, 0)%nat;
                            Fixer.fix_text := "" |}))
  end.

(** The fixes [moveProperty] makes for the comments of one node: for each,
    its text and a line break inserted before the other node, and its
    removal. *)
Definition moves (target : nat * nat) (ms : list ((nat * nat) * string))
    : list Fixer.Fix :=
  flat_map (fun m =>
              [ Fixer.insertTextBefore target (snd m ++ Rule.newline)%string;
                Fixer.remove (fst m) ]) ms.

Definition inserts (target : nat * nat) (ms : list ((nat * nat) * string))
    : list Fixer.Fix :=
  map (fun m => Fixer.insertTextBefore target (snd m ++ Rule.newline)%string)
      ms.

Definition removals (ms : list ((nat * nat) * string)) : list Fixer.Fix :=
  map (fun m => Fixer.remove (fst m)) ms.

(** The first of the fixes starts at [pos]. *)
Definition starts (pos : nat) (fixes : list Fixer.Fix) : Prop :=
  match fixes with
  | [] => False
  | f :: _ => fst (Fixer.fix_range f) = pos
  end.

End Layout.

(** ** An entry without a name before a blank line *)

Module GroupExamples.

Import ESTree.

(** [{b: 1, [x()]: 2,], an empty line, [ a: 3}] *)
Definition text_computed_blank : string :=
  "{b: 1, [x()]: 2," ++ Rule.newline ++ Rule.newline ++ " a: 3}".

Definition file_computed_blank : SourceCode.t :=
  Examples.file text_computed_blank
    ([ Examples.tk text_computed_blank SourceCode.Punctuator 0 1;
       Examples.tk text_computed_blank SourceCode.Name 1 2;
       Examples.tk text_computed_blank SourceCode.Punctuator 2 3;
       Examples.tk text_computed_blank SourceCode.Numeric 4 5;
       Examples.tk text_computed_blank SourceCode.Punctuator 5 6;
       Examples.tk text_computed_blank SourceCode.Punctuator 7 8;
       Examples.tk text_computed_blank SourceCode.Name 8 9 ]
     ++ Examples.punctuators text_computed_blank
          [ (9, 10); (10, 11); (11, 12); (12, 13) ]%nat
     ++ [ Examples.tk text_computed_blank SourceCode.Numeric 14 15;
          Examples.tk text_computed_blank SourceCode.Punctuator 15 16;
          Examples.tk text_computed_blank SourceCode.Name 19 20;
          Examples.tk text_computed_blank SourceCode.Punctuator 20 21;
          Examples.tk text_computed_blank SourceCode.Numeric 22 23;
          Examples.tk text_computed_blank SourceCode.Punctuator 23 24 ]).

Definition key_computed_blank : node :=
  Other (Examples.at_ text_computed_blank 8 11)
        [Identifier (Examples.at_ text_computed_blank 8 9) "x"].

Definition value_computed_blank : node :=
  Literal (Examples.at_ text_computed_blank 14 15) "2".

(** The entry [[x()]: 2], whose key is a call. *)
Definition entry_computed_blank : node :=
  Property (Examples.at_ text_computed_blank 7 15) true
    key_computed_blank value_computed_blank.

Definition key_a_computed_blank : node :=
  Identifier (Examples.at_ text_computed_blank 19 20) "a".

Definition tree_computed_blank : node :=
  Examples.program text_computed_blank
    (ObjectExpression (Examples.at_ text_computed_blank 0 24)
       [ Property (Examples.at_ text_computed_blank 1 5) false
           (Identifier (Examples.at_ text_computed_blank 1 2) "b")
           (Literal (Examples.at_ text_computed_blank 4 5) "1");
         entry_computed_blank;
         Property (Examples.at_ text_computed_blank 19 23) false
           key_a_computed_blank
           (Literal (Examples.at_ text_computed_blank 22 23) "3") ]).

Definition prop_b_computed_blank : PropertyNode :=
  property_of TObjectExpression (Examples.at_ text_computed_blank 1 5) false
    (Identifier (Examples.at_ text_computed_blank 1 2) "b").

Definition prop_computed_blank : PropertyNode :=
  property_of TObjectExpression (Examples.at_ text_computed_blank 7 15) true
    key_computed_blank.

Definition prop_a_computed_blank : PropertyNode :=
  property_of TObjectExpression (Examples.at_ text_computed_blank 19 23)
    false key_a_computed_blank.

(** The states once [b: 1] and once [[x()]: 2] have been visited. *)
Definition state_after_b_computed_blank : Rule.State :=
  {| Rule.stack := [ {| Rule.prevName := Some "b";
                        Rule.prevNode := Some prop_b_computed_blank;
                        Rule.prevBlankLine := Rule.Undefined |} ];
     Rule.reports := [] |}.

Definition state_after_computed_blank : Rule.State :=
  {| Rule.stack := [ {| Rule.prevName := Some "b";
                        Rule.prevNode := Some prop_computed_blank;
                        Rule.prevBlankLine := Rule.Undefined |} ];
     Rule.reports := [] |}.

End GroupExamples.

(** * Properties *)

(** ** The comparators *)

Section ComparatorFacts.

Context {R : Requirements}.

Lemma asc_total (a b : string) : asc a b = false -> asc b a = true.
Proof.
  unfold asc, JsString.le, String.leb.
  rewrite (String.compare_antisym b a).
  destruct (String.compare a b); simpl; congruence.
Qed.

Lemma asc_false_neq (a b : string) : asc a b = false -> a <> b.
Proof.
  unfold asc, JsString.le, String.leb.
  intros H E. subst b.
  assert (Hc : String.compare a a = Eq).
  { clear H. induction a as [|c a IH]; simpl; [reflexivity|].
    unfold Ascii.compare. rewrite N.compare_refl. exact IH. }
  rewrite Hc in H. discriminate.
Qed.

Lemma lookup_isValidOrders (o : string) (i n : bool) :
  o = "asc" \/ o = "desc" ->
  exists f,
    lookup (o ++ (if i then "I" else "") ++ (if n then "N" else ""))%string
           isValidOrders = Some f.
Proof.
  intros [-> | ->]; destruct i, n; simpl; eexists; reflexivity.
Qed.

End ComparatorFacts.

(** C6: with the natural comparator, [item2] then [item10] is in ascending
    order and [item10] then [item2] is not; with the plain comparator it is
    the other way round.  The option [natural] selects the first, no option
    the second. *)
Theorem C6_natural_versus_lexicographic :
  @ascN spec_requirements "item2" "item10" = true
  /\ @ascN spec_requirements "item10" "item2" = false
  /\ asc "item10" "item2" = true
  /\ asc "item2" "item10" = false
  /\ (forall sc,
        Rule.isValidOrder
          {| Rule.options :=
               {| Rule.options0 := None;
                  Rule.options1 :=
                    Some {| Rule.caseSensitive := None;
                            Rule.natural := Some true;
                            Rule.allowLineSeparatedGroups := None |} |};
             Rule.sourceCode := sc |} = Some ascN)
  /\ (forall sc, Rule.isValidOrder (Rule.default_context sc) = Some asc).
Proof.
  repeat split; reflexivity.
Qed.

(** C7: the case-insensitive ascending comparator compares the lower-cased
    operands, so it accepts [a] then [B]; the case-sensitive one, which is
    the default, accepts [B] then [a] and rejects [a] then [B]. *)
Theorem C7_case_sensitivity (R : Requirements) :
  (forall a b,
      ascI a b = asc (JsString.toLowerCase a) (JsString.toLowerCase b))
  /\ JsString.toLowerCase "B" = "b"
  /\ ascI "a" "B" = true
  /\ asc "B" "a" = true
  /\ asc "a" "B" = false
  /\ (forall sc natural groups,
        Rule.isValidOrder
          {| Rule.options :=
               {| Rule.options0 := None;
                  Rule.options1 :=
                    Some {| Rule.caseSensitive := Some false;
                            Rule.natural := natural;
                            Rule.allowLineSeparatedGroups := groups |} |};
             Rule.sourceCode := sc |}
        = Some (if Rule.natual
                     {| Rule.options :=
                          {| Rule.options0 := None;
                             Rule.options1 :=
                               Some {| Rule.caseSensitive := Some false;
                                       Rule.natural := natural;
                                       Rule.allowLineSeparatedGroups :=
                                         groups |} |};
                        Rule.sourceCode := sc |}
                then ascIN else ascI))
  /\ (forall sc, Rule.isValidOrder (Rule.default_context sc) = Some asc).
Proof.
  repeat split; try reflexivity.
  intros sc [[|]|] groups; reflexivity.
Qed.

(** C8: whatever the case and natural modifiers, the descending comparator
    the rule selects answers on [(a, b)] what the ascending one it selects
    for the same modifiers answers on [(b, a)]. *)
Theorem C8_desc_is_asc_flipped (R : Requirements) (sc : SourceCode.t)
    (modifiers : option Rule.Options) :
  let ascending :=
    {| Rule.options :=
         {| Rule.options0 := Some "asc"; Rule.options1 := modifiers |};
       Rule.sourceCode := sc |} in
  let descending :=
    {| Rule.options :=
         {| Rule.options0 := Some "desc"; Rule.options1 := modifiers |};
       Rule.sourceCode := sc |} in
  exists up down,
    Rule.isValidOrder ascending = Some up
    /\ Rule.isValidOrder descending = Some down
    /\ Rule.insensitive descending = Rule.insensitive ascending
    /\ Rule.natual descending = Rule.natual ascending
    /\ up = (match Rule.insensitive ascending, Rule.natual ascending with
             | false, false => asc
             | true, false => ascI
             | false, true => ascN
             | true, true => ascIN
             end)
    /\ forall a b, down a b = up b a.
Proof.
  destruct modifiers as [[[[|]|] [[|]|] groups]|];
    do 2 eexists; repeat split; reflexivity.
Qed.

(** ** One pass over [{b: 1, a: 2}] *)

(** C1: on [{b: 1, a: 2}] with order [asc] and no other option the rule
    makes exactly one report; it is anchored at the span of the key [a], its
    message is the template filled with [asc] and with nothing for the natural
    and insensitive parts, so it contains ['a' should be before 'b'], and its
    Edit turns the text into [{a: 2, b: 1}]. *)
Theorem C1_end_to_end :
  let context := Examples.ctx Examples.defaults Examples.file_ba in
  exists r,
    Rule.lint context Examples.tree_ba = Some [r]
    /\ Rule.r_loc r = ESTree.loc (ESTree.meta Examples.key_a_ba)
    /\ SourceCode.getText Examples.file_ba
         (ESTree.range (ESTree.meta Examples.key_a_ba)) = "a"
    /\ Rule.r_message r = Rule.message_template
    /\ Rule.formatted r
       = "Expected object keys to be in ascending order. 'a' should be before 'b'."
    /\ (exists before after,
           Rule.formatted r
           = (before ++ "'a' should be before 'b'" ++ after)%string)
    /\ Rule.applied context r = Some "{a: 2, b: 1}".
Proof.
  eexists. split; [reflexivity|].
  repeat split; try reflexivity.
  exists "Expected object keys to be in ascending order. ", ".". reflexivity.
Qed.

(** ** The listeners and the stack *)

Section TraversalFacts.

Import ESTree Rule.

Context {R : Requirements}.
Variable context : Rule.Context.

Lemma run_app (q1 q2 : list Event) (st : State) :
  run context (q1 ++ q2) st
  = match run context q1 st with
    | Some st1 => run context q2 st1
    | None => None
    end.
Proof.
  revert st. induction q1 as [|e q1 IH]; intros st; simpl; [reflexivity|].
  destruct (create context e st); [apply IH | reflexivity].
Qed.

Lemma same_upper_trans (s1 s2 s3 : list Frame) :
  same_upper s1 s2 -> same_upper s2 s3 -> same_upper s1 s3.
Proof.
  intros [-> | (t & t' & u & -> & ->)] [-> | (t2 & t2' & u2 & E & ->)].
  - left; reflexivity.
  - right; eauto.
  - right; eauto.
  - inversion E; subst. right; eauto.
Qed.

Lemma same_upper_cons (top : Frame) (upper s : list Frame) :
  same_upper (top :: upper) s -> exists top', s = top' :: upper.
Proof.
  intros [-> | (t & t' & u & E & ->)]; [eauto|].
  inversion E; subst; eauto.
Qed.

(** What the [Property] listener does to the stack of an entry that is not
    in a pattern: it writes the current frame, and nothing else. *)
Lemma Property_frame (node : PropertyNode) (st st' : State) :
  NodeType_eqb (parent_type node) TObjectPattern = false ->
  Property context node st = Some st' ->
  exists top upper top',
    stack st = top :: upper /\ stack st' = top' :: upper
    /\ prevNode top' = Some node
    /\ prevName top' = match getPropertyName node with
                       | Some t => Some t
                       | None => prevName top
                       end
    /\ (prevBlankLine top' = prevBlankLine top
        \/ prevBlankLine top' = Flag false).
Proof.
  unfold Property. intros -> H.
  destruct (stack st) as [|top upper]; [discriminate|].
  destruct (blankLineBetweenNodes context top node) as [f|]; [|discriminate].
  exists top, upper.
  destruct (prevName top) as [p|] eqn:Ep;
    destruct (getPropertyName node) as [t|] eqn:Et; simpl in H.
  - destruct (allowLineSeparatedGroups_on context && truthy f).
    + inversion H; subst; clear H. eexists; simpl; eauto 10.
    + destruct (isValidOrder context) as [valid|]; [|discriminate].
      destruct (valid p t); inversion H; subst; clear H;
        eexists; simpl; eauto 10.
  - inversion H; subst; clear H. eexists; simpl; eauto 10.
  - inversion H; subst; clear H. eexists; simpl; eauto 10.
  - inversion H; subst; clear H. eexists; simpl; eauto 10.
Qed.

Lemma SpreadElement_frame (parent : NodeType) (st st' : State) :
  SpreadElement parent st = Some st' ->
  same_upper (stack st) (stack st')
  /\ (NodeType_eqb parent TObjectExpression = false -> st' = st).
Proof.
  unfold SpreadElement.
  destruct (NodeType_eqb parent TObjectExpression).
  - destruct (stack st) as [|top upper] eqn:E; [discriminate|].
    intros H; inversion H; subst; clear H. simpl.
    split; [right; eauto | discriminate].
  - intros H; inversion H; subst. split; [left|]; reflexivity.
Qed.

(** Under a parent that is not an object literal, a well-formed child has no
    listener that writes to the frame. *)
Lemma no_frame_entry (parent : NodeType) (n : node) :
  well_formed parent n = true ->
  NodeType_eqb parent TObjectExpression = false ->
  frame_entry parent n = false.
Proof.
  destruct n; simpl; intros W E; try reflexivity; try exact E.
  rewrite E in W. simpl in W.
  destruct (NodeType_eqb parent TObjectPattern); [reflexivity|discriminate].
Qed.

Lemma children_keep_upper (parent : NodeType) (cs : list node) :
  Forall (keeps_upper context) cs ->
  forall st st',
    forallb (well_formed parent) cs = true ->
    run context (flat_map (events parent) cs) st = Some st' ->
    same_upper (stack st) (stack st')
    /\ (NodeType_eqb parent TObjectExpression = false ->
        stack st' = stack st).
Proof.
  induction 1 as [|c cs Hc _ IH]; intros st st' W Hrun; simpl in *.
  - inversion Hrun; subst. split; [left|]; reflexivity.
  - apply andb_true_iff in W. destruct W as [Wc Wcs].
    rewrite run_app in Hrun.
    destruct (run context (events parent c) st) as [st1|] eqn:E1;
      [|discriminate].
    destruct (Hc parent st st1 Wc E1) as [U1 Q1].
    destruct (IH st1 st' Wcs Hrun) as [U2 Q2].
    split; [eapply same_upper_trans; eauto|].
    intros Hp. rewrite (Q2 Hp). apply Q1. apply no_frame_entry; assumption.
Qed.

(** The listeners called for a subtree leave the stack as it was, up to the
    current frame when the subtree is an entry of the literal being
    visited. *)
Lemma events_stack (n : node) : keeps_upper context n.
Proof.
  induction n using ESTree.node_ind; intros parent st st' W Hrun;
    simpl in W, Hrun.
  - (* ObjectExpression *)
    rewrite run_app in Hrun.
    match type of Hrun with
    | match run _ _ ?s with _ => _ end = _ => set (pushed := s) in *
    end.
    destruct (run context _ pushed) as [st1|] eqn:E1; [|discriminate].
    destruct (children_keep_upper _ _ H _ _ W E1) as [U _].
    apply same_upper_cons in U. destruct U as [top' E].
    simpl in Hrun. unfold ObjectExpression_exit in Hrun. rewrite E in Hrun.
    inversion Hrun; subst; clear Hrun. simpl.
    split; [left|]; reflexivity.
  - (* ObjectPattern *)
    destruct (children_keep_upper _ _ H _ _ W Hrun) as [U Q].
    split; [exact U | intros _; apply Q; reflexivity].
  - (* Property *)
    apply andb_true_iff in W. destruct W as [W Wv].
    apply andb_true_iff in W. destruct W as [Wp Wk].
    destruct (Property context (property_of parent m computed n1) st)
      as [st0|] eqn:E0; [|discriminate].
    rewrite run_app in Hrun.
    destruct (run context (events TProperty n1) st0) as [st1|] eqn:E1;
      [|discriminate].
    destruct (IHn1 _ _ _ Wk E1) as [_ Q1].
    destruct (IHn2 _ _ _ Wv Hrun) as [_ Q2].
    rewrite Q2, Q1 by (apply no_frame_entry; [assumption|reflexivity]).
    destruct (NodeType_eqb parent TObjectPattern) eqn:Ep.
    + unfold Property in E0. simpl in E0. rewrite Ep in E0.
      inversion E0; subst. split; [left; reflexivity|reflexivity].
    + destruct (Property_frame (property_of parent m computed n1) _ _ Ep E0)
        as (top & upper & top' & Es & Es' & _).
      rewrite Es, Es'. split; [right; eauto|].
      simpl. rewrite Ep. discriminate.
  - (* SpreadElement *)
    destruct (SpreadElement parent st) as [st0|] eqn:E0;
      [|discriminate].
    destruct (IHn _ _ _ W Hrun) as [_ Q].
    rewrite Q by (apply no_frame_entry; [assumption|reflexivity]).
    destruct (SpreadElement_frame _ _ _ E0) as [U Q0].
    split; [exact U | intros Hp; rewrite (Q0 Hp); reflexivity].
  - (* ExperimentalSpreadProperty *)
    destruct (SpreadElement parent st) as [st0|] eqn:E0;
      [|discriminate].
    destruct (IHn _ _ _ W Hrun) as [_ Q].
    rewrite Q by (apply no_frame_entry; [assumption|reflexivity]).
    destruct (SpreadElement_frame _ _ _ E0) as [U Q0].
    split; [exact U | intros Hp; rewrite (Q0 Hp); reflexivity].
  - inversion Hrun; subst. split; [left|]; reflexivity.
  - inversion Hrun; subst. split; [left|]; reflexivity.
  - destruct (children_keep_upper _ _ H _ _ W Hrun) as [U Q].
    split; [exact U | intros _; apply Q; reflexivity].
Qed.

End TraversalFacts.

(** ** The blank line between two entries *)

Section GapFacts.

Import ESTree Rule.

Context {R : Requirements}.
Variable context : Rule.Context.

Lemma line_gap_spec (a b : Position) :
  line_gap a b = true <-> line a - line b > 1.
Proof. unfold line_gap. rewrite Z.gtb_ltb, Z.ltb_lt. lia. Qed.

Lemma adjacent_gap_short (l : list SourceCode.Token) :
  (length l <= 1)%nat -> ~ adjacent_gap l.
Proof.
  intros Hl (i & t & u & _ & Hu & _).
  assert (S i < length l)%nat by (apply nth_error_Some; congruence). lia.
Qed.

Lemma adjacent_gap_cons (p t : SourceCode.Token)
    (rest : list SourceCode.Token) :
  adjacent_gap (p :: t :: rest)
  <-> line (start (SourceCode.tok_loc t))
      - line (end_ (SourceCode.tok_loc p)) > 1
      \/ adjacent_gap (t :: rest).
Proof.
  split.
  - intros (i & x & y & Hx & Hy & Hg). destruct i as [|i].
    + simpl in Hx, Hy. inversion Hx; inversion Hy; subst. left; exact Hg.
    + right. exists i, x, y. auto.
  - intros [Hg | (i & x & y & Hx & Hy & Hg)].
    + exists 0%nat, p, t. auto.
    + exists (S i), x, y. auto.
Qed.

Lemma forEach_tokens_some (tokens : list SourceCode.Token) :
  forall p acc,
    truthy (forEach_tokens (Some p) tokens acc) = true
    <-> truthy acc = true \/ adjacent_gap (p :: tokens).
Proof.
  induction tokens as [|t rest IH]; intros p acc; simpl.
  - split; [auto|]. intros [H | H]; [exact H|].
    exfalso. revert H. apply adjacent_gap_short. simpl. lia.
  - rewrite IH, adjacent_gap_cons.
    destruct (line_gap _ _) eqn:Eg.
    + apply line_gap_spec in Eg. simpl. tauto.
    + assert (~ line (start (SourceCode.tok_loc t))
                - line (end_ (SourceCode.tok_loc p)) > 1).
      { rewrite <- line_gap_spec. congruence. }
      tauto.
Qed.

Lemma forEach_tokens_none (tokens : list SourceCode.Token) (acc : JsFlag) :
  truthy (forEach_tokens None tokens acc) = true
  <-> truthy acc = true \/ adjacent_gap tokens.
Proof.
  destruct tokens as [|t rest]; simpl.
  - split; [auto|]. intros [H | H]; [exact H|].
    exfalso. revert H. apply adjacent_gap_short. simpl. lia.
  - apply forEach_tokens_some.
Qed.

Lemma last_map_Some {A : Type} (l : list A) :
  l <> [] -> exists x, last (map Some l) None = Some x.
Proof.
  induction l as [|x l IH]; [congruence|]. intros _.
  destruct l as [|y l]; [exists x; reflexivity|].
  destruct IH as [z Hz]; [congruence|]. exists z. exact Hz.
Qed.

(** With a previous node, a carried flag that is not true and at least one
    token between the two nodes, the listener's [isBlankLineBetweenNodes]
    ends up true exactly for a qualifying blank line. *)
Lemma blankLineBetweenNodes_spec (top : Frame) (prev node : PropertyNode) :
  prevNode top = Some prev ->
  truthy (prevBlankLine top) = false ->
  SourceCode.getTokensBetween (sourceCode context)
    (prop_range prev) (prop_range node) <> [] ->
  exists f,
    blankLineBetweenNodes context top node = Some f
    /\ (truthy f = true
        <-> qualifying_blank_line prev node
              (SourceCode.getTokensBetween (sourceCode context)
                 (prop_range prev) (prop_range node))).
Proof.
  intros Hp Hf Hne. unfold blankLineBetweenNodes, qualifying_blank_line.
  rewrite Hp.
  set (tokens := SourceCode.getTokensBetween _ _ _) in *.
  pose proof (forEach_tokens_none tokens (prevBlankLine top)) as Hfe.
  rewrite Hf in Hfe.
  destruct (truthy (forEach_tokens None tokens (prevBlankLine top))) eqn:E1;
    simpl.
  - rewrite E1. simpl. eexists; split; [reflexivity|].
    rewrite E1. split; [intros _; left | reflexivity].
    destruct (proj1 Hfe eq_refl) as [H | H]; [discriminate | exact H].
  - destruct (last_map_Some tokens Hne) as [lastToken El]. rewrite El.
    assert (Hadj : ~ adjacent_gap tokens).
    { intros H. assert (false = true) by tauto. discriminate. }
    destruct (line_gap (start (prop_loc node)) _) eqn:E2; simpl.
    + eexists; split; [reflexivity|]. simpl.
      apply line_gap_spec in E2.
      split; [intros _; right; left; eauto | reflexivity].
    + rewrite E1. simpl.
      assert (H2 : ~ exists t, Some lastToken = Some t
                     /\ line (start (prop_loc node))
                        - line (end_ (SourceCode.tok_loc t)) > 1).
      { intros (t & Et & Hg). inversion Et; subst.
        apply line_gap_spec in Hg. congruence. }
      destruct tokens as [|firstToken rest]; [congruence|].
      simpl in E1 |- *.
      destruct (line_gap (start (SourceCode.tok_loc firstToken)) _) eqn:E3.
      * eexists; split; [reflexivity|]. simpl.
        apply line_gap_spec in E3.
        split; [intros _; right; right; eauto | reflexivity].
      * eexists; split; [reflexivity|]. rewrite E1.
        split; [discriminate|].
        intros [H | [H | (t & Et & Hg)]]; [tauto | tauto |].
        inversion Et; subst. apply line_gap_spec in Hg. congruence.
Qed.

(** The [Property] listener on an entry with a name, in a frame that has a
    previous name and a previous node: it does not throw, and reports
    according to the blank line and to the comparator. *)
Lemma Property_named_pair (node prev : PropertyNode) (top : Frame)
    (upper : list Frame) (rs : list Report) (a b : string)
    (valid : string -> string -> bool) :
  NodeType_eqb (parent_type node) TObjectPattern = false ->
  prevName top = Some a ->
  prevNode top = Some prev ->
  truthy (prevBlankLine top) = false ->
  getPropertyName node = Some b ->
  isValidOrder context = Some valid ->
  SourceCode.getTokensBetween (sourceCode context)
    (prop_range prev) (prop_range node) <> [] ->
  let blank :=
    qualifying_blank_line prev node
      (SourceCode.getTokensBetween (sourceCode context)
         (prop_range prev) (prop_range node)) in
  exists st',
    Property context node {| stack := top :: upper; reports := rs |}
    = Some st'
    /\ (allowLineSeparatedGroups_on context = true -> blank ->
        reports st' = rs)
    /\ (allowLineSeparatedGroups_on context = false \/ ~ blank ->
        reports st'
        = rs ++ (if valid a b then []
                 else [report context node (Some prev) b a])).
Proof.
  intros Hparent Ha Hprev Hflag Hb Hvalid Hne blank.
  destruct (blankLineBetweenNodes_spec top prev node Hprev Hflag Hne)
    as (f & Ef & Hf).
  fold blank in Hf.
  unfold Property. rewrite Hparent. simpl.
  rewrite Ef, Ha, Hb, Hprev, Hvalid. simpl.
  destruct (allowLineSeparatedGroups_on context) eqn:Eg; simpl.
  - destruct (truthy f) eqn:Et.
    + eexists; split; [reflexivity|]. simpl. split; [reflexivity|].
      intros [H | H]; [discriminate | tauto].
    + assert (~ blank) by (rewrite <- Hf; congruence).
      destruct (valid a b); simpl;
        (eexists; split; [reflexivity|]); simpl;
        (split; [tauto|]); intros _;
        [rewrite app_nil_r|]; reflexivity.
  - destruct (valid a b); simpl;
      (eexists; split; [reflexivity|]); simpl;
      (split; [discriminate|]); intros _;
      [rewrite app_nil_r|]; reflexivity.
Qed.

(** An entry without a name is never reported. *)
Lemma Property_unnamed (node : PropertyNode) (st st' : State) :
  getPropertyName node = None ->
  Property context node st = Some st' ->
  reports st' = reports st.
Proof.
  intros Hn. unfold Property.
  destruct (NodeType_eqb _ _); [intros H; inversion H; reflexivity|].
  destruct (stack st) as [|top upper]; [discriminate|].
  destruct (blankLineBetweenNodes context top node); [|discriminate].
  rewrite Hn. simpl.
  destruct (prevName top); intros H; inversion H; reflexivity.
Qed.

(** The listeners keep [frame_ok] on every frame. *)
Lemma create_frame_ok (e : Event) (st st' : State) :
  Forall frame_ok (stack st) ->
  create context e st = Some st' ->
  Forall frame_ok (stack st').
Proof.
  assert (Hspread : forall parent,
             Forall frame_ok (stack st) ->
             SpreadElement parent st = Some st' ->
             Forall frame_ok (stack st')).
  { intros parent Hok. unfold SpreadElement.
    destruct (NodeType_eqb parent TObjectExpression).
    - destruct (stack st) as [|top upper]; [discriminate|].
      intros H; inversion H; subst; clear H. simpl.
      inversion Hok as [|? ? [Hf _] Hup]; subst.
      constructor; [|exact Hup].
      split; simpl; [exact Hf | discriminate].
    - intros H; inversion H; subst. exact Hok. }
  intros Hok. destruct e as [parent| | |parent|node]; simpl.
  - apply Hspread, Hok.
  - intros H; inversion H; subst; clear H. simpl.
    constructor; [|exact Hok]. split; simpl; [reflexivity | discriminate].
  - unfold ObjectExpression_exit.
    destruct (stack st) as [|top upper]; [discriminate|].
    intros H; inversion H; subst; clear H. simpl.
    inversion Hok; assumption.
  - apply Hspread, Hok.
  - intros H.
    destruct (NodeType_eqb (parent_type node) TObjectPattern) eqn:Ep.
    + unfold Property in H. rewrite Ep in H. inversion H; subst. exact Hok.
    + destruct (Property_frame context node st st' Ep H)
        as (top & upper & top' & Es & Es' & Hn & Hname & Hflag).
      rewrite Es in Hok. rewrite Es'.
      inversion Hok as [|? ? [Hf Hp] Hup]; subst.
      constructor; [|exact Hup]. split.
      * destruct Hflag as [-> | ->]; [exact Hf | reflexivity].
      * intros p Ep'. exists node. split; [exact Hn|].
        rewrite Hname in Ep'.
        destruct (getPropertyName node); [right; exact Ep' | left; auto].
Qed.

Lemma reachable_frame_ok (st : State) :
  reachable context st -> Forall frame_ok (stack st).
Proof.
  induction 1 as [|e st st' _ IH Hstep]; [constructor|].
  exact (create_frame_ok e st st' IH Hstep).
Qed.

Lemma run_reachable (queue : list Event) (st st' : State) :
  reachable context st -> run context queue st = Some st' ->
  reachable context st'.
Proof.
  revert st. induction queue as [|e queue IH]; intros st Hr Hrun;
    simpl in Hrun.
  - inversion Hrun; subst; exact Hr.
  - destruct (create context e st) as [st1|] eqn:E; [|discriminate].
    eapply IH; [|exact Hrun]. eapply reachable_step; eauto.
Qed.

End GapFacts.

(** ** The text of an Edit *)

Section TextFacts.

Local Open Scope string_scope.

Lemma append_nil_r (s : string) : s ++ "" = s.
Proof. induction s as [|c s IH]; simpl; [reflexivity | now rewrite IH]. Qed.

Lemma append_assoc (a b c : string) : (a ++ b) ++ c = a ++ b ++ c.
Proof. induction a as [|x a IH]; simpl; [reflexivity | now rewrite IH]. Qed.

Lemma length_append (a b : string) :
  String.length (a ++ b) = (String.length a + String.length b)%nat.
Proof. induction a as [|x a IH]; simpl; [reflexivity | now rewrite IH]. Qed.

Lemma substring_none (n : nat) (s : string) : substring n 0 s = "".
Proof.
  revert n. induction s as [|c s IH]; intros [|n]; simpl; auto.
Qed.

Lemma substring_prefix (p q : string) :
  substring 0 (String.length p) (p ++ q) = p.
Proof.
  induction p as [|c p IH]; simpl; [apply substring_none | now rewrite IH].
Qed.

Lemma substring_skip (p q : string) (n m : nat) :
  substring (String.length p + n) m (p ++ q) = substring n m q.
Proof. induction p as [|c p IH]; simpl; [reflexivity | exact IH]. Qed.

Lemma substring_all (s : string) : substring 0 (String.length s) s = s.
Proof.
  rewrite <- (append_nil_r s) at 2. apply substring_prefix.
Qed.

(** The slice that covers the middle one of three parts. *)
Lemma slice_at (x y z : string) (i j : nat) :
  i = String.length x -> j = (i + String.length y)%nat ->
  JsString.slice (x ++ y ++ z) i j = y.
Proof.
  intros -> ->. unfold JsString.slice.
  replace (String.length x + String.length y - String.length x)%nat
    with (String.length y) by lia.
  rewrite <- (Nat.add_0_r (String.length x)) at 1.
  rewrite substring_skip. apply substring_prefix.
Qed.

Lemma slice_empty (s : string) (i : nat) : JsString.slice s i i = "".
Proof. unfold JsString.slice. rewrite Nat.sub_diag. apply substring_none. Qed.

Lemma slice_prefix (x z : string) :
  JsString.slice (x ++ z) 0 (String.length x) = x.
Proof. unfold JsString.slice. rewrite Nat.sub_0_r. apply substring_prefix. Qed.

Lemma slice_suffix (x z : string) :
  JsString.slice (x ++ z) (String.length x) (String.length (x ++ z)) = z.
Proof.
  unfold JsString.slice. rewrite length_append.
  replace (String.length x + String.length z - String.length x)%nat
    with (String.length z) by lia.
  rewrite <- (Nat.add_0_r (String.length x)) at 1.
  rewrite substring_skip. apply substring_all.
Qed.

(** Two replacements, the first region before the second: the merged fix
    exchanges the two texts and keeps what lies around and between them. *)
Lemma applyEdit_swap (pre a mid b post : string) (ra rb : nat * nat) :
  ra = (String.length pre, (String.length pre + String.length a)%nat) ->
  rb = ((String.length pre + String.length a + String.length mid)%nat,
        (String.length pre + String.length a + String.length mid
         + String.length b)%nat) ->
  Fixer.applyEdit (pre ++ a ++ mid ++ b ++ post)
    [Fixer.replaceText ra b; Fixer.replaceText rb a]
  = Some (pre ++ b ++ mid ++ a ++ post).
Proof.
  intros -> ->.
  set (la := String.length a). set (lp := String.length pre).
  set (lm := String.length mid). set (lb := String.length b).
  unfold Fixer.applyEdit, Fixer.mergeFixes, Fixer.sort_fixes. simpl.
  assert (Hle : Fixer.fix_le (Fixer.replaceText (lp, (lp + la)%nat) b)
                  (Fixer.replaceText ((lp + la + lm)%nat,
                                      (lp + la + lm + lb)%nat) a) = true).
  { unfold Fixer.fix_le. simpl.
    destruct (Nat.eqb_spec lp (lp + la + lm)).
    - apply Nat.leb_le. lia.
    - apply Nat.ltb_lt. lia. }
  rewrite Hle. simpl.
  assert (Hpos : ((lp + la)%nat <=? (lp + la + lm)%nat)%nat = true)
    by (apply Nat.leb_le; lia).
  rewrite Hpos. unfold Fixer.applyFix. simpl.
  rewrite slice_empty. simpl.
  replace (Nat.max lp (lp + la)) with (lp + la)%nat by lia.
  assert (Hmid : JsString.slice (pre ++ a ++ mid ++ b ++ post)
                   (lp + la) (lp + la + lm) = mid).
  { rewrite <- (append_assoc pre a). apply slice_at.
    - rewrite length_append. reflexivity.
    - reflexivity. }
  rewrite Hmid. rewrite slice_prefix.
  assert (Hpost : JsString.slice (pre ++ a ++ mid ++ b ++ post)
                    (lp + la + lm + lb)
                    (String.length (pre ++ a ++ mid ++ b ++ post)) = post).
  { rewrite <- (append_assoc mid b), <- (append_assoc a), <- (append_assoc pre).
    replace (lp + la + lm + lb)%nat
      with (String.length (pre ++ a ++ mid ++ b)).
    - apply slice_suffix.
    - rewrite !length_append. unfold lp, la, lm, lb. lia. }
  rewrite Hpost. rewrite !append_assoc. reflexivity.
Qed.

End TextFacts.

(** ** Two consecutive entries of an object literal *)

Section PairFacts.

Import ESTree Rule.

Context {R : Requirements}.
Variable context : Rule.Context.

(** The [Property] listener does not throw inside a literal when the
    comparator exists and there is a token between the previous node, if any,
    and the node. *)
Lemma Property_total (node : PropertyNode) (top : Frame)
    (upper : list Frame) (rs : list Report)
    (valid : string -> string -> bool) :
  isValidOrder context = Some valid ->
  truthy (prevBlankLine top) = false ->
  (forall prev, prevNode top = Some prev ->
     SourceCode.getTokensBetween (sourceCode context)
       (prop_range prev) (prop_range node) <> []) ->
  exists st',
    Property context node {| stack := top :: upper; reports := rs |}
    = Some st'.
Proof.
  intros Hvalid Hflag Htok. unfold Property.
  destruct (NodeType_eqb _ _); [eauto|]. simpl.
  assert (Hb : exists f, blankLineBetweenNodes context top node = Some f).
  { destruct (prevNode top) as [prev|] eqn:Ep.
    - destruct (blankLineBetweenNodes_spec context top prev node Ep Hflag
                  (Htok prev eq_refl)) as (f & Ef & _). eauto.
    - unfold blankLineBetweenNodes. rewrite Ep. eauto. }
  destruct Hb as [f ->]. rewrite Hvalid.
  destruct (prevName top) as [p|], (getPropertyName node) as [t|];
    simpl; eauto.
  destruct (allowLineSeparatedGroups_on context && truthy f); eauto.
  destruct (valid p t); simpl; eauto.
Qed.

(** After the listeners of an entry [A] of a literal and of its subtree, the
    current frame is the one the [Property] listener wrote for [A]: [A] is
    the previous node, and the previous name is the name of [A], or the one
    the frame had when [A] has none. *)
Lemma after_entry (st0 st2 : State) (mA : Meta) (cA : bool)
    (kA vA : node) :
  reachable context st0 ->
  well_formed TObjectExpression (ESTree.Property mA cA kA vA) = true ->
  run context (events TObjectExpression (ESTree.Property mA cA kA vA)) st0
  = Some st2 ->
  let A := property_of TObjectExpression mA cA kA in
  exists top0 top upper,
    stack st0 = top0 :: upper
    /\ stack st2 = top :: upper
    /\ prevNode top = Some A
    /\ prevName top = match getPropertyName A with
                      | Some a => Some a
                      | None => prevName top0
                      end
    /\ truthy (prevBlankLine top) = false.
Proof.
  intros Hreach W Hrun A.
  pose proof (run_reachable context _ _ _ Hreach Hrun) as Hreach2.
  apply reachable_frame_ok in Hreach2.
  simpl in W, Hrun.
  apply andb_true_iff in W. destruct W as [Wk Wv]. simpl in Wk.
  fold A in Hrun.
  destruct (Property context A st0) as [st1|] eqn:E1; [|discriminate].
  rewrite run_app in Hrun.
  destruct (run context (events TProperty kA) st1) as [sk|] eqn:Ek;
    [|discriminate].
  destruct (events_stack context kA _ _ _ Wk Ek) as [_ Qk].
  destruct (events_stack context vA _ _ _ Wv Hrun) as [_ Qv].
  assert (Es : stack st2 = stack st1).
  { rewrite Qv, Qk; try reflexivity;
      apply no_frame_entry; auto. }
  destruct (Property_frame context A st0 st1 eq_refl E1)
    as (top0 & upper & top & Es0 & Es1 & Hn & Hname & _).
  exists top0, top, upper. rewrite Es, Es1. repeat split; auto.
  rewrite Es, Es1 in Hreach2. inversion Hreach2 as [|? ? [Hf _] _].
  exact Hf.
Qed.

(** Without a previous name the [Property] listener makes no report. *)
Lemma Property_no_previous_name (node : PropertyNode) (top : Frame)
    (upper : list Frame) (rs : list Report) (st' : State) :
  prevName top = None ->
  Property context node {| stack := top :: upper; reports := rs |}
  = Some st' ->
  reports st' = rs.
Proof.
  intros Hn. unfold Property.
  destruct (NodeType_eqb _ _); [intros H; inversion H; reflexivity|].
  simpl. destruct (blankLineBetweenNodes context top node); [|discriminate].
  rewrite Hn. simpl. intros H; inversion H; reflexivity.
Qed.

(** What the [Property] listener does on the entry [B] that follows [A]:
    [B] is compared with the previous name of the frame, which is the name of
    [A] when [A] has one. *)
Lemma consecutive_entries (valid : string -> string -> bool)
    (st0 st2 : State) (mA : Meta) (cA : bool) (kA vA : node)
    (B : PropertyNode) :
  isValidOrder context = Some valid ->
  reachable context st0 ->
  well_formed TObjectExpression (ESTree.Property mA cA kA vA) = true ->
  run context (events TObjectExpression (ESTree.Property mA cA kA vA)) st0
  = Some st2 ->
  parent_type B = TObjectExpression ->
  let A := property_of TObjectExpression mA cA kA in
  let tokens :=
    SourceCode.getTokensBetween (sourceCode context)
      (prop_range A) (prop_range B) in
  tokens <> [] ->
  exists top0 upper st3,
    stack st0 = top0 :: upper
    /\ Property context B st2 = Some st3
    /\ (getPropertyName B = None -> reports st3 = reports st2)
    /\ (getPropertyName A = None -> prevName top0 = None ->
        reports st3 = reports st2)
    /\ forall p b,
         match getPropertyName A with
         | Some a => Some a
         | None => prevName top0
         end = Some p ->
         getPropertyName B = Some b ->
         (allowLineSeparatedGroups_on context = true ->
          qualifying_blank_line A B tokens -> reports st3 = reports st2)
         /\ (allowLineSeparatedGroups_on context = false
             \/ ~ qualifying_blank_line A B tokens ->
             reports st3
             = reports st2
               ++ (if valid p b then []
                   else [report context B (Some A) b p])).
Proof.
  intros Hvalid Hreach W Hrun HB A tokens Hne.
  destruct (after_entry st0 st2 mA cA kA vA Hreach W Hrun)
    as (top0 & top & upper & Es0 & Es & Hprev & Hname & Hflag).
  fold A in Hprev, Hname.
  destruct st2 as [s2 rs2]. simpl in Es. subst s2.
  destruct (Property_total B top upper rs2 valid Hvalid Hflag) as [st3 E3].
  { intros prev Ep. rewrite Hprev in Ep. inversion Ep; subst. exact Hne. }
  exists top0, upper, st3.
  split; [exact Es0|]. split; [exact E3|]. split; [|split].
  - intros HnB. exact (Property_unnamed context B _ _ HnB E3).
  - intros HnA Hn0. rewrite HnA, Hn0 in Hname.
    exact (Property_no_previous_name B top upper rs2 st3 Hname E3).
  - intros p b Hp Hb. rewrite Hp in Hname.
    destruct (Property_named_pair context B A top upper rs2 p b valid)
      as (st3' & E3' & Hgap & Hcmp); auto.
    { rewrite HB. reflexivity. }
    rewrite E3 in E3'. inversion E3'; subst st3'. simpl. auto.
Qed.

(** In the queue of a literal the listener of an entry [B] comes right after
    the listeners of the entry [A] before it and of the subtree of [A]. *)
Lemma events_consecutive (parent : NodeType) (m mB : Meta) (cB : bool)
    (A kB vB : node) (before after : list node) :
  events parent
    (ESTree.ObjectExpression m
       (before ++ A :: ESTree.Property mB cB kB vB :: after))
  = On_ObjectExpression
    :: flat_map (events TObjectExpression) before
    ++ events TObjectExpression A
    ++ On_Property (property_of TObjectExpression mB cB kB)
    :: (events TProperty kB ++ events TProperty vB)
    ++ flat_map (events TObjectExpression) after
    ++ [On_ObjectExpression_exit].
Proof.
  simpl. rewrite flat_map_app. simpl.
  rewrite <- !app_assoc. simpl. rewrite <- !app_assoc. reflexivity.
Qed.

(** A configuration that passes the schema has a comparator. *)
Lemma isValidOrder_defined :
  options0 (options context) = None
  \/ options0 (options context) = Some "asc"
  \/ options0 (options context) = Some "desc" ->
  exists valid, isValidOrder context = Some valid.
Proof.
  intros Ho. unfold isValidOrder. apply lookup_isValidOrders.
  unfold order. destruct Ho as [-> | [-> | ->]]; simpl; auto.
Qed.

End PairFacts.

(** ** Fixes in the order of the text *)

Section SpliceFacts.

Local Open Scope string_scope.

Lemma merge_loop_chain (text : string) (start : nat)
    (fixes : list Fixer.Fix) :
  forall pos acc,
    (start <= pos)%nat ->
    Layout.chain pos fixes ->
    exists inner,
      Fixer.merge_loop text start (Some pos) acc fixes = Some (acc ++ inner)
      /\ Layout.splice text pos fixes
         = inner ++ JsString.slice text (Layout.endpos pos fixes)
                      (String.length text).
Proof.
  induction fixes as [|f rest IH]; intros pos acc Hs Hc.
  - exists "". simpl. rewrite append_nil_r. auto.
  - destruct Hc as (H0 & H1 & Hc). simpl.
    destruct (Fixer.fix_range f) as [f0 f1] eqn:Ef. simpl in *.
    replace (pos <=? f0)%nat with true by (symmetry; apply Nat.leb_le; lia).
    replace (Nat.max start pos) with pos by lia.
    destruct (IH f1 (acc ++ JsString.slice text pos f0 ++ Fixer.fix_text f))
      as (inner & Em & Es); [lia | exact Hc |].
    exists (JsString.slice text pos f0 ++ Fixer.fix_text f ++ inner).
    split.
    + rewrite Em. rewrite !append_assoc. reflexivity.
    + rewrite Es, !append_assoc. f_equal. f_equal. f_equal. f_equal.
      unfold Layout.endpos. destruct rest as [|g rest']; simpl.
      * rewrite Ef. reflexivity.
      * reflexivity.
Qed.

(** Two fixes or more: the host sorts them, merges them and applies the
    result; when the sorted fixes follow the text, the outcome is the text
    with each fix in place of its range. *)
Lemma applyEdit_splice (text : string) (fixes : list Fixer.Fix)
    (f : Fixer.Fix) (rest : list Fixer.Fix) :
  (2 <= length fixes)%nat ->
  Fixer.sort_fixes fixes = f :: rest ->
  Layout.chain 0 (f :: rest) ->
  Fixer.applyEdit text fixes = Some (Layout.splice text 0 (f :: rest)).
Proof.
  intros Hlen Hsort (_ & H1 & Hc).
  unfold Fixer.applyEdit, Fixer.mergeFixes.
  destruct fixes as [|x [|y l]]; simpl in Hlen; try lia.
  rewrite Hsort. simpl.
  destruct (Fixer.fix_range f) as [f0 f1] eqn:Ef. simpl in *.
  destruct (merge_loop_chain text f0 rest f1
              (JsString.slice text f0 f0 ++ Fixer.fix_text f))
    as (inner & Em & Es); [lia | exact Hc |].
  rewrite Em. unfold Fixer.applyFix. simpl.
  rewrite slice_empty. simpl. rewrite Es, !append_assoc.
  f_equal. f_equal. f_equal. f_equal.
  unfold Layout.endpos. destruct rest as [|g rest']; simpl.
  - rewrite Ef. reflexivity.
  - reflexivity.
Qed.

End SpliceFacts.

(** ** The host's sort on the fixes of one report *)

Section SortFacts.

Lemma fix_le_spec (f g : Fixer.Fix) :
  Fixer.fix_le f g = true
  <-> (fst (Fixer.fix_range f) < fst (Fixer.fix_range g))%nat
      \/ (fst (Fixer.fix_range f) = fst (Fixer.fix_range g)
          /\ (snd (Fixer.fix_range f) <= snd (Fixer.fix_range g))%nat).
Proof.
  unfold Fixer.fix_le.
  destruct (Fixer.fix_range f) as [f0 f1], (Fixer.fix_range g) as [g0 g1].
  simpl. destruct (Nat.eqb_spec f0 g0).
  - rewrite Nat.leb_le. lia.
  - rewrite Nat.ltb_lt. lia.
Qed.

Lemma fix_le_false (f g : Fixer.Fix) :
  (fst (Fixer.fix_range g) < fst (Fixer.fix_range f))%nat
  \/ (fst (Fixer.fix_range f) = fst (Fixer.fix_range g)
      /\ (snd (Fixer.fix_range g) < snd (Fixer.fix_range f))%nat) ->
  Fixer.fix_le f g = false.
Proof.
  intros H. destruct (Fixer.fix_le f g) eqn:E; [|reflexivity].
  apply fix_le_spec in E. lia.
Qed.

(** A fix goes right after the sorted fixes that are not after it. *)
Lemma insert_sorted_at (f : Fixer.Fix) (l1 l2 : list Fixer.Fix) :
  Forall (fun g => Fixer.fix_le g f = true) l1 ->
  match l2 with
  | [] => True
  | g :: _ => Fixer.fix_le g f = false
  end ->
  Fixer.insert_sorted f (l1 ++ l2) = l1 ++ f :: l2.
Proof.
  induction 1 as [|g l1 Hg _ IH]; intros H2; simpl.
  - destruct l2 as [|g l2]; [reflexivity|]. simpl. rewrite H2. reflexivity.
  - rewrite Hg, (IH H2). reflexivity.
Qed.

Lemma insert_sorted_last (f : Fixer.Fix) (l : list Fixer.Fix) :
  Forall (fun g => Fixer.fix_le g f = true) l ->
  Fixer.insert_sorted f l = l ++ [f].
Proof.
  intros H. rewrite <- (app_nil_r l) at 1.
  apply insert_sorted_at; [exact H | exact I].
Qed.

Variable P Pe N Ne : nat.
Hypothesis HP : (P <= Pe)%nat.
Hypothesis HPN : (Pe <= N)%nat.
Hypothesis HN : (N <= Ne)%nat.

(** The fixes for the comments of the node: the insertions stay in their
    order before the previous node, the removals follow in theirs. *)
Lemma sort_node_comments (l : list (string * string)) :
  Layout.real l ->
  forall off inserted removed,
    (Pe <= off)%nat ->
    Forall (fun g => Fixer.fix_range g = (P, P)) inserted ->
    Forall (fun g => (Pe <= fst (Fixer.fix_range g))%nat
                     /\ (fst (Fixer.fix_range g)
                         < snd (Fixer.fix_range g))%nat
                     /\ (snd (Fixer.fix_range g) <= off)%nat) removed ->
    fold_left (fun acc f => Fixer.insert_sorted f acc)
      (Layout.moves (P, Pe) (Layout.marks off l)) (inserted ++ removed)
    = (inserted ++ Layout.inserts (P, Pe) (Layout.marks off l))
      ++ (removed ++ Layout.removals (Layout.marks off l)).
Proof.
  induction 1 as [|[u c] l Hc _ IH]; intros off inserted removed Hoff Hi Hr.
  - simpl. rewrite !app_nil_r. reflexivity.
  - simpl in Hc. simpl.
    set (ins := Fixer.insertTextBefore (P, Pe) (c ++ Rule.newline)%string).
    set (rem := Fixer.remove ((off + String.length u)%nat,
                              (off + String.length u + String.length c)%nat)).
    assert (E1 : Fixer.insert_sorted ins (inserted ++ removed)
                 = inserted ++ ins :: removed).
    { apply insert_sorted_at.
      - eapply Forall_impl; [|exact Hi]. intros g Hg.
        apply fix_le_spec. rewrite Hg. simpl. lia.
      - destruct removed as [|g removed]; [exact I|].
        inversion Hr as [|? ? Hg _]; subst.
        apply fix_le_false. simpl. lia. }
    rewrite E1.
    assert (E2 : Fixer.insert_sorted rem (inserted ++ ins :: removed)
                 = (inserted ++ [ins]) ++ (removed ++ [rem])).
    { rewrite <- app_assoc. simpl.
      change (inserted ++ ins :: removed ++ [rem])
        with (inserted ++ (ins :: removed) ++ [rem]).
      rewrite app_assoc. apply insert_sorted_last.
      apply Forall_app. split; [|constructor].
      - eapply Forall_impl; [|exact Hi]. intros g Hg.
        apply fix_le_spec. rewrite Hg. simpl. lia.
      - apply fix_le_spec. simpl. lia.
      - eapply Forall_impl; [|exact Hr]. intros g Hg. cbv beta in Hg.
        apply fix_le_spec. simpl. lia. }
    rewrite E2, IH.
    + rewrite <- !app_assoc. reflexivity.
    + lia.
    + apply Forall_app. split; [exact Hi|]. constructor; [reflexivity|].
      constructor.
    + apply Forall_app. split.
      * eapply Forall_impl; [|exact Hr]. intros g Hg. cbv beta in Hg. lia.
      * constructor; [simpl; lia | constructor].
Qed.

(** The fixes for the comments of the previous node: the removals go to the
    front in their order, the insertions to the end in theirs. *)
Lemma sort_prev_comments (l : list (string * string)) (tail : string) :
  Layout.real l ->
  forall off removed g0 middle inserted,
    (off + String.length (Layout.weave l tail) <= P)%nat ->
    Forall (fun g => (fst (Fixer.fix_range g) < snd (Fixer.fix_range g))%nat
                     /\ (snd (Fixer.fix_range g) <= off)%nat) removed ->
    Forall (fun g => (P <= fst (Fixer.fix_range g))%nat
                     /\ (fst (Fixer.fix_range g)
                         <= snd (Fixer.fix_range g))%nat
                     /\ (snd (Fixer.fix_range g) <= N)%nat)
           (g0 :: middle) ->
    Forall (fun g => Fixer.fix_range g = (N, N)) inserted ->
    fold_left (fun acc f => Fixer.insert_sorted f acc)
      (Layout.moves (N, Ne) (Layout.marks off l))
      (removed ++ g0 :: middle ++ inserted)
    = (removed ++ Layout.removals (Layout.marks off l))
      ++ g0 :: middle
      ++ (inserted ++ Layout.inserts (N, Ne) (Layout.marks off l)).
Proof.
  induction 1 as [|[u c] l Hc _ IH];
    intros off removed g0 middle inserted Hoff Hr Hm Hi.
  - simpl. rewrite !app_nil_r. reflexivity.
  - simpl in Hc, Hoff. rewrite !length_append in Hoff. simpl.
    set (ins := Fixer.insertTextBefore (N, Ne) (c ++ Rule.newline)%string).
    set (rem := Fixer.remove ((off + String.length u)%nat,
                              (off + String.length u + String.length c)%nat)).
    assert (E1 : Fixer.insert_sorted ins
                   (removed ++ g0 :: middle ++ inserted)
                 = removed ++ g0 :: middle ++ inserted ++ [ins]).
    { rewrite insert_sorted_last.
      - rewrite <- app_assoc. simpl. rewrite <- app_assoc. reflexivity.
      - apply Forall_app. split.
        + eapply Forall_impl; [|exact Hr]. intros g Hg. cbv beta in Hg.
          apply fix_le_spec. simpl. lia.
        + change (g0 :: middle ++ inserted)
            with ((g0 :: middle) ++ inserted).
          apply Forall_app. split.
          * eapply Forall_impl; [|exact Hm]. intros g Hg. cbv beta in Hg.
            apply fix_le_spec. simpl. lia.
          * eapply Forall_impl; [|exact Hi]. intros g Hg. cbv beta in Hg.
            apply fix_le_spec. rewrite Hg. simpl. lia. }
    rewrite E1.
    assert (E2 : Fixer.insert_sorted rem
                   (removed ++ g0 :: middle ++ inserted ++ [ins])
                 = (removed ++ [rem])
                   ++ g0 :: middle ++ (inserted ++ [ins])).
    { rewrite <- app_assoc. simpl. apply insert_sorted_at.
      - eapply Forall_impl; [|exact Hr]. intros g Hg. cbv beta in Hg.
        apply fix_le_spec. simpl. lia.
      - inversion Hm as [|? ? Hg _]; subst.
        apply fix_le_false. simpl. lia. }
    rewrite E2.
    rewrite (IH (off + String.length u + String.length c)%nat
               (removed ++ [rem]) g0 middle (inserted ++ [ins])).
    + unfold Layout.removals, Layout.inserts. simpl.
      rewrite <- !app_assoc. reflexivity.
    + lia.
    + apply Forall_app. split.
      * eapply Forall_impl; [|exact Hr]. intros g Hg. cbv beta in Hg. lia.
      * constructor; [simpl; lia | constructor].
    + exact Hm.
    + apply Forall_app. split; [exact Hi|]. constructor; [reflexivity|].
      constructor.
Qed.

Lemma removals_bounds (l : list (string * string)) (tail : string)
    (hi : nat) :
  Layout.real l ->
  forall off,
    (off + String.length (Layout.weave l tail) <= hi)%nat ->
    Forall (fun g => (off <= fst (Fixer.fix_range g))%nat
                     /\ (fst (Fixer.fix_range g)
                         < snd (Fixer.fix_range g))%nat
                     /\ (snd (Fixer.fix_range g) <= hi)%nat)
           (Layout.removals (Layout.marks off l)).
Proof.
  induction 1 as [|[u c] l Hc _ IH]; intros off Hoff; [constructor|].
  simpl in Hc, Hoff. rewrite !length_append in Hoff. simpl.
  constructor; [simpl; lia|].
  eapply Forall_impl; [|apply IH; lia].
  intros g Hg. cbv beta in Hg. lia.
Qed.

Lemma inserts_range (target : nat * nat)
    (ms : list ((nat * nat) * string)) :
  Forall (fun g => Fixer.fix_range g = (fst target, fst target))
         (Layout.inserts target ms).
Proof.
  induction ms as [|m ms IH]; constructor; [reflexivity | exact IH].
Qed.

(** The fixes of one report, as [fix] returns them, and as the host's sort
    leaves them. *)
Lemma sort_exchange (lp ln : list (string * string)) (up un ta tb : string) :
  Layout.real lp -> Layout.real ln ->
  (String.length (Layout.weave lp up) <= P)%nat ->
  (Pe + String.length (Layout.weave ln un) <= N)%nat ->
  Fixer.sort_fixes
    ((Layout.moves (P, Pe) (Layout.marks Pe ln)
      ++ [Fixer.replaceText (P, Pe) tb])
     ++ Layout.moves (N, Ne) (Layout.marks 0 lp)
     ++ [Fixer.replaceText (N, Ne) ta])
  = Layout.removals (Layout.marks 0 lp)
    ++ (Layout.inserts (P, Pe) (Layout.marks Pe ln)
        ++ Fixer.replaceText (P, Pe) tb
        :: Layout.removals (Layout.marks Pe ln))
    ++ Layout.inserts (N, Ne) (Layout.marks 0 lp)
    ++ [Fixer.replaceText (N, Ne) ta].
Proof.
  intros Hlp Hln HlenP HlenN.
  pose proof (removals_bounds ln un N Hln Pe HlenN) as HbN.
  pose proof (removals_bounds lp up P Hlp 0 HlenP) as HbP.
  pose proof (inserts_range (P, Pe) (Layout.marks Pe ln)) as HiP.
  pose proof (inserts_range (N, Ne) (Layout.marks 0 lp)) as HiN.
  simpl in HiP, HiN.
  unfold Fixer.sort_fixes. rewrite !fold_left_app.
  assert (E0 : fold_left (fun acc f => Fixer.insert_sorted f acc)
                 (Layout.moves (P, Pe) (Layout.marks Pe ln)) []
               = Layout.inserts (P, Pe) (Layout.marks Pe ln)
                 ++ Layout.removals (Layout.marks Pe ln)).
  { apply (sort_node_comments ln Hln Pe [] []);
      [lia | constructor | constructor]. }
  rewrite E0. simpl fold_left at 2.
  assert (E1 : Fixer.insert_sorted (Fixer.replaceText (P, Pe) tb)
                 (Layout.inserts (P, Pe) (Layout.marks Pe ln)
                  ++ Layout.removals (Layout.marks Pe ln))
               = Layout.inserts (P, Pe) (Layout.marks Pe ln)
                 ++ Fixer.replaceText (P, Pe) tb
                 :: Layout.removals (Layout.marks Pe ln)).
  { apply insert_sorted_at.
    - eapply Forall_impl; [|exact HiP]. intros g Hg. cbv beta in Hg.
      apply fix_le_spec. rewrite Hg. simpl. lia.
    - destruct (Layout.removals (Layout.marks Pe ln)) as [|g rest];
        [exact I|].
      inversion HbN as [|? ? Hg _]; subst.
      apply fix_le_false. simpl. lia. }
  rewrite E1.
  remember (Layout.inserts (P, Pe) (Layout.marks Pe ln)
            ++ Fixer.replaceText (P, Pe) tb
            :: Layout.removals (Layout.marks Pe ln)) as B eqn:EB.
  assert (HB : Forall (fun g => (P <= fst (Fixer.fix_range g))%nat
                                /\ (fst (Fixer.fix_range g)
                                    <= snd (Fixer.fix_range g))%nat
                                /\ (snd (Fixer.fix_range g) <= N)%nat) B).
  { rewrite EB. apply Forall_app. split; [|constructor].
    - eapply Forall_impl; [|exact HiP]. intros g Hg. cbv beta in Hg.
      rewrite Hg. simpl. lia.
    - simpl. lia.
    - eapply Forall_impl; [|exact HbN]. intros g Hg. cbv beta in Hg. lia. }
  destruct B as [|g0 middle].
  { exfalso. destruct (Layout.inserts _ _); discriminate. }
  pose proof (sort_prev_comments lp up Hlp 0 [] g0 middle []) as E2.
  simpl in E2. rewrite !app_nil_r in E2.
  rewrite E2; [|lia | constructor | exact HB | constructor].
  simpl fold_left.
  rewrite insert_sorted_last.
  - rewrite <- !app_assoc. simpl. rewrite <- !app_assoc. reflexivity.
  - apply Forall_app.
    split; [|apply (proj2 (Forall_app _ (g0 :: middle) _)); split].
    + eapply Forall_impl; [|exact HbP]. intros g Hg. cbv beta in Hg.
      apply fix_le_spec. simpl. lia.
    + eapply Forall_impl; [|exact HB]. intros g Hg. cbv beta in Hg.
      apply fix_le_spec. simpl. lia.
    + eapply Forall_impl; [|exact HiN]. intros g Hg. cbv beta in Hg.
      apply fix_le_spec. rewrite Hg. simpl. lia.
Qed.

End SortFacts.

(** ** The Edit of a report, for any comments before its two nodes *)

Section ExchangeFacts.

Local Open Scope string_scope.

Lemma chain_mono (pos pos' : nat) (fixes : list Fixer.Fix) :
  (pos <= pos')%nat -> Layout.chain pos' fixes -> Layout.chain pos fixes.
Proof.
  destruct fixes as [|f rest]; simpl; [auto|].
  intros Hle (H0 & H1 & Hc). repeat split; [lia | lia | exact Hc].
Qed.

Lemma chain_removals (l : list (string * string)) (tail : string)
    (rest : list Fixer.Fix) (q : nat) :
  Layout.chain q rest ->
  forall off,
    (off + String.length (Layout.weave l tail) <= q)%nat ->
    Layout.chain off (Layout.removals (Layout.marks off l) ++ rest).
Proof.
  intros Hrest. induction l as [|[u c] l IH]; intros off Hoff; simpl in *.
  - apply (chain_mono off q); [lia | exact Hrest].
  - rewrite !length_append in Hoff.
    split; [lia|]. split; [lia|]. apply IH. lia.
Qed.

Lemma chain_inserts (Q Qe : nat) (ms : list ((nat * nat) * string))
    (rest : list Fixer.Fix) :
  Layout.chain Q rest ->
  forall pos, (pos <= Q)%nat ->
    Layout.chain pos (Layout.inserts (Q, Qe) ms ++ rest).
Proof.
  intros Hrest. induction ms as [|m ms IH]; intros pos Hpos; simpl.
  - apply (chain_mono pos Q); [lia | exact Hrest].
  - split; [exact Hpos|]. split; [lia|]. apply IH. lia.
Qed.

Lemma starts_inserts (Q Qe : nat) (ms : list ((nat * nat) * string))
    (rest : list Fixer.Fix) :
  Layout.starts Q rest -> Layout.starts Q (Layout.inserts (Q, Qe) ms ++ rest).
Proof. destruct ms; simpl; auto. Qed.

Lemma splice_from (text : string) (Q pos : nat) (rest : list Fixer.Fix) :
  Layout.starts Q rest ->
  Layout.splice text pos rest
  = JsString.slice text pos Q ++ Layout.splice text Q rest.
Proof.
  destruct rest as [|f rest]; simpl; [contradiction|].
  intros <-. rewrite slice_empty. reflexivity.
Qed.

(** Over the removals of a stretch, what is left is the stretch without its
    comments. *)
Lemma splice_removals (l : list (string * string)) (tail z : string)
    (rest : list Fixer.Fix) :
  forall x,
    Layout.starts (String.length x + String.length (Layout.weave l tail))
                  rest ->
    Layout.splice (x ++ Layout.weave l tail ++ z) (String.length x)
      (Layout.removals (Layout.marks (String.length x) l) ++ rest)
    = Layout.without l tail
      ++ Layout.splice (x ++ Layout.weave l tail ++ z)
           (String.length x + String.length (Layout.weave l tail)) rest.
Proof.
  induction l as [|[u c] l IH]; intros x Hs; simpl in *.
  - rewrite (splice_from _ _ _ _ Hs). f_equal.
    apply slice_at; reflexivity.
  - assert (ET : x ++ (u ++ c ++ Layout.weave l tail) ++ z
                 = (x ++ u ++ c) ++ Layout.weave l tail ++ z)
      by (rewrite !append_assoc; reflexivity).
    assert (EL : String.length (x ++ u ++ c)
                 = (String.length x + String.length u + String.length c)%nat)
      by (rewrite !length_append; lia).
    assert (Eu : JsString.slice (x ++ (u ++ c ++ Layout.weave l tail) ++ z)
                   (String.length x) (String.length x + String.length u)
                 = u).
    { rewrite !append_assoc. apply slice_at; reflexivity. }
    rewrite Eu. rewrite ET, <- EL.
    rewrite IH.
    + rewrite (append_assoc u (Layout.without l tail)).
      replace (String.length x
               + String.length (u ++ c ++ Layout.weave l tail))%nat
        with (String.length (x ++ u ++ c)
              + String.length (Layout.weave l tail))%nat
        by (rewrite !length_append; lia).
      reflexivity.
    + rewrite !length_append in Hs |- *.
      replace (String.length x + (String.length u + String.length c)
               + String.length (Layout.weave l tail))%nat
        with (String.length x
              + (String.length u
                 + (String.length c
                    + String.length (Layout.weave l tail))))%nat by lia.
      exact Hs.
Qed.

(** Over the insertions before a node, the comments come in, each with its
    line break. *)
Lemma splice_inserts (text : string) (Q Qe : nat)
    (l : list (string * string)) (rest : list Fixer.Fix) :
  forall off,
    Layout.splice text Q (Layout.inserts (Q, Qe) (Layout.marks off l) ++ rest)
    = Layout.carried l ++ Layout.splice text Q rest.
Proof.
  induction l as [|[u c] l IH]; intros off; simpl; [reflexivity|].
  rewrite slice_empty, IH. simpl. rewrite !append_assoc. reflexivity.
Qed.

(** The text at each comment of a stretch is the comment. *)
Lemma slice_marks (l : list (string * string)) (tail z : string) :
  forall x,
    Forall (fun m => JsString.slice (x ++ Layout.weave l tail ++ z)
                       (fst (fst m)) (snd (fst m)) = snd m)
           (Layout.marks (String.length x) l).
Proof.
  induction l as [|[u c] l IH]; intros x; simpl; constructor.
  - simpl. rewrite !append_assoc. rewrite <- (append_assoc x u).
    apply slice_at; [rewrite length_append|]; reflexivity.
  - specialize (IH (x ++ u ++ c)).
    rewrite !length_append in IH. rewrite !append_assoc in IH |- *.
    rewrite Nat.add_assoc in IH. exact IH.
Qed.

Lemma moveProperty_marks (context : Rule.Context)
    (fromNode toNode : ESTree.PropertyNode) (fixes : list Fixer.Fix)
    (ms : list ((nat * nat) * string)) :
  let sc := Rule.sourceCode context in
  map SourceCode.tok_range
      (SourceCode.getCommentsBefore sc (ESTree.prop_range fromNode))
  = map fst ms ->
  Forall (fun m => SourceCode.getText sc (fst m) = snd m) ms ->
  Rule.moveProperty context fromNode toNode fixes
  = (fixes ++ Layout.moves (ESTree.prop_range toNode) ms
     ++ [Fixer.replaceText (ESTree.prop_range toNode)
           (SourceCode.getText sc (ESTree.prop_range fromNode))])%list.
Proof.
  intros sc Hmap Htext. unfold Rule.moveProperty. fold sc.
  rewrite app_assoc. f_equal.
  revert ms fixes Hmap Htext.
  induction (SourceCode.getCommentsBefore sc (ESTree.prop_range fromNode))
    as [|tok toks IH]; intros [|m ms] fixes Hmap Htext;
    simpl in Hmap; try discriminate; simpl.
  - rewrite app_nil_r. reflexivity.
  - inversion Hmap as [[Hr Hrest]]. inversion Htext as [|? ? Hm Hms]; subst.
    rewrite (IH ms _ Hrest Hms). rewrite Hr, Hm.
    rewrite <- app_assoc. reflexivity.
Qed.

(** The Edit of a report whose previous node has the text [a], after the
    stretch [lp] and [up], and whose node has the text [b], after the stretch
    [ln] and [un] that follows [a]: the comments directly before each node
    are the comments of its stretch.  The Edit exchanges [a] and [b], and
    moves the comments of each stretch, each with a line break, before the
    text that takes the place of the other node. *)
Lemma edit_exchange (context : Rule.Context)
    (node prev : ESTree.PropertyNode)
    (lp ln : list (string * string)) (up a un b post : string) :
  let sc := Rule.sourceCode context in
  let P := String.length (Layout.weave lp up) in
  let Pe := (P + String.length a)%nat in
  let N := (Pe + String.length (Layout.weave ln un))%nat in
  SourceCode.text sc
  = Layout.weave lp up ++ a ++ Layout.weave ln un ++ b ++ post ->
  Layout.real lp -> Layout.real ln ->
  ESTree.prop_range prev = (P, Pe) ->
  ESTree.prop_range node = (N, (N + String.length b)%nat) ->
  map SourceCode.tok_range
      (SourceCode.getCommentsBefore sc (ESTree.prop_range prev))
  = map fst (Layout.marks 0 lp) ->
  map SourceCode.tok_range
      (SourceCode.getCommentsBefore sc (ESTree.prop_range node))
  = map fst (Layout.marks Pe ln) ->
  exists fixes,
    Rule.fix_ context node (Some prev) = Some fixes
    /\ Fixer.applyEdit (SourceCode.text sc) fixes
       = Some (Layout.without lp up ++ Layout.carried ln ++ b
               ++ Layout.without ln un ++ Layout.carried lp ++ a ++ post).
Proof.
  intros sc P Pe N Htext Hlp Hln Hrp Hrn Hcp Hcn.
  set (Ne := (N + String.length b)%nat) in *.
  set (T := SourceCode.text sc) in *.
  assert (Ea : SourceCode.getText sc (P, Pe) = a).
  { unfold SourceCode.getText. fold T. rewrite Htext. simpl.
    apply slice_at; reflexivity. }
  assert (ETn : T = (Layout.weave lp up ++ a) ++ Layout.weave ln un
                    ++ b ++ post)
    by (rewrite Htext, !append_assoc; reflexivity).
  assert (ELn : String.length (Layout.weave lp up ++ a) = Pe)
    by (rewrite length_append; reflexivity).
  assert (Eb : SourceCode.getText sc (N, Ne) = b).
  { unfold SourceCode.getText. fold T. rewrite Htext. simpl.
    rewrite <- (append_assoc a), <- (append_assoc (Layout.weave lp up)).
    apply slice_at; [|reflexivity].
    rewrite !length_append. unfold N, Pe, P. lia. }
  assert (HmP : Forall (fun m => SourceCode.getText sc (fst m) = snd m)
                       (Layout.marks 0 lp)).
  { unfold SourceCode.getText. fold T. rewrite Htext.
    exact (slice_marks lp up _ ""). }
  assert (HmN : Forall (fun m => SourceCode.getText sc (fst m) = snd m)
                       (Layout.marks Pe ln)).
  { unfold SourceCode.getText. fold T. rewrite ETn, <- ELn.
    apply slice_marks. }
  eexists. split; [reflexivity|].
  rewrite (moveProperty_marks context node prev [] _ Hcn HmN).
  rewrite (moveProperty_marks context prev node _ _ Hcp HmP).
  fold sc. rewrite Hrp, Hrn, Ea, Eb. simpl app at 1.
  assert (Hsort := sort_exchange P Pe N Ne ltac:(lia) ltac:(lia) ltac:(lia)
                     lp ln up un a b Hlp Hln ltac:(lia) ltac:(lia)).
  remember (Layout.removals (Layout.marks 0 lp)
            ++ (Layout.inserts (P, Pe) (Layout.marks Pe ln)
                ++ Fixer.replaceText (P, Pe) b
                :: Layout.removals (Layout.marks Pe ln))
            ++ Layout.inserts (N, Ne) (Layout.marks 0 lp)
            ++ [Fixer.replaceText (N, Ne) a])%list as sorted eqn:Es.
  destruct sorted as [|f rest].
  { exfalso. destruct (Layout.removals _); [|discriminate].
    destruct (Layout.inserts _ _); discriminate. }
  assert (Hchain : Layout.chain 0 (f :: rest)).
  { rewrite Es. apply (chain_removals lp up _ P); [|lia].
    rewrite <- app_assoc. apply chain_inserts; [|lia].
    simpl. split; [lia|]. split; [lia|].
    apply (chain_removals ln un _ N); [|lia].
    apply chain_inserts; [|lia].
    simpl. repeat split; lia. }
  rewrite (applyEdit_splice T _ f rest); [| |exact Hsort|exact Hchain].
  2:{ rewrite !length_app. simpl. lia. }
  f_equal. rewrite Es.
  assert (S1 := splice_removals lp up (a ++ Layout.weave ln un ++ b ++ post)
                  ((Layout.inserts (P, Pe) (Layout.marks Pe ln)
                    ++ Fixer.replaceText (P, Pe) b
                    :: Layout.removals (Layout.marks Pe ln))
                   ++ Layout.inserts (N, Ne) (Layout.marks 0 lp)
                   ++ [Fixer.replaceText (N, Ne) a])%list "").
  simpl in S1. rewrite <- Htext in S1. fold P in S1.
  rewrite S1; [|rewrite <- app_assoc; apply starts_inserts; reflexivity].
  f_equal. rewrite <- app_assoc. rewrite splice_inserts. f_equal.
  simpl. rewrite slice_empty. simpl. f_equal.
  assert (S2 := splice_removals ln un (b ++ post)
                  (Layout.inserts (N, Ne) (Layout.marks 0 lp)
                   ++ [Fixer.replaceText (N, Ne) a])%list
                  (Layout.weave lp up ++ a)).
  rewrite <- ETn, ELn in S2. fold N in S2.
  rewrite S2; [|apply starts_inserts; reflexivity].
  f_equal. rewrite splice_inserts. f_equal.
  simpl. rewrite slice_empty. simpl. f_equal.
  rewrite Htext.
  rewrite <- (append_assoc (Layout.weave ln un) b),
    <- (append_assoc a), <- (append_assoc (Layout.weave lp up)).
  replace Ne with (String.length
                     (Layout.weave lp up ++ a ++ Layout.weave ln un ++ b)).
  - apply slice_suffix.
  - rewrite !length_append. unfold Ne, N, Pe, P. lia.
Qed.

End ExchangeFacts.

(** ** What follows a spread member *)

Section MemberFacts.

Import ESTree Rule.

Context {R : Requirements}.
Variable context : Rule.Context.

(** After the listeners of a spread member of a literal and of its subtree,
    the current frame has no previous name; its previous node is the one it
    had. *)
Lemma after_spread (st0 st2 : State) (A : node) :
  reachable context st0 ->
  type A = TSpreadElement \/ type A = TExperimentalSpreadProperty ->
  well_formed TObjectExpression A = true ->
  run context (events TObjectExpression A) st0 = Some st2 ->
  exists top0 top upper,
    stack st0 = top0 :: upper
    /\ stack st2 = top :: upper
    /\ prevName top = None
    /\ prevNode top = prevNode top0
    /\ truthy (prevBlankLine top) = false.
Proof.
  intros Hreach HA W Hrun.
  pose proof (reachable_frame_ok context st0 Hreach) as Hok.
  assert (Hspread :
            forall parent' arg,
              NodeType_eqb parent' TObjectExpression = false ->
              well_formed parent' arg = true ->
              match SpreadElement TObjectExpression st0 with
              | Some st1 => run context (events parent' arg) st1
              | None => None
              end = Some st2 ->
              exists top0 top upper,
                stack st0 = top0 :: upper
                /\ stack st2 = top :: upper
                /\ prevName top = None
                /\ prevNode top = prevNode top0
                /\ truthy (prevBlankLine top) = false).
  { intros parent' arg Hp Wa Hr.
    unfold SpreadElement in Hr. simpl in Hr.
    destruct (stack st0) as [|top0 upper] eqn:Es0; [discriminate|].
    destruct (events_stack context arg _ _ _ Wa Hr) as [_ Q].
    rewrite (Q (no_frame_entry _ _ Wa Hp)). simpl.
    inversion Hok as [|? ? [Hf _] _]; subst.
    eexists _, _, _. repeat split; exact Hf. }
  destruct A as [| | |m arg|m arg| | |]; simpl in HA;
    try (destruct HA; discriminate).
  - exact (Hspread TSpreadElement arg eq_refl W Hrun).
  - exact (Hspread TExperimentalSpreadProperty arg eq_refl W Hrun).
Qed.

(** In a frame without a previous name the [Property] listener does not
    throw, when there is a token between the previous node, if any, and the
    node; and it makes no report. *)
Lemma Property_no_name_total (node : PropertyNode) (top : Frame)
    (upper : list Frame) (rs : list Report) :
  prevName top = None ->
  truthy (prevBlankLine top) = false ->
  (forall prev, prevNode top = Some prev ->
     SourceCode.getTokensBetween (sourceCode context)
       (prop_range prev) (prop_range node) <> []) ->
  exists st',
    Property context node {| stack := top :: upper; reports := rs |}
    = Some st'
    /\ reports st' = rs.
Proof.
  intros Hn Hflag Htok.
  assert (Hsome : exists st',
             Property context node {| stack := top :: upper; reports := rs |}
             = Some st').
  { unfold Property.
    destruct (NodeType_eqb _ _); [eauto|]. simpl.
    assert (Hb : exists f, blankLineBetweenNodes context top node = Some f).
    { destruct (prevNode top) as [prev|] eqn:Ep.
      - destruct (blankLineBetweenNodes_spec context top prev node Ep Hflag
                    (Htok prev eq_refl)) as (f & Ef & _). eauto.
      - unfold blankLineBetweenNodes. rewrite Ep. eauto. }
    destruct Hb as [f ->]. rewrite Hn. eauto. }
  destruct Hsome as [st' E]. exists st'. split; [exact E|].
  exact (Property_no_previous_name context node top upper rs st' Hn E).
Qed.

End MemberFacts.

(** ** Consecutive entries without line-separated groups *)

Lemma app_one_neq {A : Type} (l : list A) (x : A) : l <> l ++ [x].
Proof.
  intros H. apply (f_equal (@length A)) in H.
  rewrite length_app in H. simpl in H. lia.
Qed.

(** C2, the part that fails: in [{b: 1, [x()]: 2, a: 3}] the entry
    [[x()]: 2] has no resolvable name, so each of the two pairs of consecutive
    entries has one; yet the pair it forms with the entry [a: 3] that follows
    it is reported: the report is made at [a: 3], carries [[x()]: 2] as the
    previous node, and its Edit exchanges these two. *)
Lemma C2_counterexample :
  let context := Examples.ctx Examples.defaults Examples.file_computed in
  exists r A B,
    Rule.lint context Examples.tree_computed = Some [r]
    /\ Rule.entry_names Examples.literal_computed
       = [Some "b"; None; Some "a"]
    /\ Examples.as_entry Examples.entry_computed = Some A
    /\ Examples.as_entry Examples.entry_a_computed = Some B
    /\ getPropertyName A = None
    /\ getPropertyName B = Some "a"
    /\ Rule.r_node r = B
    /\ Rule.r_prevNode r = Some A
    /\ Rule.applied context r = Some "{b: 1, a: 3, [x()]: 2}".
Proof.
  do 3 eexists. split; [reflexivity|].
  repeat split; reflexivity.
Qed.

(** C2 (amended): without line-separated groups, for two consecutive members
    [A] then [B] of an object literal, [B] a key-value entry, with a token
    between [B] and the node the frame holds as the previous one ([A], when
    [A] is a key-value entry), visiting [B] does not throw.  When [B] has no
    resolvable name, no report is made at [B].  When [A] is a key-value
    entry and both have resolvable names, a report is made at [B], with [A]
    as the previous node, if and only if the active comparator rejects
    [(nameOf(A), nameOf(B))].  When [A] is a key-value entry without a
    resolvable name and [B] has one, [B] is compared with the previous name
    the frame had before [A]: no report if there was none, else a report at
    [B], with [A] as the previous node, exactly when the comparator rejects
    that name and the name of [B].  When [A] is a spread member, no report
    is made at [B].  And when [B] is a spread member, its listener makes no
    report. *)
Theorem C2_consecutive_named_entries (R : Requirements)
    (context : Rule.Context) (valid : string -> string -> bool)
    (st0 st2 : Rule.State) (A : ESTree.node) (B : ESTree.PropertyNode) :
  Rule.allowLineSeparatedGroups_on context = false ->
  Rule.isValidOrder context = Some valid ->
  Rule.reachable context st0 ->
  Rule.frame_entry ESTree.TObjectExpression A = true ->
  ESTree.well_formed ESTree.TObjectExpression A = true ->
  Rule.run context (Rule.events ESTree.TObjectExpression A) st0 = Some st2 ->
  ESTree.parent_type B = ESTree.TObjectExpression ->
  (forall top upper prev,
      Rule.stack st2 = top :: upper -> Rule.prevNode top = Some prev ->
      SourceCode.getTokensBetween (Rule.sourceCode context)
        (ESTree.prop_range prev) (ESTree.prop_range B) <> []) ->
  exists top0 upper st3,
    Rule.stack st0 = top0 :: upper
    /\ Rule.Property context B st2 = Some st3
    /\ (getPropertyName B = None -> Rule.reports st3 = Rule.reports st2)
    /\ (forall mA cA kA vA,
           A = ESTree.Property mA cA kA vA ->
           let A' := ESTree.property_of ESTree.TObjectExpression mA cA kA in
           (forall a b,
               getPropertyName A' = Some a -> getPropertyName B = Some b ->
               (valid a b = false
                <-> Rule.reports st3
                    = Rule.reports st2
                      ++ [Rule.report context B (Some A') b a])
               /\ (valid a b = true
                   <-> Rule.reports st3 = Rule.reports st2))
           /\ (getPropertyName A' = None -> Rule.prevName top0 = None ->
               Rule.reports st3 = Rule.reports st2)
           /\ (forall p b,
                  getPropertyName A' = None ->
                  Rule.prevName top0 = Some p ->
                  getPropertyName B = Some b ->
                  Rule.reports st3
                  = Rule.reports st2
                    ++ (if valid p b then []
                        else [Rule.report context B (Some A') b p])))
    /\ (ESTree.type A = ESTree.TSpreadElement
        \/ ESTree.type A = ESTree.TExperimentalSpreadProperty ->
        Rule.reports st3 = Rule.reports st2)
    /\ (forall parent st st',
           Rule.create context (Rule.On_SpreadElement parent) st = Some st'
           \/ Rule.create context (Rule.On_ExperimentalSpreadProperty parent)
                st = Some st' ->
           Rule.reports st' = Rule.reports st).
Proof.
  intros Hgroups Hvalid Hreach Hentry W Hrun HB Htok.
  assert (Hlast :
            forall parent st st',
              Rule.create context (Rule.On_SpreadElement parent) st = Some st'
              \/ Rule.create context
                   (Rule.On_ExperimentalSpreadProperty parent) st = Some st'
              -> Rule.reports st' = Rule.reports st).
  { intros parent st st' H.
    assert (E : Rule.SpreadElement parent st = Some st')
      by (destruct H as [H | H]; exact H).
    unfold Rule.SpreadElement in E.
    destruct (ESTree.NodeType_eqb parent ESTree.TObjectExpression);
      [destruct (Rule.stack st); [discriminate|]|];
      inversion E; reflexivity. }
  destruct A as [| |mA cA kA vA|m arg|m arg| | |];
    try discriminate Hentry.
  - destruct (after_entry context st0 st2 mA cA kA vA Hreach W Hrun)
      as (_ & top & upper' & _ & Es2 & Hprev & _).
    destruct (consecutive_entries context valid st0 st2 mA cA kA vA B
                Hvalid Hreach W Hrun HB (Htok top upper' _ Es2 Hprev))
      as (top0 & upper & st3 & Es0 & E3 & HnoneB & HnoneA & Hpair).
    exists top0, upper, st3.
    split; [exact Es0|]. split; [exact E3|]. split; [exact HnoneB|].
    split; [|split; [|exact Hlast]].
    + intros mA' cA' kA' vA' E A'. inversion E; subst mA' cA' kA' vA'.
      fold A' in HnoneA, Hpair.
      split; [|split].
      * intros a b Ha Hb. rewrite Ha in Hpair.
        destruct (Hpair a b eq_refl Hb) as [_ Hcmp].
        specialize (Hcmp (or_introl Hgroups)).
        destruct (valid a b); rewrite Hcmp.
        -- rewrite app_nil_r.
           split; split; try reflexivity; try discriminate.
           intros H. exfalso. exact (app_one_neq _ _ H).
        -- split; split; try reflexivity; try discriminate.
           intros H. exfalso. symmetry in H. exact (app_one_neq _ _ H).
      * exact HnoneA.
      * intros p b Ha Hp Hb. rewrite Ha in Hpair.
        destruct (Hpair p b Hp Hb) as [_ Hcmp].
        exact (Hcmp (or_introl Hgroups)).
    + simpl. intros [H | H]; discriminate.
  - destruct (after_spread context st0 st2 (ESTree.SpreadElement m arg)
                Hreach (or_introl eq_refl) W Hrun)
      as (top0 & top & upper & Es0 & Es2 & Hn & _ & Hflag).
    destruct st2 as [s2 rs2]. simpl in Es2. subst s2.
    destruct (Property_no_name_total context B top upper rs2 Hn Hflag
                (fun prev => Htok top upper prev eq_refl))
      as (st3 & E3 & Hrs).
    exists top0, upper, st3.
    split; [exact Es0|]. split; [exact E3|]. split; [intros _; exact Hrs|].
    split; [intros ? ? ? ? E; discriminate E|].
    split; [intros _; exact Hrs | exact Hlast].
  - destruct (after_spread context st0 st2
                (ESTree.ExperimentalSpreadProperty m arg)
                Hreach (or_intror eq_refl) W Hrun)
      as (top0 & top & upper & Es0 & Es2 & Hn & _ & Hflag).
    destruct st2 as [s2 rs2]. simpl in Es2. subst s2.
    destruct (Property_no_name_total context B top upper rs2 Hn Hflag
                (fun prev => Htok top upper prev eq_refl))
      as (st3 & E3 & Hrs).
    exists top0, upper, st3.
    split; [exact Es0|]. split; [exact E3|]. split; [intros _; exact Hrs|].
    split; [intros ? ? ? ? E; discriminate E|].
    split; [intros _; exact Hrs | exact Hlast].
Qed.

(** The theorem at the two entries of [{b: 1, a: 2}], from the state on
    entering the literal: a report at [a: 2]; and at the spread member and
    the entry [a: 2] of [{b: 1, ...x, a: 2}], from the state after [b: 1]:
    no report. *)
Lemma C2_witness :
  let context := Rule.default_context Examples.file_ba in
  let between := Rule.default_context Examples.file_spread_between in
  let text := Examples.text_spread_between in
  let b_between :=
    ESTree.property_of ESTree.TObjectExpression (Examples.at_ text 1 5) false
      (ESTree.Identifier (Examples.at_ text 1 2) "b") in
  let a_between :=
    ESTree.property_of ESTree.TObjectExpression (Examples.at_ text 13 17)
      false (ESTree.Identifier (Examples.at_ text 13 14) "a") in
  let spread :=
    ESTree.SpreadElement (Examples.at_ text 7 11)
      (ESTree.Identifier (Examples.at_ text 10 11) "x") in
  let after_b :=
    {| Rule.stack := [ {| Rule.prevName := Some "b";
                          Rule.prevNode := Some b_between;
                          Rule.prevBlankLine := Rule.Undefined |} ];
       Rule.reports := [] |} in
  let after_x :=
    {| Rule.stack := [ {| Rule.prevName := None;
                          Rule.prevNode := Some b_between;
                          Rule.prevBlankLine := Rule.Undefined |} ];
       Rule.reports := [] |} in
  (Rule.allowLineSeparatedGroups_on context = false
   /\ Rule.isValidOrder context = Some asc
   /\ Rule.run context
        (Rule.events ESTree.TObjectExpression
           (ESTree.Property (Examples.at_ Examples.text_ba 1 5) false
              Examples.key_b_ba Examples.value_b_ba))
        Examples.state_in_literal
      = Some Examples.state_after_b_ba
   /\ getPropertyName Examples.prop_b_ba = Some "b"
   /\ getPropertyName Examples.prop_a_ba = Some "a"
   /\ asc "b" "a" = false
   /\ exists st3,
        Rule.Property context Examples.prop_a_ba Examples.state_after_b_ba
        = Some st3
        /\ Rule.reports st3
           = Rule.reports Examples.state_after_b_ba
             ++ [Rule.report context Examples.prop_a_ba
                   (Some Examples.prop_b_ba) "a" "b"])
  /\ (Rule.run between (Rule.events ESTree.TObjectExpression spread) after_b
      = Some after_x
      /\ getPropertyName a_between = Some "a"
      /\ exists st3,
           Rule.Property between a_between after_x = Some st3
           /\ Rule.reports st3 = Rule.reports after_x).
Proof.
  intros context between text b_between a_between spread after_b
    after_x.
  split.
  - split; [reflexivity|]. split; [reflexivity|]. split; [reflexivity|].
    split; [reflexivity|]. split; [reflexivity|]. split; [reflexivity|].
    destruct (C2_consecutive_named_entries spec_requirements context asc
                Examples.state_in_literal Examples.state_after_b_ba
                (ESTree.Property (Examples.at_ Examples.text_ba 1 5) false
                   Examples.key_b_ba Examples.value_b_ba)
                Examples.prop_a_ba)
      as (top0 & upper & st3 & _ & E3 & _ & Hpair & _).
    + reflexivity.
    + reflexivity.
    + apply (Rule.reachable_step context Rule.On_ObjectExpression
               Rule.initial Examples.state_in_literal).
      * apply Rule.reachable_initial.
      * reflexivity.
    + reflexivity.
    + reflexivity.
    + reflexivity.
    + reflexivity.
    + intros top upper' prev Es Ep. simpl in Es. inversion Es; subst top.
      simpl in Ep. inversion Ep; subst prev. vm_compute. discriminate.
    + exists st3. split; [exact E3|].
      apply (proj1 (Hpair _ _ _ _ eq_refl) "b" "a"); reflexivity.
  - split; [reflexivity|]. split; [reflexivity|].
    destruct (C2_consecutive_named_entries spec_requirements between asc
                after_b after_x spread a_between)
      as (top0 & upper & st3 & _ & E3 & _ & _ & Hspread & _).
    + reflexivity.
    + reflexivity.
    + apply (Rule.reachable_step between (Rule.On_Property b_between)
               Examples.state_in_literal after_b).
      * apply (Rule.reachable_step between Rule.On_ObjectExpression
                 Rule.initial Examples.state_in_literal).
        -- apply Rule.reachable_initial.
        -- reflexivity.
      * reflexivity.
    + reflexivity.
    + reflexivity.
    + reflexivity.
    + reflexivity.
    + intros top upper' prev Es Ep. simpl in Es. inversion Es; subst top.
      simpl in Ep. inversion Ep; subst prev. vm_compute. discriminate.
    + exists st3. split; [exact E3|].
      apply Hspread. left. reflexivity.
Defined.

(** ** What an Edit achieves *)

(** C3, as stated, fails: the pass over [{b: 1, c: 2, a: 3}] under the
    default configuration proposes one Edit; applied, it gives
    [{b: 1, a: 3, c: 2}], where [b] is followed by [a], and a pass over this
    text reports again. *)
Lemma C3_counterexample :
  exists r,
    Rule.lint (Rule.default_context Examples.file_bca) Examples.tree_bca
    = Some [r]
    /\ Rule.applied (Rule.default_context Examples.file_bca) r
       = Some Examples.text_bac
    /\ SourceCode.text Examples.file_bac = Examples.text_bac
    /\ Rule.entry_names Examples.literal_bac = [Some "b"; Some "a"; Some "c"]
    /\ asc "b" "a" = false
    /\ exists r',
         Rule.lint (Rule.default_context Examples.file_bac) Examples.tree_bac
         = Some [r'].
Proof.
  eexists. split; [reflexivity|].
  repeat split; try reflexivity.
  eexists. reflexivity.
Qed.

(** C3 (amended): under the default configuration (ascending order, given
    or not, and no options object), a report appended by the listener is the
    descriptor made of the node, of the previous node and the previous name
    the frame held, and of the name of the node; this name comes strictly
    before that previous name, and the previous node has the previous name
    or none.  Applying the Edit exchanges the texts of the previous node and
    of the node; the comments directly before the node, which lie between
    the two, leave their places and come, each with a line break, before the
    text of the node at its new place, and those directly before the
    previous node come likewise before the text of the previous node at its
    new place; the rest of the text is kept.  So the two exchanged entries
    are in order where both are named; other pairs of the literal may still
    be out of order. *)
Theorem C3_swap_is_local (R : Requirements) (context : Rule.Context)
    (st st' : Rule.State) (node : ESTree.PropertyNode) (r : Rule.Report) :
  let sc := Rule.sourceCode context in
  Rule.options0 (Rule.options context) = None
  \/ Rule.options0 (Rule.options context) = Some "asc" ->
  Rule.options1 (Rule.options context) = None ->
  Rule.reachable context st ->
  Rule.Property context node st = Some st' ->
  Rule.reports st' = Rule.reports st ++ [r] ->
  exists top upper prev thisName prevName,
    Rule.stack st = top :: upper
    /\ Rule.prevName top = Some prevName
    /\ Rule.prevNode top = Some prev
    /\ getPropertyName node = Some thisName
    /\ (getPropertyName prev = Some prevName \/ getPropertyName prev = None)
    /\ r = Rule.report context node (Some prev) thisName prevName
    /\ asc prevName thisName = false
    /\ asc thisName prevName = true
    /\ thisName <> prevName
    /\ forall (lp ln : list (string * string)) (up a un b post : string),
         let P := String.length (Layout.weave lp up) in
         let Pe := (P + String.length a)%nat in
         let N := (Pe + String.length (Layout.weave ln un))%nat in
         SourceCode.text sc
         = (Layout.weave lp up ++ a ++ Layout.weave ln un ++ b ++ post)%string
         ->
         Layout.real lp -> Layout.real ln ->
         ESTree.prop_range prev = (P, Pe) ->
         ESTree.prop_range node = (N, (N + String.length b)%nat) ->
         map SourceCode.tok_range
             (SourceCode.getCommentsBefore sc (ESTree.prop_range prev))
         = map fst (Layout.marks 0 lp) ->
         map SourceCode.tok_range
             (SourceCode.getCommentsBefore sc (ESTree.prop_range node))
         = map fst (Layout.marks Pe ln) ->
         Rule.applied context r
         = Some (Layout.without lp up ++ Layout.carried ln ++ b
                 ++ Layout.without ln un ++ Layout.carried lp ++ a
                 ++ post)%string.
Proof.
  intros sc Horder Hoptions Hreach HP Hrep.
  assert (Hgroups : Rule.allowLineSeparatedGroups_on context = false).
  { unfold Rule.allowLineSeparatedGroups_on. rewrite Hoptions. reflexivity. }
  assert (Hvalid : Rule.isValidOrder context = Some asc).
  { unfold Rule.isValidOrder, Rule.order, Rule.insensitive, Rule.natual.
    rewrite Hoptions. destruct Horder as [-> | ->]; reflexivity. }
  pose proof (reachable_frame_ok context st Hreach) as Hok.
  unfold Rule.Property in HP.
  destruct (ESTree.NodeType_eqb _ _).
  { inversion HP; subst. exfalso. exact (app_one_neq _ _ Hrep). }
  destruct (Rule.stack st) as [|top upper]; [discriminate|].
  inversion Hok as [|? ? [_ Hprev] _]; subst.
  destruct (Rule.blankLineBetweenNodes context top node) as [f|];
    [|discriminate].
  rewrite Hgroups, Hvalid in HP.
  destruct (Rule.prevName top) as [p|] eqn:Ep;
    destruct (getPropertyName node) as [t|] eqn:Et; simpl in HP;
    try (inversion HP; subst; exfalso; exact (app_one_neq _ _ Hrep)).
  destruct (asc p t) eqn:Ecmp; simpl in HP; inversion HP; subst; clear HP;
    simpl in Hrep.
  { exfalso. exact (app_one_neq _ _ Hrep). }
  apply app_inv_head in Hrep. inversion Hrep; subst r; clear Hrep.
  destruct (Hprev p eq_refl) as (prev & Eprev & Hname).
  exists top, upper, prev, t, p.
  split; [reflexivity|]. split; [exact Ep|]. split; [exact Eprev|].
  split; [reflexivity|]. split; [tauto|].
  split; [rewrite Eprev; reflexivity|]. split; [exact Ecmp|].
  split; [apply asc_total; exact Ecmp|].
  split; [intros E; exact (asc_false_neq p t Ecmp (eq_sym E))|].
  intros lp ln up a un b post P Pe N Htext Hlp Hln Hrp Hrn Hcp Hcn.
  destruct (edit_exchange context node prev lp ln up a un b post
              Htext Hlp Hln Hrp Hrn Hcp Hcn) as (fixes & Efix & Eedit).
  unfold Rule.applied. simpl Rule.r_node. simpl Rule.r_prevNode.
  rewrite Eprev, Efix. exact Eedit.
Qed.

(** The theorem at the report made on [a: 2] in [{b: 1, /* x */ a: 2}]: no
    comment before [b: 1], which follows [{]; before [a: 2], the comment
    [/* x */] after [, ] and a blank after it.  The Edit gives [{/* x */], a
    line break, and [a: 2,  b: 1}]. *)
Lemma C3_witness :
  let context := Rule.default_context PassExamples.file_commented in
  let top := {| Rule.prevName := Some "b";
                Rule.prevNode := Some PassExamples.prop_b_commented;
                Rule.prevBlankLine := Rule.Undefined |} in
  let st := {| Rule.stack := [top]; Rule.reports := [] |} in
  let r := Rule.report context PassExamples.prop_a_commented
             (Some PassExamples.prop_b_commented) "a" "b" in
  let st' := {| Rule.stack :=
                  [ {| Rule.prevName := Some "a";
                       Rule.prevNode := Some PassExamples.prop_a_commented;
                       Rule.prevBlankLine := Rule.Undefined |} ];
                Rule.reports := [r] |} in
  Rule.reachable context st
  /\ Rule.Property context PassExamples.prop_a_commented st = Some st'
  /\ Rule.reports st' = Rule.reports st ++ [r]
  /\ asc "b" "a" = false
  /\ asc "a" "b" = true
  /\ Rule.applied context r
     = Some ("{" ++ "/* x */" ++ Rule.newline ++ "a: 2" ++ ", " ++ " "
             ++ "b: 1" ++ "}")%string.
Proof.
  intros context top st r st'.
  assert (Hreach : Rule.reachable context st).
  { apply (Rule.reachable_step context
             (Rule.On_Property PassExamples.prop_b_commented)
             Examples.state_in_literal st).
    - apply (Rule.reachable_step context Rule.On_ObjectExpression
               Rule.initial Examples.state_in_literal).
      + apply Rule.reachable_initial.
      + reflexivity.
    - reflexivity. }
  split; [exact Hreach|].
  split; [reflexivity|]. split; [reflexivity|].
  destruct (C3_swap_is_local spec_requirements context st st'
              PassExamples.prop_a_commented r
              (or_introl eq_refl) eq_refl Hreach eq_refl eq_refl)
    as (top' & upper & prev & thisName & prevName & Estack & Ep & Eprev & Et
        & _ & _ & Hcmp & Hcmp' & _ & Htext).
  simpl in Estack, Et. inversion Estack; subst top' upper.
  simpl in Ep, Eprev. inversion Ep; subst prevName.
  inversion Eprev; subst prev. inversion Et; subst thisName.
  split; [exact Hcmp|]. split; [exact Hcmp'|].
  apply (Htext [] [(", ", "/* x */")] "{" "b: 1" " " "a: 2" "}");
    try reflexivity.
  - constructor.
  - constructor; [simpl; lia | constructor].
Defined.

(** ** Line-separated groups *)

(** C4: with [allowLineSeparatedGroups] on, for two consecutive members [A]
    then [B] of an object literal, [B] a key-value entry, with a token
    between [B] and the node the frame holds as the previous one, visiting
    [B] does not throw.  When [A] is a key-value entry, [B] has a name and
    the frame has a previous name (the name of [A], or the one held before
    [A] when [A] has none), then, with the tokens and comments between [A]
    and [B]: no report is made whatever the comparator says when there is a
    qualifying blank line (two adjacent tokens, or [A] and the first token,
    or the last token and [B], more than one line apart), and otherwise a
    report is made exactly when the comparator rejects the previous name and
    the name of [B].  Without a name for [B], or without a previous name (no
    name before [A], or [A] a spread member), no report is made, blank line
    or not.  So [{ b: 1, a: 2 }] gets one report, for [a] after [b], and
    the same entries with a blank line between them get none; and
    [{b: 1, [x()]: 2, a: 3}] gets one report at [a: 3], and none with a
    blank line before [a: 3]. *)
Theorem C4_line_separated_groups :
  (forall (R : Requirements) (context : Rule.Context)
          (valid : string -> string -> bool) (st0 st2 : Rule.State)
          (A : ESTree.node) (B : ESTree.PropertyNode),
      Rule.allowLineSeparatedGroups_on context = true ->
      Rule.isValidOrder context = Some valid ->
      Rule.reachable context st0 ->
      Rule.frame_entry ESTree.TObjectExpression A = true ->
      ESTree.well_formed ESTree.TObjectExpression A = true ->
      Rule.run context (Rule.events ESTree.TObjectExpression A) st0
      = Some st2 ->
      ESTree.parent_type B = ESTree.TObjectExpression ->
      (forall top upper prev,
          Rule.stack st2 = top :: upper -> Rule.prevNode top = Some prev ->
          SourceCode.getTokensBetween (Rule.sourceCode context)
            (ESTree.prop_range prev) (ESTree.prop_range B) <> []) ->
      exists top0 upper st3,
        Rule.stack st0 = top0 :: upper
        /\ Rule.Property context B st2 = Some st3
        /\ (getPropertyName B = None -> Rule.reports st3 = Rule.reports st2)
        /\ (forall mA cA kA vA,
               A = ESTree.Property mA cA kA vA ->
               let A' :=
                 ESTree.property_of ESTree.TObjectExpression mA cA kA in
               let tokens :=
                 SourceCode.getTokensBetween (Rule.sourceCode context)
                   (ESTree.prop_range A') (ESTree.prop_range B) in
               (forall p b,
                   match getPropertyName A' with
                   | Some a => Some a
                   | None => Rule.prevName top0
                   end = Some p ->
                   getPropertyName B = Some b ->
                   (Rule.qualifying_blank_line A' B tokens ->
                    Rule.reports st3 = Rule.reports st2)
                   /\ (~ Rule.qualifying_blank_line A' B tokens ->
                       Rule.reports st3
                       = Rule.reports st2
                         ++ (if valid p b then []
                             else [Rule.report context B (Some A') b p])))
               /\ (getPropertyName A' = None ->
                   Rule.prevName top0 = None ->
                   Rule.reports st3 = Rule.reports st2))
        /\ (ESTree.type A = ESTree.TSpreadElement
            \/ ESTree.type A = ESTree.TExperimentalSpreadProperty ->
            Rule.reports st3 = Rule.reports st2))
  /\ (exists r,
         Rule.lint (Examples.ctx Examples.grouped Examples.file_ba_flat)
           Examples.tree_ba_flat = Some [r]
         /\ Rule.formatted r
            = "Expected object keys to be in ascending order. 'a' should be before 'b'.")
  /\ Rule.lint (Examples.ctx Examples.grouped Examples.file_ba_blank)
       Examples.tree_ba_blank = Some []
  /\ (exists r,
         Rule.lint (Examples.ctx Examples.grouped Examples.file_computed)
           Examples.tree_computed = Some [r]
         /\ Examples.as_entry Examples.entry_a_computed = Some (Rule.r_node r)
         /\ Rule.formatted r
            = "Expected object keys to be in ascending order. 'a' should be before 'b'.")
  /\ Rule.lint
       (Examples.ctx Examples.grouped GroupExamples.file_computed_blank)
       GroupExamples.tree_computed_blank = Some [].
Proof.
  split;
    [|split; [eexists; split; reflexivity|];
      split; [reflexivity|];
      split; [eexists; repeat split; reflexivity | reflexivity]].
  intros R context valid st0 st2 A B
         Hgroups Hvalid Hreach Hentry W Hrun HB Htok.
  destruct A as [| |mA cA kA vA|m arg|m arg| | |];
    try discriminate Hentry.
  - destruct (after_entry context st0 st2 mA cA kA vA Hreach W Hrun)
      as (_ & top & upper' & _ & Es2 & Hprev & _).
    destruct (consecutive_entries context valid st0 st2 mA cA kA vA B
                Hvalid Hreach W Hrun HB (Htok top upper' _ Es2 Hprev))
      as (top0 & upper & st3 & Es0 & E3 & HnoneB & HnoneA & Hpair).
    exists top0, upper, st3.
    split; [exact Es0|]. split; [exact E3|]. split; [exact HnoneB|].
    split.
    + intros mA' cA' kA' vA' E A' tokens. inversion E; subst mA' cA' kA' vA'.
      fold A' in HnoneA, Hpair. fold tokens in Hpair.
      split; [|exact HnoneA].
      intros p b Hp Hb. destruct (Hpair p b Hp Hb) as [Hgap Hcmp].
      split; [exact (Hgap Hgroups) | intros Hn; apply Hcmp; right; exact Hn].
    + simpl. intros [H | H]; discriminate.
  - destruct (after_spread context st0 st2 (ESTree.SpreadElement m arg)
                Hreach (or_introl eq_refl) W Hrun)
      as (top0 & top & upper & Es0 & Es2 & Hn & _ & Hflag).
    destruct st2 as [s2 rs2]. simpl in Es2. subst s2.
    destruct (Property_no_name_total context B top upper rs2 Hn Hflag
                (fun prev => Htok top upper prev eq_refl))
      as (st3 & E3 & Hrs).
    exists top0, upper, st3.
    split; [exact Es0|]. split; [exact E3|]. split; [intros _; exact Hrs|].
    split; [intros ? ? ? ? E; discriminate E | intros _; exact Hrs].
  - destruct (after_spread context st0 st2
                (ESTree.ExperimentalSpreadProperty m arg)
                Hreach (or_intror eq_refl) W Hrun)
      as (top0 & top & upper & Es0 & Es2 & Hn & _ & Hflag).
    destruct st2 as [s2 rs2]. simpl in Es2. subst s2.
    destruct (Property_no_name_total context B top upper rs2 Hn Hflag
                (fun prev => Htok top upper prev eq_refl))
      as (st3 & E3 & Hrs).
    exists top0, upper, st3.
    split; [exact Es0|]. split; [exact E3|]. split; [intros _; exact Hrs|].
    split; [intros ? ? ? ? E; discriminate E | intros _; exact Hrs].
Qed.

(** The theorem at the two entries of [{ b: 1,], an empty line, [ a: 2 }]:
    the comma ends on line 1 and [a] starts on line 3; and at the entries
    [[x()]: 2] and [a: 3] of [{b: 1, [x()]: 2,], an empty line, [ a: 3}],
    where the frame holds the name [b]. *)
Lemma C4_witness :
  let context := Examples.ctx Examples.grouped Examples.file_ba_blank in
  let tokens :=
    SourceCode.getTokensBetween Examples.file_ba_blank
      (ESTree.prop_range Examples.prop_b_blank)
      (ESTree.prop_range Examples.prop_a_blank) in
  let computed :=
    Examples.ctx Examples.grouped GroupExamples.file_computed_blank in
  let tokens_computed :=
    SourceCode.getTokensBetween GroupExamples.file_computed_blank
      (ESTree.prop_range GroupExamples.prop_computed_blank)
      (ESTree.prop_range GroupExamples.prop_a_computed_blank) in
  (Rule.allowLineSeparatedGroups_on context = true
   /\ tokens = [Examples.tk Examples.text_ba_blank SourceCode.Punctuator 6 7]
   /\ Rule.qualifying_blank_line Examples.prop_b_blank Examples.prop_a_blank
        tokens
   /\ asc "b" "a" = false
   /\ exists st3,
        Rule.Property context Examples.prop_a_blank
          Examples.state_after_b_blank = Some st3
        /\ (Rule.qualifying_blank_line Examples.prop_b_blank
              Examples.prop_a_blank tokens ->
            Rule.reports st3 = Rule.reports Examples.state_after_b_blank)
        /\ (~ Rule.qualifying_blank_line Examples.prop_b_blank
                Examples.prop_a_blank tokens ->
            Rule.reports st3
            = Rule.reports Examples.state_after_b_blank
              ++ (if asc "b" "a" then []
                  else [Rule.report context Examples.prop_a_blank
                          (Some Examples.prop_b_blank) "a" "b"])))
  /\ (Rule.run computed
        (Rule.events ESTree.TObjectExpression
           GroupExamples.entry_computed_blank)
        GroupExamples.state_after_b_computed_blank
      = Some GroupExamples.state_after_computed_blank
      /\ getPropertyName GroupExamples.prop_computed_blank = None
      /\ getPropertyName GroupExamples.prop_a_computed_blank = Some "a"
      /\ tokens_computed
         = [Examples.tk GroupExamples.text_computed_blank
              SourceCode.Punctuator 15 16]
      /\ Rule.qualifying_blank_line GroupExamples.prop_computed_blank
           GroupExamples.prop_a_computed_blank tokens_computed
      /\ exists st3,
           Rule.Property computed GroupExamples.prop_a_computed_blank
             GroupExamples.state_after_computed_blank = Some st3
           /\ Rule.reports st3
              = Rule.reports GroupExamples.state_after_computed_blank).
Proof.
  intros context tokens computed tokens_computed.
  split.
  - split; [reflexivity|]. split; [reflexivity|].
    assert (Hblank : Rule.qualifying_blank_line Examples.prop_b_blank
                       Examples.prop_a_blank tokens).
    { right. left.
      exists (Examples.tk Examples.text_ba_blank SourceCode.Punctuator 6 7).
      split; [reflexivity | vm_compute; reflexivity]. }
    split; [exact Hblank|]. split; [reflexivity|].
    destruct (proj1 C4_line_separated_groups spec_requirements context asc
                Examples.state_in_literal Examples.state_after_b_blank
                (ESTree.Property (Examples.at_ Examples.text_ba_blank 2 6)
                   false Examples.key_b_blank Examples.value_b_blank)
                Examples.prop_a_blank)
      as (top0 & upper & st3 & _ & E3 & _ & Hpair & _).
    + reflexivity.
    + reflexivity.
    + apply (Rule.reachable_step context Rule.On_ObjectExpression
               Rule.initial Examples.state_in_literal).
      * apply Rule.reachable_initial.
      * reflexivity.
    + reflexivity.
    + reflexivity.
    + reflexivity.
    + reflexivity.
    + intros top upper' prev Es Ep. simpl in Es. inversion Es; subst top.
      simpl in Ep. inversion Ep; subst prev. vm_compute. discriminate.
    + exists st3. split; [exact E3|].
      exact (proj1 (Hpair _ _ _ _ eq_refl) "b" "a" eq_refl eq_refl).
  - split; [reflexivity|]. split; [reflexivity|]. split; [reflexivity|].
    split; [reflexivity|].
    assert (Hblank : Rule.qualifying_blank_line
                       GroupExamples.prop_computed_blank
                       GroupExamples.prop_a_computed_blank tokens_computed).
    { right. left.
      exists (Examples.tk GroupExamples.text_computed_blank
                SourceCode.Punctuator 15 16).
      split; [reflexivity | vm_compute; reflexivity]. }
    split; [exact Hblank|].
    destruct (proj1 C4_line_separated_groups spec_requirements computed asc
                GroupExamples.state_after_b_computed_blank
                GroupExamples.state_after_computed_blank
                GroupExamples.entry_computed_blank
                GroupExamples.prop_a_computed_blank)
      as (top0 & upper & st3 & Es0 & E3 & _ & Hpair & _).
    + reflexivity.
    + reflexivity.
    + apply (Rule.reachable_step computed
               (Rule.On_Property GroupExamples.prop_b_computed_blank)
               Examples.state_in_literal
               GroupExamples.state_after_b_computed_blank).
      * apply (Rule.reachable_step computed Rule.On_ObjectExpression
                 Rule.initial Examples.state_in_literal).
        -- apply Rule.reachable_initial.
        -- reflexivity.
      * reflexivity.
    + reflexivity.
    + reflexivity.
    + reflexivity.
    + reflexivity.
    + intros top upper' prev Es Ep. simpl in Es. inversion Es; subst top.
      simpl in Ep. inversion Ep; subst prev. vm_compute. discriminate.
    + exists st3. split; [exact E3|].
      simpl in Es0. inversion Es0; subst top0 upper.
      exact (proj1 (proj1 (Hpair _ _ _ _ eq_refl) "b" "a" eq_refl eq_refl)
               Hblank).
Defined.

(** ** Spread members *)

(** C5, the example as stated, fails: in [{...x, b: 1, a: 2}] the spread
    comes before both entries, so [a] is compared with [b] and the pass
    reports it. *)
Lemma C5_counterexample :
  exists r,
    Rule.lint (Examples.ctx Examples.defaults Examples.file_spread_first)
      Examples.tree_spread_first = Some [r]
    /\ Rule.formatted r
       = "Expected object keys to be in ascending order. 'a' should be before 'b'.".
Proof. eexists. split; reflexivity. Qed.

(** C5 (amended): the listener of a spread member whose parent is an object
    literal, under either of its two names, sets the previous name of the
    current frame to unset and changes nothing else: previous node, flag,
    the frames above and the reports stay; with another parent it changes
    nothing.  So [{b: 1, ...x, a: 2}], where the spread stands between the
    two entries, gets no report, while [{...x, b: 1, a: 2}] gets the one for
    [a] after [b]. *)
Theorem C5_spread_resets_previous_name :
  (forall (R : Requirements) (context : Rule.Context) (top : Rule.Frame)
          (upper : list Rule.Frame) (rs : list Rule.Report),
      let st := {| Rule.stack := top :: upper; Rule.reports := rs |} in
      let st' :=
        {| Rule.stack :=
             {| Rule.prevName := None;
                Rule.prevNode := Rule.prevNode top;
                Rule.prevBlankLine := Rule.prevBlankLine top |} :: upper;
           Rule.reports := rs |} in
      Rule.create context (Rule.On_SpreadElement ESTree.TObjectExpression) st
      = Some st'
      /\ Rule.create context
           (Rule.On_ExperimentalSpreadProperty ESTree.TObjectExpression) st
         = Some st')
  /\ (forall (R : Requirements) (context : Rule.Context)
             (parent : ESTree.NodeType) (st : Rule.State),
         ESTree.NodeType_eqb parent ESTree.TObjectExpression = false ->
         Rule.create context (Rule.On_SpreadElement parent) st = Some st)
  /\ Rule.lint (Examples.ctx Examples.defaults Examples.file_spread_between)
       Examples.tree_spread_between = Some []
  /\ exists r,
       Rule.lint (Examples.ctx Examples.defaults Examples.file_spread_first)
         Examples.tree_spread_first = Some [r]
       /\ Rule.formatted r
          = "Expected object keys to be in ascending order. 'a' should be before 'b'.".
Proof.
  split; [intros; split; reflexivity|].
  split.
  - intros R context parent st Hp. simpl. unfold Rule.SpreadElement.
    rewrite Hp. reflexivity.
  - split; [reflexivity|]. eexists. split; reflexivity.
Qed.

(** A spread member under a parent that is not an object literal. *)
Lemma C5_witness :
  ESTree.NodeType_eqb ESTree.TOther ESTree.TObjectExpression = false
  /\ Rule.create (Rule.default_context Examples.file_spread_first)
       (Rule.On_SpreadElement ESTree.TOther) Examples.state_after_b_ba
     = Some Examples.state_after_b_ba.
Proof.
  split; [reflexivity|].
  apply (proj1 (proj2 C5_spread_resets_previous_name) spec_requirements
           (Rule.default_context Examples.file_spread_first)
           ESTree.TOther Examples.state_after_b_ba).
  reflexivity.
Defined.

(** ** Destructuring patterns *)

(** C9: an entry whose parent is an object pattern leaves the state of the
    traversal as it is, stack and reports, whatever the configuration and
    whatever the state; so [const {b, a} = obj;] gets no report under any
    options. *)
Theorem C9_patterns_are_skipped :
  (forall (R : Requirements) (context : Rule.Context)
          (node : ESTree.PropertyNode) (st : Rule.State),
      ESTree.parent_type node = ESTree.TObjectPattern ->
      Rule.Property context node st = Some st)
  /\ (forall (R : Requirements) (options : Rule.ContextOptions),
         Rule.lint (Examples.ctx options Examples.file_destructuring)
           Examples.tree_destructuring = Some []).
Proof.
  split.
  - intros R context node st Hp. unfold Rule.Property. rewrite Hp.
    reflexivity.
  - intros R options. reflexivity.
Qed.

(** The entry [b] of the pattern of [const {b, a} = obj;], with no frame on
    the stack. *)
Lemma C9_witness :
  let node :=
    ESTree.property_of ESTree.TObjectPattern
      (Examples.at_ Examples.text_destructuring 7 8) false
      (ESTree.Identifier (Examples.at_ Examples.text_destructuring 7 8) "b")
  in
  ESTree.parent_type node = ESTree.TObjectPattern
  /\ Rule.Property
       (Examples.ctx Examples.grouped Examples.file_destructuring)
       node Rule.initial = Some Rule.initial.
Proof.
  intros node. split; [reflexivity|].
  apply (proj1 C9_patterns_are_skipped spec_requirements
           (Examples.ctx Examples.grouped Examples.file_destructuring)
           node Rule.initial).
  reflexivity.
Defined.

(** ** The carried blank-line flag *)

(** C10: in every state of a traversal no frame carries a true flag; a call
    of the [Property] listener leaves the flag of the current frame as it was
    or stores [false] in it; and the listener's [isBlankLineBetweenNodes] can
    only be true when the frame has a previous node and there is a qualifying
    blank line among the tokens between that node and the one visited. *)
Theorem C10_carried_flag_never_true (R : Requirements)
    (context : Rule.Context) (st : Rule.State) :
  Rule.reachable context st ->
  Forall (fun fr => Rule.truthy (Rule.prevBlankLine fr) = false)
         (Rule.stack st)
  /\ (forall node st',
         Rule.Property context node st = Some st' ->
         ESTree.NodeType_eqb (ESTree.parent_type node) ESTree.TObjectPattern
         = false ->
         exists top upper top',
           Rule.stack st = top :: upper /\ Rule.stack st' = top' :: upper
           /\ (Rule.prevBlankLine top' = Rule.prevBlankLine top
               \/ Rule.prevBlankLine top' = Rule.Flag false))
  /\ (forall top upper node f,
         Rule.stack st = top :: upper ->
         Rule.blankLineBetweenNodes context top node = Some f ->
         Rule.truthy f = true ->
         exists prev,
           Rule.prevNode top = Some prev
           /\ Rule.qualifying_blank_line prev node
                (SourceCode.getTokensBetween (Rule.sourceCode context)
                   (ESTree.prop_range prev) (ESTree.prop_range node))).
Proof.
  intros Hreach.
  pose proof (reachable_frame_ok context st Hreach) as Hok.
  split; [|split].
  - eapply Forall_impl; [|exact Hok]. intros fr [Hf _]. exact Hf.
  - intros node st' HP Hparent.
    destruct (Property_frame context node st st' Hparent HP)
      as (top & upper & top' & Es & Es' & _ & _ & Hflag).
    exists top, upper, top'. auto.
  - intros top upper node f Es Hb Ht.
    rewrite Es in Hok. inversion Hok as [|? ? [Hf _] _]; subst.
    destruct (Rule.prevNode top) as [prev|] eqn:Ep.
    + exists prev. split; [reflexivity|].
      destruct (SourceCode.getTokensBetween (Rule.sourceCode context)
                  (ESTree.prop_range prev) (ESTree.prop_range node))
        as [|tok rest] eqn:Etok.
      * unfold Rule.blankLineBetweenNodes in Hb.
        rewrite Ep, Etok in Hb. simpl in Hb. rewrite Hf in Hb.
        discriminate.
      * destruct (blankLineBetweenNodes_spec context top prev node Ep Hf)
          as (f' & Ef' & Hspec).
        { rewrite Etok. discriminate. }
        rewrite Hb in Ef'. inversion Ef'; subst f'.
        rewrite Etok in Hspec. apply Hspec. exact Ht.
    + unfold Rule.blankLineBetweenNodes in Hb. rewrite Ep in Hb.
      inversion Hb; subst. congruence.
Qed.

(** The theorem at the state reached once [b: 1] of the literal with a blank
    line has been visited. *)
Lemma C10_witness :
  let context := Examples.ctx Examples.grouped Examples.file_ba_blank in
  Rule.reachable context Examples.state_after_b_blank
  /\ Rule.blankLineBetweenNodes context
       {| Rule.prevName := Some "b";
          Rule.prevNode := Some Examples.prop_b_blank;
          Rule.prevBlankLine := Rule.Undefined |}
       Examples.prop_a_blank = Some (Rule.Flag true)
  /\ Forall (fun fr => Rule.truthy (Rule.prevBlankLine fr) = false)
            (Rule.stack Examples.state_after_b_blank)
  /\ exists prev,
       Some Examples.prop_b_blank = Some prev
       /\ Rule.qualifying_blank_line prev Examples.prop_a_blank
            (SourceCode.getTokensBetween Examples.file_ba_blank
               (ESTree.prop_range prev)
               (ESTree.prop_range Examples.prop_a_blank)).
Proof.
  intros context.
  assert (Hreach : Rule.reachable context Examples.state_after_b_blank).
  { apply (Rule.reachable_step context
             (Rule.On_Property Examples.prop_b_blank)
             Examples.state_in_literal Examples.state_after_b_blank).
    - apply (Rule.reachable_step context Rule.On_ObjectExpression
               Rule.initial Examples.state_in_literal).
      + apply Rule.reachable_initial.
      + reflexivity.
    - reflexivity. }
  split; [exact Hreach|]. split; [reflexivity|].
  destruct (C10_carried_flag_never_true spec_requirements context
              Examples.state_after_b_blank Hreach) as (Hall & _ & Hgap).
  split; [exact Hall|].
  apply (Hgap {| Rule.prevName := Some "b";
                 Rule.prevNode := Some Examples.prop_b_blank;
                 Rule.prevBlankLine := Rule.Undefined |}
              [] Examples.prop_a_blank (Rule.Flag true));
    reflexivity.
Defined.

(** * Further properties *)

(** ** The comparators as orders *)

Section OrderFacts.

Context {R : Requirements}.

Lemma string_compare_refl (a : string) : String.compare a a = Eq.
Proof.
  induction a as [|c a IH]; simpl; [reflexivity|].
  unfold Ascii.compare. rewrite N.compare_refl. exact IH.
Qed.

Lemma string_leb_trans (a b c : string) :
  String.leb a b = true -> String.leb b c = true -> String.leb a c = true.
Proof.
  revert b c. unfold String.leb.
  induction a as [|x a IH]; intros [|y b] [|z c]; simpl; auto;
    try discriminate.
  unfold Ascii.compare.
  destruct (N.compare_spec (N_of_ascii x) (N_of_ascii y)) as [Exy|Lxy|Gxy];
    destruct (N.compare_spec (N_of_ascii y) (N_of_ascii z)) as [Eyz|Lyz|Gyz];
    destruct (N.compare_spec (N_of_ascii x) (N_of_ascii z)) as [Exz|Lxz|Gxz];
    try lia; auto; try discriminate.
  apply IH.
Qed.

Lemma asc_refl (a : string) : asc a a = true.
Proof.
  unfold asc, JsString.le, String.leb. rewrite string_compare_refl.
  reflexivity.
Qed.

Lemma asc_trans (a b c : string) :
  asc a b = true -> asc b c = true -> asc a c = true.
Proof. apply string_leb_trans. Qed.

Lemma asc_antisym (a b : string) :
  asc a b = true -> asc b a = true -> a = b.
Proof. apply String.leb_antisym. Qed.

End OrderFacts.

Section CaseFacts.

Context {R : Requirements}.

Lemma toLowerCase_unit_idem (c : ascii) :
  JsString.toLowerCase_unit (JsString.toLowerCase_unit c)
  = JsString.toLowerCase_unit c.
Proof.
  destruct c as [[] [] [] [] [] [] [] []]; reflexivity.
Qed.

Lemma toLowerCase_idem (s : string) :
  JsString.toLowerCase (JsString.toLowerCase s) = JsString.toLowerCase s.
Proof.
  induction s as [|c s IH]; simpl; [reflexivity|].
  rewrite toLowerCase_unit_idem, IH. reflexivity.
Qed.

End CaseFacts.

(** X1: on names, [asc] is a total order (reflexive, transitive,
    antisymmetric, total), and [desc] is the same order read backwards, so
    two different names are accepted by exactly one of the two. *)
Theorem X1_asc_desc_total_orders :
  (forall a, asc a a = true)
  /\ (forall a b c, asc a b = true -> asc b c = true -> asc a c = true)
  /\ (forall a b, asc a b = true -> asc b a = true -> a = b)
  /\ (forall a b, asc a b = true \/ asc b a = true)
  /\ (forall a, desc a a = true)
  /\ (forall a b c, desc a b = true -> desc b c = true -> desc a c = true)
  /\ (forall a b, desc a b = true -> desc b a = true -> a = b)
  /\ (forall a b, desc a b = true \/ desc b a = true)
  /\ (forall a b, asc a b = true -> desc a b = true -> a = b)
  /\ (forall a b, asc a b = false -> desc a b = true)
  /\ (forall a b, desc a b = false -> asc a b = true).
Proof.
  assert (Htotal : forall a b, asc a b = true \/ asc b a = true).
  { intros a b. destruct (asc a b) eqn:E; [left; reflexivity|].
    right. apply asc_total. exact E. }
  repeat split.
  - apply asc_refl.
  - apply asc_trans.
  - apply asc_antisym.
  - apply Htotal.
  - intros a. apply asc_refl.
  - intros a b c H1 H2. unfold desc in *. exact (asc_trans c b a H2 H1).
  - intros a b H1 H2. unfold desc in *. exact (asc_antisym a b H2 H1).
  - intros a b. unfold desc. apply Htotal.
  - intros a b H1 H2. exact (asc_antisym a b H1 H2).
  - intros a b. unfold desc. apply asc_total.
  - intros a b. unfold desc. apply asc_total.
Qed.

(** X2: [ascI] is reflexive, transitive and total; it sees a name only
    through its lower-cased form; and it accepts two names in both orders
    exactly when their lower-cased forms are equal.  [descI] is [ascI] read
    backwards. *)
Theorem X2_ascI_total_preorder :
  (forall a, ascI a a = true)
  /\ (forall a b c, ascI a b = true -> ascI b c = true -> ascI a c = true)
  /\ (forall a b, ascI a b = true \/ ascI b a = true)
  /\ (forall a b,
         ascI (JsString.toLowerCase a) b = ascI a b
         /\ ascI a (JsString.toLowerCase b) = ascI a b)
  /\ (forall a b,
         ascI a b = true /\ ascI b a = true
         <-> JsString.toLowerCase a = JsString.toLowerCase b)
  /\ (forall a b, ascI a b = false -> descI a b = true).
Proof.
  repeat split.
  - intros a. unfold ascI. apply asc_refl.
  - intros a b c. unfold ascI. apply asc_trans.
  - intros a b. unfold ascI.
    destruct (JsString.le (JsString.toLowerCase a) (JsString.toLowerCase b))
      eqn:E; [left; reflexivity|].
    right. apply asc_total. exact E.
  - unfold ascI. rewrite toLowerCase_idem. reflexivity.
  - unfold ascI. rewrite toLowerCase_idem. reflexivity.
  - intros [H1 H2]. unfold ascI in *. exact (asc_antisym _ _ H1 H2).
  - unfold ascI. rewrite H. apply asc_refl.
  - unfold ascI. rewrite H. apply asc_refl.
  - intros a b. unfold descI, ascI. apply asc_total.
Qed.

(** ** A queue of listener calls *)

Section QueueFacts.

Import ESTree Rule.

Context {R : Requirements}.
Variable context : Rule.Context.

Lemma create_reports (e : Event) (st st' : State) :
  create context e st = Some st' ->
  exists new,
    reports st' = reports st ++ new
    /\ (length new <= Pass.count_properties [e])%nat.
Proof.
  destruct e as [parent| | |parent|node]; simpl.
  - unfold SpreadElement. destruct (NodeType_eqb _ _);
      [destruct (stack st); [discriminate|]|];
      intros H; inversion H; subst; exists []; simpl;
      rewrite app_nil_r; auto.
  - intros H; inversion H; subst; exists []; simpl; rewrite app_nil_r; auto.
  - unfold ObjectExpression_exit. destruct (stack st); [discriminate|].
    intros H; inversion H; subst; exists []; simpl; rewrite app_nil_r; auto.
  - unfold SpreadElement. destruct (NodeType_eqb _ _);
      [destruct (stack st); [discriminate|]|];
      intros H; inversion H; subst; exists []; simpl;
      rewrite app_nil_r; auto.
  - unfold Property. destruct (NodeType_eqb _ _).
    { intros H; inversion H; subst; exists []; simpl;
        rewrite app_nil_r; auto. }
    destruct (stack st) as [|top upper]; [discriminate|].
    destruct (blankLineBetweenNodes context top node) as [f|];
      [|discriminate].
    destruct (prevName top) as [p|], (getPropertyName node) as [t|];
      simpl;
      try solve [intros H; inversion H; subst; exists []; simpl;
                 rewrite app_nil_r; auto].
    destruct (allowLineSeparatedGroups_on context && truthy f).
    { intros H; inversion H; subst; exists []; simpl;
        rewrite app_nil_r; auto. }
    destruct (isValidOrder context) as [valid|]; [|discriminate].
    destruct (valid p t); simpl; intros H; inversion H; subst; simpl.
    + exists []. rewrite app_nil_r; auto.
    + eexists. split; [reflexivity|]. simpl. lia.
Qed.

Lemma count_properties_cons (e : Event) (q : list Event) :
  Pass.count_properties (e :: q)
  = (Pass.count_properties [e] + Pass.count_properties q)%nat.
Proof. destruct e; reflexivity. Qed.

Lemma run_reports (queue : list Event) :
  forall st st',
    run context queue st = Some st' ->
    exists new,
      reports st' = reports st ++ new
      /\ (length new <= Pass.count_properties queue)%nat.
Proof.
  induction queue as [|e queue IH]; intros st st' Hrun; simpl in Hrun.
  - inversion Hrun; subst. exists []. rewrite app_nil_r. auto.
  - destruct (create context e st) as [st1|] eqn:E1; [|discriminate].
    destruct (create_reports e st st1 E1) as (n1 & H1 & L1).
    destruct (IH st1 st' Hrun) as (n2 & H2 & L2).
    exists (n1 ++ n2). rewrite H2, H1, app_assoc. split; [reflexivity|].
    rewrite length_app, count_properties_cons. lia.
Qed.

(** A listener call that does not throw does the same on top of other
    frames and after other reports. *)
Lemma create_lift (base : list Frame) (before : list Report) (e : Event)
    (st st' : State) :
  create context e st = Some st' ->
  create context e (Pass.lift base before st)
  = Some (Pass.lift base before st').
Proof.
  unfold Pass.lift.
  destruct e as [parent| | |parent|node]; simpl.
  - unfold SpreadElement. destruct (NodeType_eqb _ _);
      [destruct (stack st); [discriminate|]|];
      intros H; inversion H; subst; reflexivity.
  - intros H; inversion H; subst; reflexivity.
  - unfold ObjectExpression_exit. destruct (stack st); [discriminate|].
    intros H; inversion H; subst; reflexivity.
  - unfold SpreadElement. destruct (NodeType_eqb _ _);
      [destruct (stack st); [discriminate|]|];
      intros H; inversion H; subst; reflexivity.
  - unfold Property. destruct (NodeType_eqb _ _).
    { intros H; inversion H; subst; reflexivity. }
    destruct (stack st) as [|top upper]; [discriminate|]. simpl.
    destruct (blankLineBetweenNodes context top node) as [f|];
      [|discriminate].
    destruct (prevName top) as [p|], (getPropertyName node) as [t|];
      simpl; try (intros H; inversion H; subst; reflexivity).
    destruct (allowLineSeparatedGroups_on context && truthy f).
    { intros H; inversion H; subst; reflexivity. }
    destruct (isValidOrder context) as [valid|]; [|discriminate].
    destruct (valid p t); simpl; intros H; inversion H; subst; simpl;
      rewrite ?app_assoc; reflexivity.
Qed.

Lemma run_lift (base : list Frame) (before : list Report)
    (queue : list Event) :
  forall st st',
    run context queue st = Some st' ->
    run context queue (Pass.lift base before st)
    = Some (Pass.lift base before st').
Proof.
  induction queue as [|e queue IH]; intros st st' Hrun; simpl in *.
  - inversion Hrun; subst; reflexivity.
  - destruct (create context e st) as [st1|] eqn:E1; [|discriminate].
    rewrite (create_lift base before e st st1 E1). apply IH. exact Hrun.
Qed.

End QueueFacts.

(** X3: a well-formed subtree that is not itself an entry of the literal
    being visited, and whose listeners run without throwing from the initial
    state, is visited in the same way from any state: it makes the same
    reports, after those already made, and leaves every frame as it was. *)
Theorem X3_subtree_is_visited_alike (R : Requirements)
    (context : Rule.Context) (parent : ESTree.NodeType) (n : ESTree.node)
    (alone : Rule.State) :
  ESTree.well_formed parent n = true ->
  Rule.frame_entry parent n = false ->
  Rule.run context (Rule.events parent n) Rule.initial = Some alone ->
  forall st,
    Rule.run context (Rule.events parent n) st
    = Some {| Rule.stack := Rule.stack st;
              Rule.reports := Rule.reports st ++ Rule.reports alone |}.
Proof.
  intros W Hentry Hrun st.
  destruct (events_stack context n parent _ _ W Hrun) as [_ Hstack].
  specialize (Hstack Hentry). simpl in Hstack.
  pose proof (run_lift context (Rule.stack st) (Rule.reports st) _ _ _ Hrun)
    as Hlift.
  unfold Pass.lift in Hlift. rewrite Hstack in Hlift. simpl in Hlift.
  destruct st as [s rs]. simpl in *. rewrite app_nil_r in Hlift. exact Hlift.
Qed.

(** The theorem at the literal [{b: 1, a: 2}], visited below the frame of
    another literal. *)
Lemma X3_witness :
  let context := Rule.default_context Examples.file_ba in
  exists alone,
    Rule.run context (Rule.events ESTree.TOther Examples.tree_ba)
      Rule.initial = Some alone
    /\ length (Rule.reports alone) = 1%nat
    /\ Rule.run context (Rule.events ESTree.TOther Examples.tree_ba)
         Examples.state_after_b_ba
       = Some {| Rule.stack := Rule.stack Examples.state_after_b_ba;
                 Rule.reports :=
                   Rule.reports Examples.state_after_b_ba
                   ++ Rule.reports alone |}.
Proof.
  intros context. eexists. split; [reflexivity|]. split; [reflexivity|].
  apply (X3_subtree_is_visited_alike spec_requirements context
           ESTree.TOther Examples.tree_ba); reflexivity.
Defined.

(** X4: a queue of listener calls that does not throw keeps the reports
    already made, in their order, and adds at most one report for each call
    of the [Property] listener; the other listeners never report. *)
Theorem X4_reports_only_grow (R : Requirements) (context : Rule.Context)
    (queue : list Rule.Event) (st st' : Rule.State) :
  Rule.run context queue st = Some st' ->
  exists new,
    Rule.reports st' = Rule.reports st ++ new
    /\ (length new <= Pass.count_properties queue)%nat.
Proof. apply run_reports. Qed.

Lemma X4_witness :
  let context := Rule.default_context Examples.file_bca in
  exists st',
    Rule.run context (Rule.events ESTree.TOther Examples.tree_bca)
      Rule.initial = Some st'
    /\ Pass.count_properties (Rule.events ESTree.TOther Examples.tree_bca)
       = 3%nat
    /\ exists new,
         Rule.reports st' = Rule.reports Rule.initial ++ new
         /\ (length new
             <= Pass.count_properties
                  (Rule.events ESTree.TOther Examples.tree_bca))%nat.
Proof.
  intros context. eexists. split; [reflexivity|]. split; [reflexivity|].
  apply (X4_reports_only_grow spec_requirements context). reflexivity.
Defined.

(** ** The reports of a traversal *)

Section ReportFacts.

Import ESTree Rule.

Context {R : Requirements}.
Variable context : Rule.Context.

(** The [Property] listener either makes no report, or makes the one for the
    node, the previous node and the two names, which the comparator
    rejects. *)
Lemma Property_report (node : PropertyNode) (st st' : State) :
  Property context node st = Some st' ->
  reports st' = reports st
  \/ exists top upper p t valid,
       stack st = top :: upper
       /\ prevName top = Some p
       /\ getPropertyName node = Some t
       /\ isValidOrder context = Some valid
       /\ valid p t = false
       /\ NodeType_eqb (parent_type node) TObjectPattern = false
       /\ reports st' = reports st ++ [report context node (prevNode top) t p].
Proof.
  unfold Property.
  destruct (NodeType_eqb _ _) eqn:Ep;
    [intros H; inversion H; auto|].
  destruct (stack st) as [|top upper]; [discriminate|].
  destruct (blankLineBetweenNodes context top node) as [f|];
    [|discriminate].
  destruct (prevName top) as [p|] eqn:Epn,
           (getPropertyName node) as [t|] eqn:Et;
    simpl; try solve [intros H; inversion H; auto].
  destruct (allowLineSeparatedGroups_on context && truthy f);
    [intros H; inversion H; auto|].
  destruct (isValidOrder context) as [valid|]; [|discriminate].
  destruct (valid p t) eqn:Ev; simpl; intros H; inversion H; subst; simpl;
    [auto|].
  right. exists top, upper, p, t, valid. auto 10.
Qed.

Lemma moveProperty_length (fromNode toNode : PropertyNode)
    (fixes : list Fixer.Fix) :
  length (moveProperty context fromNode toNode fixes)
  = (length fixes
     + 2 * length (SourceCode.getCommentsBefore (sourceCode context)
                     (prop_range fromNode))
     + 1)%nat.
Proof.
  unfold moveProperty. rewrite length_app. simpl.
  generalize (SourceCode.getCommentsBefore (sourceCode context)
                (prop_range fromNode)).
  intros comments. revert fixes.
  induction comments as [|c comments IH]; intros fixes; simpl; [lia|].
  rewrite IH, length_app. simpl. lia.
Qed.

(** The message of a report, once the host has filled the template. *)
Lemma formatted_report (node : PropertyNode) (prev : option PropertyNode)
    (t p : string) :
  formatted (report context node prev t p)
  = ("Expected object keys to be in "
     ++ (if natual context then "natural " else "")
     ++ (if insensitive context then "insensitive " else "")
     ++ order context ++ "ending order. '" ++ t
     ++ "' should be before '" ++ p ++ "'.")%string.
Proof. reflexivity. Qed.

End ReportFacts.

Section SoundFacts.

Import ESTree Rule.

Context {R : Requirements}.
Variable context : Rule.Context.

Lemma reachable_sound (st : State) :
  reachable context st -> Forall (Pass.sound context) (reports st).
Proof.
  induction 1 as [|e st st' Hreach IH Hstep]; [constructor|].
  pose proof (reachable_frame_ok context st Hreach) as Hok.
  assert (Hsame : reports st' = reports st ->
                  Forall (Pass.sound context) (reports st'))
    by (intros ->; exact IH).
  destruct e as [parent| | |parent|node];
    try (apply Hsame;
         destruct (create_reports context _ _ _ Hstep) as (new & -> & Hl);
         simpl in Hl; destruct new; [apply app_nil_r | simpl in Hl; lia]).
  simpl in Hstep.
  destruct (Property_report context node st st' Hstep)
    as [E | (top & upper & p & t & valid & Es & Ep & Et & Ev & Ecmp & Epar
             & E)]; [exact (Hsame E)|].
  rewrite E. apply Forall_app. split; [exact IH|].
  constructor; [|constructor].
  rewrite Es in Hok. inversion Hok as [|? ? [_ Hprev] _]; subst.
  destruct (Hprev p Ep) as (prev & Eprev & Hname).
  rewrite Eprev. exists prev, t, p, valid. simpl. tauto.
Qed.

End SoundFacts.

(** X5: every report made in a traversal is for a node that has a name and
    is not in a pattern, and carries a previous node; the comparator rejects
    the previous name followed by the name; the report is anchored at the key
    of the node; its message is the template filled with the two names, the
    order and the modifiers; and its [fix] does not throw: it returns two
    replacements, and an insertion and a removal for each comment before
    either node. *)
Theorem X5_reports_are_sound (R : Requirements) (context : Rule.Context)
    (st : Rule.State) (r : Rule.Report) :
  Rule.reachable context st ->
  In r (Rule.reports st) ->
  exists prev t p valid fixes,
    Rule.r_prevNode r = Some prev
    /\ getPropertyName (Rule.r_node r) = Some t
    /\ (getPropertyName prev = Some p \/ getPropertyName prev = None)
    /\ Rule.isValidOrder context = Some valid
    /\ valid p t = false
    /\ ESTree.NodeType_eqb (ESTree.parent_type (Rule.r_node r))
         ESTree.TObjectPattern = false
    /\ Rule.r_loc r = ESTree.key_loc (ESTree.key (Rule.r_node r))
    /\ Rule.formatted r
       = ("Expected object keys to be in "
          ++ (if Rule.natual context then "natural " else "")
          ++ (if Rule.insensitive context then "insensitive " else "")
          ++ Rule.order context ++ "ending order. '" ++ t
          ++ "' should be before '" ++ p ++ "'.")%string
    /\ Rule.fix_ context (Rule.r_node r) (Rule.r_prevNode r) = Some fixes
    /\ length fixes
       = (2
          + 2 * length (SourceCode.getCommentsBefore
                          (Rule.sourceCode context)
                          (ESTree.prop_range (Rule.r_node r)))
          + 2 * length (SourceCode.getCommentsBefore
                          (Rule.sourceCode context)
                          (ESTree.prop_range prev)))%nat.
Proof.
  intros Hreach Hin.
  pose proof (reachable_sound context st Hreach) as Hall.
  rewrite Forall_forall in Hall.
  destruct (Hall r Hin) as (prev & t & p & valid & Er & Et & Hp & Ev & Ecmp
                            & Epar).
  exists prev, t, p, valid.
  destruct r as [node loc message data prevNode]. simpl in *.
  unfold Rule.report in Er. inversion Er; subst; clear Er.
  eexists. repeat split; try assumption; try reflexivity.
  rewrite !moveProperty_length. simpl. lia.
Qed.

(** The theorem at the report of the pass over [{b: 1, a: 2}]. *)
Lemma X5_witness :
  let context := Rule.default_context Examples.file_ba in
  let r := Rule.report context Examples.prop_a_ba (Some Examples.prop_b_ba)
             "a" "b" in
  Rule.lint context Examples.tree_ba = Some [r]
  /\ exists prev t p valid fixes,
       Rule.r_prevNode r = Some prev
       /\ getPropertyName (Rule.r_node r) = Some t
       /\ (getPropertyName prev = Some p \/ getPropertyName prev = None)
       /\ Rule.isValidOrder context = Some valid
       /\ valid p t = false
       /\ ESTree.NodeType_eqb (ESTree.parent_type (Rule.r_node r))
            ESTree.TObjectPattern = false
       /\ Rule.r_loc r = ESTree.key_loc (ESTree.key (Rule.r_node r))
       /\ Rule.formatted r
          = ("Expected object keys to be in "
             ++ (if Rule.natual context then "natural " else "")
             ++ (if Rule.insensitive context then "insensitive " else "")
             ++ Rule.order context ++ "ending order. '" ++ t
             ++ "' should be before '" ++ p ++ "'.")%string
       /\ Rule.fix_ context (Rule.r_node r) (Rule.r_prevNode r) = Some fixes
       /\ length fixes
          = (2
             + 2 * length (SourceCode.getCommentsBefore
                             (Rule.sourceCode context)
                             (ESTree.prop_range (Rule.r_node r)))
             + 2 * length (SourceCode.getCommentsBefore
                             (Rule.sourceCode context)
                             (ESTree.prop_range prev)))%nat.
Proof.
  intros context r. split; [reflexivity|].
  apply (X5_reports_are_sound spec_requirements context
           {| Rule.stack := []; Rule.reports := [r] |} r).
  - apply (run_reachable context
             (Rule.events ESTree.TOther Examples.tree_ba) Rule.initial).
    + apply Rule.reachable_initial.
    + reflexivity.
  - left. reflexivity.
Defined.

(** ** When the [Property] listener throws *)

Section ThrowFacts.

Import ESTree Rule.

Context {R : Requirements}.
Variable context : Rule.Context.

Lemma blankLineBetweenNodes_throws (top : Frame) (node : PropertyNode) :
  truthy (prevBlankLine top) = false ->
  blankLineBetweenNodes context top node = None
  <-> exists prev,
        prevNode top = Some prev
        /\ Pass.tokens_between context prev node = [].
Proof.
  intros Hf. unfold Pass.tokens_between. split.
  - intros Hnone. destruct (prevNode top) as [prev|] eqn:Ep.
    + exists prev. split; [reflexivity|].
      destruct (SourceCode.getTokensBetween (sourceCode context)
                  (prop_range prev) (prop_range node)) as [|tok rest] eqn:Et;
        [reflexivity|].
      destruct (blankLineBetweenNodes_spec context top prev node Ep Hf)
        as (f & Ef & _); [rewrite Et; discriminate | congruence].
    + unfold blankLineBetweenNodes in Hnone. rewrite Ep in Hnone.
      discriminate.
  - intros (prev & Ep & Et). unfold blankLineBetweenNodes.
    rewrite Ep, Et. simpl. rewrite Hf. reflexivity.
Qed.

End ThrowFacts.

(** X6: in a traversal, with a comparator selected, the [Property] listener
    called for an entry that is not in a pattern throws in two cases only:
    there is no frame ([stack] is [null]), or the frame has a previous node
    and no token or comment lies between it and the entry. *)
Theorem X6_Property_throws (R : Requirements) (context : Rule.Context)
    (valid : string -> string -> bool) (node : ESTree.PropertyNode)
    (st : Rule.State) :
  Rule.reachable context st ->
  Rule.isValidOrder context = Some valid ->
  ESTree.NodeType_eqb (ESTree.parent_type node) ESTree.TObjectPattern
  = false ->
  Rule.Property context node st = None
  <-> (Rule.stack st = []
       \/ exists top upper prev,
            Rule.stack st = top :: upper
            /\ Rule.prevNode top = Some prev
            /\ Pass.tokens_between context prev node = []).
Proof.
  intros Hreach Hvalid Hparent.
  pose proof (reachable_frame_ok context st Hreach) as Hok.
  unfold Rule.Property. rewrite Hparent.
  destruct (Rule.stack st) as [|top upper].
  { split; auto. }
  inversion Hok as [|? ? [Hf _] _]; subst.
  pose proof (blankLineBetweenNodes_throws context top node Hf) as Hthrow.
  destruct (Rule.blankLineBetweenNodes context top node) as [f|].
  - split.
    + rewrite Hvalid.
      destruct (Rule.prevName top) as [p|], (getPropertyName node) as [t|];
        simpl; try discriminate.
      destruct (Rule.allowLineSeparatedGroups_on context && Rule.truthy f);
        [discriminate|].
      destruct (valid p t); discriminate.
    + intros [E | (top' & upper' & prev & E & Ep & Et)]; [discriminate|].
      inversion E; subst top' upper'.
      assert (Some f = None) by (apply Hthrow; eauto). discriminate.
  - split; [|reflexivity]. intros _. right.
    destruct (proj1 Hthrow eq_refl) as (prev & Ep & Et).
    exists top, upper, prev. auto.
Qed.

(** The theorem before any literal has been entered. *)
Lemma X6_witness :
  let context := Rule.default_context Examples.file_ba in
  Rule.Property context Examples.prop_a_ba Rule.initial = None
  <-> (Rule.stack Rule.initial = []
       \/ exists top upper prev,
            Rule.stack Rule.initial = top :: upper
            /\ Rule.prevNode top = Some prev
            /\ Pass.tokens_between context prev Examples.prop_a_ba = []).
Proof.
  intros context.
  apply (X6_Property_throws spec_requirements context asc
           Examples.prop_a_ba Rule.initial).
  - apply Rule.reachable_initial.
  - reflexivity.
  - reflexivity.
Defined.

(** ** A literal of simple entries *)

Section LiteralFacts.

Import ESTree Rule.

Context {R : Requirements}.
Variable context : Rule.Context.

Lemma events_quiet (n : node) : Pass.quiet n = true -> events TProperty n = [].
Proof. unfold Pass.quiet. destruct (events TProperty n); congruence. Qed.

(** The queue of a literal of simple entries: the literal, one call of the
    [Property] listener for each entry, the exit. *)
Lemma events_simple (parent : NodeType) (m : Meta) (entries : list node) :
  forallb Pass.simple_entry entries = true ->
  events parent (ESTree.ObjectExpression m entries)
  = On_ObjectExpression
    :: map On_Property (Pass.listened entries) ++ [On_ObjectExpression_exit].
Proof.
  intros Hs. simpl. f_equal. f_equal.
  induction entries as [|n entries IH]; [reflexivity|].
  simpl in Hs. apply andb_true_iff in Hs. destruct Hs as [Hn Hs].
  simpl. rewrite (IH Hs).
  destruct n; simpl in Hn; try discriminate.
  apply andb_true_iff in Hn. destruct Hn as [Hk Hv].
  simpl. rewrite (events_quiet _ Hk), (events_quiet _ Hv). reflexivity.
Qed.

Lemma listened_parent (entries : list node) :
  Forall (fun p => parent_type p = TObjectExpression)
         (Pass.listened entries).
Proof.
  induction entries as [|n entries IH]; [constructor|].
  destruct n; simpl; try exact IH. constructor; [reflexivity | exact IH].
Qed.

Lemma LocallySorted_cons2 {A : Type} (P : A -> A -> Prop) (x y : A)
    (l : list A) :
  LocallySorted P (x :: y :: l) <-> P x y /\ LocallySorted P (y :: l).
Proof.
  split.
  - intros H. inversion H; subst. auto.
  - intros [H1 H2]. constructor; assumption.
Qed.

(** The calls of the [Property] listener for the entries after [x], in a
    frame where [x] was the last entry visited. *)
Lemma run_entries (valid : string -> string -> bool)
    (upper : list Frame) (ps : list PropertyNode) :
  isValidOrder context = Some valid ->
  forall (x : PropertyNode) (a : string) (top : Frame) (rs : list Report),
    prevName top = Some a ->
    prevNode top = Some x ->
    truthy (prevBlankLine top) = false ->
    getPropertyName x = Some a ->
    Forall (fun p => parent_type p = TObjectExpression) ps ->
    Forall (fun p => exists t, getPropertyName p = Some t) ps ->
    LocallySorted (Pass.separated context) (x :: ps) ->
    exists top' new,
      run context (map On_Property ps)
        {| stack := top :: upper; reports := rs |}
      = Some {| stack := top' :: upper; reports := rs ++ new |}
      /\ (new = [] <-> LocallySorted (Pass.in_order context valid) (x :: ps))
      /\ (length new <= length ps)%nat.
Proof.
  intros Hvalid.
  induction ps as [|y ps IH]; intros x a top rs Hname Hprev Hflag Hx Hpar
                                     Hnamed Hsep.
  - exists top, []. simpl. rewrite app_nil_r.
    split; [reflexivity|]. split; [|lia].
    split; [intros _; constructor | reflexivity].
  - inversion Hpar as [|? ? Hpy Hpar']; subst.
    inversion Hnamed as [|? ? [b Hy] Hnamed']; subst.
    apply LocallySorted_cons2 in Hsep. destruct Hsep as [Hxy Hsep].
    assert (Hparent : NodeType_eqb (parent_type y) TObjectPattern = false)
      by (rewrite Hpy; reflexivity).
    destruct (Property_named_pair context y x top upper rs a b valid
                Hparent Hname Hprev Hflag Hy Hvalid Hxy)
      as (st1 & E1 & Hgap & Hcmp).
    destruct (blankLineBetweenNodes_spec context top x y Hprev Hflag Hxy)
      as (f & _ & Hf).
    destruct (Property_frame context y _ st1 Hparent E1)
      as (top0 & upper0 & top1 & Es0 & Es1 & Hn1 & Hname1 & Hflag1).
    simpl in Es0. inversion Es0; subst top0 upper0. rewrite Hy in Hname1.
    assert (Hf1 : truthy (prevBlankLine top1) = false)
      by (destruct Hflag1 as [-> | ->]; [exact Hflag | reflexivity]).
    destruct st1 as [s1 rs1]. simpl in Es1, Hgap, Hcmp. subst s1.
    assert (Hn1' : exists n1,
               rs1 = rs ++ n1 /\ (length n1 <= 1)%nat
               /\ (n1 = [] <-> Pass.in_order context valid x y)).
    { unfold Pass.in_order, Pass.tokens_between.
      destruct (allowLineSeparatedGroups_on context) eqn:Eg;
        [destruct (truthy f) eqn:Et|].
      - exists []. rewrite app_nil_r.
        split; [apply Hgap; [reflexivity | apply Hf; reflexivity]|].
        split; [simpl; lia|]. split; [|reflexivity].
        intros _. exists a, b. split; [exact Hx|]. split; [exact Hy|].
        right. split; [reflexivity | apply Hf; reflexivity].
      - assert (Hnb : ~ qualifying_blank_line x y
                          (SourceCode.getTokensBetween (sourceCode context)
                             (prop_range x) (prop_range y)))
          by (rewrite <- Hf; congruence).
        eexists. split; [apply Hcmp; right; exact Hnb|].
        destruct (valid a b) eqn:Ev; (split; [simpl; lia|]).
        + split; [|reflexivity]. intros _. exists a, b. auto.
        + split; [discriminate|].
          intros (a' & b' & Ea & Eb & [Hv | [_ Hb]]); [|tauto].
          congruence.
      - eexists. split; [apply Hcmp; left; reflexivity|].
        destruct (valid a b) eqn:Ev; (split; [simpl; lia|]).
        + split; [|reflexivity]. intros _. exists a, b. auto.
        + split; [discriminate|].
          intros (a' & b' & Ea & Eb & [Hv | [Hg _]]); congruence. }
    destruct Hn1' as (n1 & -> & Hl1 & Hin1).
    destruct (IH y b top1 (rs ++ n1) Hname1 Hn1 Hf1 Hy Hpar' Hnamed' Hsep)
      as (top' & n2 & E2 & Hin2 & Hl2).
    exists top', (n1 ++ n2). simpl. rewrite E1, E2, app_assoc.
    split; [reflexivity|]. split.
    + rewrite LocallySorted_cons2, <- Hin1, <- Hin2.
      split; [apply app_eq_nil | intros [-> ->]; reflexivity].
    + rewrite length_app. simpl. lia.
Qed.

(** A literal whose entries are simple, named and separated by tokens, from
    any state. *)
Lemma simple_literal (valid : string -> string -> bool)
    (parent : NodeType) (m : Meta) (entries : list node)
    (names : list string) (st : State) :
  isValidOrder context = Some valid ->
  forallb Pass.simple_entry entries = true ->
  map getPropertyName (Pass.listened entries) = map Some names ->
  LocallySorted (Pass.separated context) (Pass.listened entries) ->
  exists new,
    run context (events parent (ESTree.ObjectExpression m entries)) st
    = Some {| stack := stack st; reports := reports st ++ new |}
    /\ (new = []
        <-> LocallySorted (Pass.in_order context valid)
              (Pass.listened entries))
    /\ (length new <= Nat.pred (length entries))%nat.
Proof.
  intros Hvalid Hsimple Hnames Hsep.
  rewrite (events_simple parent m entries Hsimple).
  pose proof (listened_parent entries) as Hpar.
  assert (Hlen : length (Pass.listened entries) = length entries).
  { clear -Hsimple. induction entries as [|n entries IH]; [reflexivity|].
    simpl in Hsimple. apply andb_true_iff in Hsimple.
    destruct Hsimple as [Hn Hs]. destruct n; simpl in Hn; try discriminate.
    simpl. rewrite (IH Hs). reflexivity. }
  rewrite <- Hlen. clear Hlen.
  assert (Hnamed : Forall (fun p => exists t, getPropertyName p = Some t)
                          (Pass.listened entries)).
  { clear -Hnames. revert names Hnames.
    induction (Pass.listened entries) as [|p ps IH]; intros names Hnames;
      [constructor|].
    destruct names as [|t names]; [discriminate|].
    simpl in Hnames. inversion Hnames.
    constructor; [eauto | eapply IH; eassumption]. }
  destruct (Pass.listened entries) as [|x ps].
  - exists []. simpl. rewrite app_nil_r. destruct st; simpl.
    split; [reflexivity|]. split; [|lia].
    split; [intros _; constructor | reflexivity].
  - inversion Hpar as [|? ? Hpx Hpar']; subst.
    inversion Hnamed as [|? ? [a Hx] Hnamed']; subst.
    set (top := {| prevName := Some a;
                   prevNode := Some x;
                   prevBlankLine := Undefined |}).
    destruct (run_entries valid (stack st) ps Hvalid x a top (reports st)
                eq_refl eq_refl eq_refl Hx Hpar' Hnamed' Hsep)
      as (top' & new & Erun & Hiff & Hl).
    exists new. split; [|split; [exact Hiff | simpl; exact Hl]].
    simpl. unfold Property. rewrite Hpx. simpl.
    unfold blankLineBetweenNodes. simpl. rewrite Hx. simpl.
    fold top. rewrite run_app, Erun. reflexivity.
Qed.

End LiteralFacts.

Section SortedFacts.

Import ESTree Rule.

Context {R : Requirements}.
Variable context : Rule.Context.

(** Without line-separated groups, entries pass one after the other exactly
    when the comparator accepts their names one after the other. *)
Lemma in_order_names (valid : string -> string -> bool)
    (ps : list PropertyNode) :
  allowLineSeparatedGroups_on context = false ->
  forall names,
    map getPropertyName ps = map Some names ->
    LocallySorted (Pass.in_order context valid) ps
    <-> LocallySorted (fun a b => valid a b = true) names.
Proof.
  intros Hg. induction ps as [|x ps IH]; intros names Hn.
  - destruct names; [|discriminate]. split; intros _; constructor.
  - destruct names as [|a names]; [discriminate|].
    simpl in Hn. inversion Hn as [[Hx Hrest]].
    destruct ps as [|y ps].
    + destruct names; [|discriminate]. split; intros _; constructor.
    + destruct names as [|b names]; [discriminate|].
      simpl in Hrest. inversion Hrest as [[Hy Hrest']].
      rewrite !LocallySorted_cons2, (IH (b :: names) Hrest).
      assert (Hxy : Pass.in_order context valid x y <-> valid a b = true).
      { unfold Pass.in_order. split.
        - intros (a' & b' & Ea & Eb & [Hv | [Hg' _]]); congruence.
        - intros Hv. exists a, b. auto. }
      rewrite Hxy. reflexivity.
Qed.

End SortedFacts.

(** X7: an object literal whose entries all have a name, a key and a value
    without listeners, and a token between each and the next, visited in any
    state with a comparator selected: the listeners do not throw and leave
    the stack as it was; they make no report exactly when, for every two
    consecutive entries, the comparator accepts their names or, with
    line-separated groups allowed, a qualifying blank line lies between them;
    and the reports they make are at most one less than there are entries
    (none for a literal without entries). *)
Theorem X7_simple_literal (R : Requirements) (context : Rule.Context)
    (valid : string -> string -> bool) (parent : ESTree.NodeType)
    (m : ESTree.Meta) (entries : list ESTree.node) (names : list string)
    (st : Rule.State) :
  Rule.isValidOrder context = Some valid ->
  forallb Pass.simple_entry entries = true ->
  map getPropertyName (Pass.listened entries) = map Some names ->
  LocallySorted (Pass.separated context) (Pass.listened entries) ->
  exists new,
    Rule.run context
      (Rule.events parent (ESTree.ObjectExpression m entries)) st
    = Some {| Rule.stack := Rule.stack st;
              Rule.reports := Rule.reports st ++ new |}
    /\ (new = []
        <-> LocallySorted (Pass.in_order context valid)
              (Pass.listened entries))
    /\ (length new <= Nat.pred (length entries))%nat.
Proof. apply simple_literal. Qed.

(** The theorem at the literal with a blank line between its two entries,
    with line-separated groups allowed. *)
Lemma X7_witness :
  let context :=
    Examples.ctx Examples.grouped Examples.file_ba_blank in
  Pass.listened PassExamples.entries_blank
  = [Examples.prop_b_blank; Examples.prop_a_blank]
  /\ exists new,
       Rule.run context
         (Rule.events ESTree.TOther
            (ESTree.ObjectExpression
               (Examples.at_ Examples.text_ba_blank 0 16)
               PassExamples.entries_blank))
         Rule.initial
       = Some {| Rule.stack := Rule.stack Rule.initial;
                 Rule.reports := Rule.reports Rule.initial ++ new |}
       /\ (new = []
           <-> LocallySorted (Pass.in_order context asc)
                 (Pass.listened PassExamples.entries_blank))
       /\ (length new
           <= Nat.pred (length PassExamples.entries_blank))%nat.
Proof.
  intros context. split; [reflexivity|].
  apply (X7_simple_literal spec_requirements context asc ESTree.TOther
           (Examples.at_ Examples.text_ba_blank 0 16)
           PassExamples.entries_blank ["b"; "a"] Rule.initial).
  - reflexivity.
  - reflexivity.
  - reflexivity.
  - apply LSorted_consn; [apply LSorted_cons1|].
    vm_compute. discriminate.
Defined.

(** X8: without line-separated groups and with a transitive comparator (as
    [asc], [desc], [ascI] and [descI] are), such a literal gets no report
    exactly when its names are sorted: the comparator accepts every name
    after every name before it. *)
Theorem X8_no_report_iff_sorted (R : Requirements)
    (context : Rule.Context) (valid : string -> string -> bool)
    (parent : ESTree.NodeType) (m : ESTree.Meta)
    (entries : list ESTree.node) (names : list string) (st : Rule.State) :
  Rule.allowLineSeparatedGroups_on context = false ->
  Rule.isValidOrder context = Some valid ->
  (forall a b c, valid a b = true -> valid b c = true -> valid a c = true) ->
  forallb Pass.simple_entry entries = true ->
  map getPropertyName (Pass.listened entries) = map Some names ->
  LocallySorted (Pass.separated context) (Pass.listened entries) ->
  exists new,
    Rule.run context
      (Rule.events parent (ESTree.ObjectExpression m entries)) st
    = Some {| Rule.stack := Rule.stack st;
              Rule.reports := Rule.reports st ++ new |}
    /\ (new = [] <-> StronglySorted (fun a b => valid a b = true) names).
Proof.
  intros Hg Hvalid Htrans Hsimple Hnames Hsep.
  destruct (simple_literal context valid parent m entries names st
              Hvalid Hsimple Hnames Hsep) as (new & Erun & Hiff & _).
  exists new. split; [exact Erun|].
  rewrite Hiff, (in_order_names context valid _ Hg names Hnames).
  rewrite <- Sorted_LocallySorted_iff. split.
  - apply Sorted_StronglySorted. intros a b c. apply Htrans.
  - apply StronglySorted_Sorted.
Qed.

(** The theorem at [{b: 1, c: 2, a: 3}] under the default configuration. *)
Lemma X8_witness :
  let context := Rule.default_context Examples.file_bca in
  Pass.listened PassExamples.entries_bca = PassExamples.listened_bca
  /\ map getPropertyName PassExamples.listened_bca
     = map Some ["b"; "c"; "a"]
  /\ exists new,
       Rule.run context
         (Rule.events ESTree.TOther
            (ESTree.ObjectExpression (Examples.at_ Examples.text_bca 0 18)
               PassExamples.entries_bca))
         Rule.initial
       = Some {| Rule.stack := Rule.stack Rule.initial;
                 Rule.reports := Rule.reports Rule.initial ++ new |}
       /\ (new = []
           <-> StronglySorted (fun a b => asc a b = true) ["b"; "c"; "a"]).
Proof.
  intros context. split; [reflexivity|]. split; [reflexivity|].
  apply (X8_no_report_iff_sorted spec_requirements context asc ESTree.TOther
           (Examples.at_ Examples.text_bca 0 18)
           PassExamples.entries_bca ["b"; "c"; "a"] Rule.initial).
  - reflexivity.
  - reflexivity.
  - exact asc_trans.
  - reflexivity.
  - reflexivity.
  - apply LSorted_consn; [apply LSorted_consn; [apply LSorted_cons1|]|];
      vm_compute; discriminate.
Defined.

(** ** An Edit that carries a comment *)

Section CommentFacts.

Local Open Scope string_scope.

Lemma applyEdit_comment (pre a m1 c m2 b post : string)
    (rp rc rn : nat * nat) :
  (0 < String.length a)%nat ->
  (0 < String.length c)%nat ->
  rp = (String.length pre, (String.length pre + String.length a)%nat) ->
  rc = ((String.length pre + String.length a + String.length m1)%nat,
        (String.length pre + String.length a + String.length m1
         + String.length c)%nat) ->
  rn = ((String.length pre + String.length a + String.length m1
         + String.length c + String.length m2)%nat,
        (String.length pre + String.length a + String.length m1
         + String.length c + String.length m2 + String.length b)%nat) ->
  Fixer.applyEdit (pre ++ a ++ m1 ++ c ++ m2 ++ b ++ post)
    [ Fixer.insertTextBefore rp (c ++ Rule.newline);
      Fixer.remove rc;
      Fixer.replaceText rp b;
      Fixer.replaceText rn a ]
  = Some (pre ++ c ++ Rule.newline ++ b ++ m1 ++ m2 ++ a ++ post).
Proof.
  intros Ha Hc -> -> ->.
  set (text := pre ++ a ++ m1 ++ c ++ m2 ++ b ++ post).
  set (lp := String.length pre) in *. set (la := String.length a) in *.
  set (l1 := String.length m1) in *. set (lc := String.length c) in *.
  set (l2 := String.length m2) in *. set (lb := String.length b) in *.
  set (ins := Fixer.insertTextBefore (lp, (lp + la)%nat)
                (c ++ Rule.newline)).
  set (rem := Fixer.remove ((lp + la + l1)%nat, (lp + la + l1 + lc)%nat)).
  set (repP := Fixer.replaceText (lp, (lp + la)%nat) b).
  set (repN := Fixer.replaceText
                 ((lp + la + l1 + lc + l2)%nat,
                  (lp + la + l1 + lc + l2 + lb)%nat) a).
  assert (Hsort : Fixer.sort_fixes [ins; rem; repP; repN]
                  = [ins; repP; rem; repN]).
  { unfold Fixer.sort_fixes. cbn [fold_left Fixer.insert_sorted].
    assert (H1 : Fixer.fix_le ins rem = true).
    { unfold Fixer.fix_le. simpl.
      destruct (Nat.eqb_spec lp (lp + la + l1));
        [apply Nat.leb_le | apply Nat.ltb_lt]; lia. }
    assert (H2 : Fixer.fix_le ins repP = true).
    { unfold Fixer.fix_le. simpl. rewrite Nat.eqb_refl.
      apply Nat.leb_le. lia. }
    assert (H3 : Fixer.fix_le rem repP = false).
    { unfold Fixer.fix_le. simpl.
      destruct (Nat.eqb_spec (lp + la + l1) lp); [lia|].
      apply Nat.ltb_ge. lia. }
    assert (H4 : Fixer.fix_le ins repN = true).
    { unfold Fixer.fix_le. simpl.
      destruct (Nat.eqb_spec lp (lp + la + l1 + lc + l2));
        [apply Nat.leb_le | apply Nat.ltb_lt]; lia. }
    assert (H5 : Fixer.fix_le repP repN = true).
    { unfold Fixer.fix_le. simpl.
      destruct (Nat.eqb_spec lp (lp + la + l1 + lc + l2));
        [apply Nat.leb_le | apply Nat.ltb_lt]; lia. }
    assert (H6 : Fixer.fix_le rem repN = true).
    { unfold Fixer.fix_le. simpl.
      destruct (Nat.eqb_spec (lp + la + l1) (lp + la + l1 + lc + l2));
        [apply Nat.leb_le | apply Nat.ltb_lt]; lia. }
    rewrite H1. cbn [Fixer.insert_sorted]. rewrite H2.
    cbn [Fixer.insert_sorted]. rewrite H3. rewrite H4.
    cbn [Fixer.insert_sorted]. rewrite H5. cbn [Fixer.insert_sorted].
    rewrite H6. reflexivity. }
  assert (Hm1 : JsString.slice text (lp + la) (lp + la + l1) = m1).
  { unfold text. rewrite <- (append_assoc pre a).
    apply slice_at; [rewrite length_append|]; reflexivity. }
  assert (Hm2 : JsString.slice text (lp + la + l1 + lc)
                  (lp + la + l1 + lc + l2) = m2).
  { unfold text.
    rewrite <- (append_assoc m1 c), <- (append_assoc a), <- (append_assoc pre).
    apply slice_at; [|reflexivity].
    rewrite !length_append. unfold lp, la, l1, lc. lia. }
  assert (Hpost : JsString.slice text (lp + la + l1 + lc + l2 + lb)
                    (String.length text) = post).
  { unfold text.
    rewrite <- (append_assoc m2 b), <- (append_assoc c), <- (append_assoc m1),
      <- (append_assoc a), <- (append_assoc pre).
    replace (lp + la + l1 + lc + l2 + lb)%nat
      with (String.length (pre ++ a ++ m1 ++ c ++ m2 ++ b)).
    - apply slice_suffix.
    - rewrite !length_append. unfold lp, la, l1, lc, l2, lb. lia. }
  assert (Hpre : JsString.slice text 0 lp = pre)
    by (unfold text; apply slice_prefix).
  assert (Hmerge : Fixer.merge_loop text lp None "" [ins; repP; rem; repN]
                   = Some ((c ++ Rule.newline) ++ b ++ m1 ++ m2 ++ a)).
  { unfold ins, rem, repP, repN, Fixer.insertTextBefore, Fixer.remove,
      Fixer.replaceText.
    cbn [Fixer.merge_loop Fixer.fix_range Fixer.fix_text fst snd].
    rewrite Nat.leb_refl.
    replace ((lp + la)%nat <=? (lp + la + l1)%nat)%nat with true
      by (symmetry; apply Nat.leb_le; lia).
    replace ((lp + la + l1 + lc)%nat <=? (lp + la + l1 + lc + l2)%nat)%nat
      with true by (symmetry; apply Nat.leb_le; lia).
    replace (Nat.max lp lp) with lp by lia.
    replace (Nat.max lp (lp + la)) with (lp + la)%nat by lia.
    replace (Nat.max lp (lp + la + l1 + lc))
      with (lp + la + l1 + lc)%nat by lia.
    rewrite slice_empty, Hm1, Hm2. simpl.
    rewrite !append_assoc. reflexivity. }
  unfold Fixer.applyEdit, Fixer.mergeFixes. rewrite Hsort.
  change (fst (Fixer.fix_range ins)) with lp. rewrite Hmerge.
  unfold Fixer.applyFix. simpl. rewrite Hpre, Hpost.
  rewrite !append_assoc. reflexivity.
Qed.

End CommentFacts.

(** X9: when the only comment directly before the node is one comment that
    lies between the previous node and the node, and none is before the
    previous node, the [fix] returns four fixes, and the Edit puts the
    comment, a line break and the text of the node where the previous node
    was, empties the place of the comment, and puts the text of the previous
    node where the node was; the rest of the text stays. *)
Theorem X9_comment_moves_with_entry
    (context : Rule.Context) (node prev : ESTree.PropertyNode)
    (comment : SourceCode.Token) (pre a m1 c m2 b post : string) :
  let sc := Rule.sourceCode context in
  SourceCode.text sc = (pre ++ a ++ m1 ++ c ++ m2 ++ b ++ post)%string ->
  (0 < String.length a)%nat ->
  (0 < String.length c)%nat ->
  ESTree.prop_range prev
  = (String.length pre, (String.length pre + String.length a)%nat) ->
  SourceCode.tok_range comment
  = ((String.length pre + String.length a + String.length m1)%nat,
     (String.length pre + String.length a + String.length m1
      + String.length c)%nat) ->
  ESTree.prop_range node
  = ((String.length pre + String.length a + String.length m1
      + String.length c + String.length m2)%nat,
     (String.length pre + String.length a + String.length m1
      + String.length c + String.length m2 + String.length b)%nat) ->
  SourceCode.getCommentsBefore sc (ESTree.prop_range prev) = [] ->
  SourceCode.getCommentsBefore sc (ESTree.prop_range node) = [comment] ->
  exists fixes,
    Rule.fix_ context node (Some prev) = Some fixes
    /\ length fixes = 4%nat
    /\ Fixer.applyEdit (SourceCode.text sc) fixes
       = Some (pre ++ c ++ Rule.newline ++ b ++ m1 ++ m2 ++ a ++ post)%string.
Proof.
  intros sc Htext Ha Hc Hrp Hrc Hrn Hcp Hcn.
  eexists. split; [reflexivity|].
  unfold Rule.moveProperty. fold sc. rewrite Hcp, Hcn. simpl.
  split; [reflexivity|].
  unfold SourceCode.getText. rewrite Htext, Hrp, Hrc, Hrn. simpl.
  assert (Ea : JsString.slice (pre ++ a ++ m1 ++ c ++ m2 ++ b ++ post)
                 (String.length pre) (String.length pre + String.length a)
               = a) by (apply slice_at; reflexivity).
  assert (Ec : JsString.slice (pre ++ a ++ m1 ++ c ++ m2 ++ b ++ post)
                 (String.length pre + String.length a + String.length m1)
                 (String.length pre + String.length a + String.length m1
                  + String.length c)
               = c).
  { rewrite <- (append_assoc a m1), <- (append_assoc pre).
    apply slice_at; [|reflexivity]. rewrite !length_append. lia. }
  assert (Eb : JsString.slice (pre ++ a ++ m1 ++ c ++ m2 ++ b ++ post)
                 (String.length pre + String.length a + String.length m1
                  + String.length c + String.length m2)
                 (String.length pre + String.length a + String.length m1
                  + String.length c + String.length m2 + String.length b)
               = b).
  { rewrite <- (append_assoc c m2), <- (append_assoc m1), <- (append_assoc a),
      <- (append_assoc pre).
    apply slice_at; [|reflexivity]. rewrite !length_append. lia. }
  rewrite Ea, Eb, Ec.
  apply applyEdit_comment; auto.
Qed.

(** The theorem at [{b: 1, /* x */ a: 2}]: the Edit gives [{/* x */], a line
    break, [a: 2,  b: 1}]. *)
Lemma X9_witness :
  let context := Rule.default_context PassExamples.file_commented in
  SourceCode.getCommentsBefore PassExamples.file_commented
    (ESTree.prop_range PassExamples.prop_a_commented)
  = [PassExamples.comment_x]
  /\ exists fixes,
       Rule.fix_ context PassExamples.prop_a_commented
         (Some PassExamples.prop_b_commented) = Some fixes
       /\ length fixes = 4%nat
       /\ Fixer.applyEdit PassExamples.text_commented fixes
          = Some ("{" ++ "/* x */" ++ Rule.newline ++ "a: 2" ++ ", " ++ " "
                  ++ "b: 1" ++ "}")%string.
Proof.
  intros context. split; [reflexivity|].
  apply (X9_comment_moves_with_entry context
           PassExamples.prop_a_commented PassExamples.prop_b_commented
           PassExamples.comment_x "{" "b: 1" ", " "/* x */" " " "a: 2" "}");
    try reflexivity; simpl; lia.
Defined.
